(** * Slideshow playback/transition engine

    A shallow embedding of the slideshow component
    ([src/components/slide-show.tsx]), its media helpers
    ([src/utils/slide-show.media.ts]), the motion profile table
    ([src/utils/slide.motion.ts]) and the hosting [App].

    Conventions.
    - JavaScript numbers that hold integers (indices, seeds, timer delays,
      the clock in milliseconds) are [Z]; [%] is JavaScript's remainder,
      which takes the sign of the dividend ([Z.rem]).
    - The one place where the source leaves the integers is the random
      draw [Math.floor((s / 233280) * (i + 1))] of the shuffle; it is
      evaluated on IEEE-754 binary64 values ([SpecFloat]).
    - Literal visual parameters ([1.03], [0.97], ...) and [intervalSec] are
      rationals.
    - A JavaScript array is a list of optional values ([None] is
      [undefined]) together with the properties stored under negative
      integer keys.
    - React state is passed explicitly; timers, effect instances and the
      readiness probes live in a [World] that is advanced by events. *)

From stdpp Require Import base option list gmap strings.
From Stdlib Require Import ZArith QArith Lia SpecFloat.

Open Scope Z_scope.

(** ** Media items ([slide-show.media.ts]) *)

Inductive MediaType := image | video.

Record MediaItem := mkMediaItem {
  type : MediaType;
  src : string;
  muted : option bool
}.

Inductive TransitionMode := crossfade | slide | flip | zoom | pan.

#[global] Instance MediaType_eq_dec : EqDecision MediaType.
Proof. solve_decision. Defined.

#[global] Instance MediaItem_eq_dec : EqDecision MediaItem.
Proof. solve_decision. Defined.

#[global] Instance TransitionMode_eq_dec : EqDecision TransitionMode.
Proof. solve_decision. Defined.

Definition typeName (t : MediaType) : string :=
  match t with image => "image" | video => "video" end.

(** [nextIndex(i, len)]: [len <= 0 ? 0 : (i + 1) % len]. *)
Definition nextIndex (i len : Z) : Z :=
  if len <=? 0 then 0 else Z.rem (i + 1) len.

(** [keyOf(item)]: the template string [type:src]. *)
Definition keyOf (item : MediaItem) : string :=
  typeName (type item) +:+ ":" +:+ src item.

(** ** Motion profile table ([slide.motion.ts]) *)

(** The fields of framer-motion's [TargetAndTransition] that the table
    uses; an absent field is [None]. *)
Record TargetAndTransition := mkTarget {
  opacity : option Q;
  x : option Q;
  rotateY : option Q;
  scale : option Q;
  transformPerspective : option Q
}.

Record MotionTriplet := mkTriplet {
  initial : TargetAndTransition;
  animate : TargetAndTransition;
  exit : TargetAndTransition
}.

Definition target_opacity_x (o xv : Q) : TargetAndTransition :=
  mkTarget (Some o) (Some xv) None None None.

Definition target_opacity_scale (o sc : Q) : TargetAndTransition :=
  mkTarget (Some o) None None (Some sc) None.

Definition target_flip (o ry xv persp : Q) : TargetAndTransition :=
  mkTarget (Some o) (Some xv) (Some ry) None (Some persp).

Definition getMotionTriplet (mode : TransitionMode) (isImage kenBurns : bool)
  : MotionTriplet :=
  match mode with
  | slide =>
      mkTriplet (target_opacity_x 0 60) (target_opacity_x 1 0)
                (target_opacity_x 0 (-60))
  | flip =>
      mkTriplet (target_flip 0 (-70) 40 1200) (target_flip 1 0 0 1200)
                (target_flip 0 70 (-40) 1200)
  | zoom =>
      mkTriplet (target_opacity_scale 0 0.97) (target_opacity_scale 1 1)
                (target_opacity_scale 0 1.03)
  | pan =>
      mkTriplet (target_opacity_x 0 24) (target_opacity_x 1 0)
                (target_opacity_x 0 (-24))
  | crossfade =>
      mkTriplet
        (target_opacity_scale 0 (if isImage && kenBurns then 1.03 else 1))
        (target_opacity_scale 1 1)
        (target_opacity_scale 0 (if isImage && kenBurns then 1.01 else 1))
  end.

(** The required-mappings table as the specification words it: one row per
    mode, each cell listing exactly the parameters the table names.  In the
    flip row only the enter cell names a perspective. *)
Definition specTable (mode : TransitionMode) (isImage kenBurns : bool)
  : MotionTriplet :=
  match mode with
  | crossfade =>
      mkTriplet
        (target_opacity_scale 0 (if isImage && kenBurns then 1.03 else 1))
        (target_opacity_scale 1 1)
        (target_opacity_scale 0 (if isImage && kenBurns then 1.01 else 1))
  | slide =>
      mkTriplet (target_opacity_x 0 60) (target_opacity_x 1 0)
                (target_opacity_x 0 (-60))
  | flip =>
      mkTriplet (target_flip 0 (-70) 40 1200)
                (mkTarget (Some 1%Q) (Some 0%Q) (Some 0%Q) None None)
                (mkTarget (Some 0%Q) (Some (-40)%Q) (Some 70%Q) None None)
  | zoom =>
      mkTriplet (target_opacity_scale 0 0.97) (target_opacity_scale 1 1)
                (target_opacity_scale 0 1.03)
  | pan =>
      mkTriplet (target_opacity_x 0 24) (target_opacity_x 1 0)
                (target_opacity_x 0 (-24))
  end.

(** The table with the flip row completed the way the code has it: the
    perspective of 1200 is part of all three states. *)
Definition specTableFlipPerspective (mode : TransitionMode)
  (isImage kenBurns : bool) : MotionTriplet :=
  match mode with
  | flip =>
      mkTriplet (target_flip 0 (-70) 40 1200) (target_flip 1 0 0 1200)
                (target_flip 0 70 (-40) 1200)
  | _ => specTable mode isImage kenBurns
  end.

(** ** JavaScript arrays of numbers *)

(** [elems] are the indexed elements ([None] is [undefined] or a hole);
    [negProps] holds what was assigned under negative integer keys, which
    JavaScript stores as ordinary properties without touching [length]. *)
Record JsArray := mkJsArray {
  elems : list (option Z);
  negProps : gmap Z (option Z)
}.

Definition js_length (a : JsArray) : Z := Z.of_nat (length (elems a)).

(** [a[k]] *)
Definition js_get (a : JsArray) (k : Z) : option Z :=
  if decide (0 <= k) then default None (elems a !! Z.to_nat k)
  else default None (negProps a !! k).

(** [a[k] = v]; an index past the end extends the array with holes. *)
Definition js_set (a : JsArray) (k : Z) (v : option Z) : JsArray :=
  if decide (0 <= k) then
    if decide (k < js_length a) then
      mkJsArray (<[Z.to_nat k := v]> (elems a)) (negProps a)
    else
      mkJsArray
        (elems a ++ replicate (Z.to_nat k - length (elems a)) None ++ [v])
        (negProps a)
  else mkJsArray (elems a) (<[k := v]> (negProps a)).

(** [[a[i], a[j]] = [a[j], a[i]]]: the right-hand side is read first, then
    [a[i]] and [a[j]] are assigned in that order. *)
Definition js_swap (a : JsArray) (i j : Z) : JsArray :=
  let aj := js_get a j in
  let ai := js_get a i in
  js_set (js_set a i aj) j ai.

(** ** IEEE-754 binary64 for the random draw *)

Definition double_of_Z (z : Z) : spec_float :=
  binary_normalize 53 1024 z 0 false.

(** [Math.floor] of a finite double, as an integer.  The draw never
    produces an infinity or a NaN (the divisor is the constant 233280). *)
Definition double_floor (f : spec_float) : Z :=
  match f with
  | S754_finite s m e =>
      let z := if s then Z.neg m else Z.pos m in
      if 0 <=? e then z * 2 ^ e else z / 2 ^ (- e)
  | _ => 0
  end.

(** [Math.floor((s / 233280) * n)] *)
Definition floorScale (s n : Z) : Z :=
  double_floor
    (SFmul 53 1024
       (SFdiv 53 1024 (double_of_Z s) (double_of_Z 233280))
       (double_of_Z n)).

(** The same draw in exact arithmetic. *)
Definition floorScaleExact (s n : Z) : Z := (s * n) / 233280.

(** ** Playback order ([useMemo] body of [Slideshow]) *)

Section Shuffle.

(** [pick s n] is the value of [Math.floor(r * (i + 1))] for
    [r = s / 233280] and [n = i + 1]. *)
Variable pick : Z -> Z -> Z.

(** [s = (s * 9301 + 49297) % 233280] *)
Definition lcg (s : Z) : Z := Z.rem (s * 9301 + 49297) 233280.

(** The loop [for (let i = arr.length - 1; i > 0; i--)], with [i] the
    current loop index. *)
Fixpoint shuffleLoop (i : nat) (s : Z) (arr : JsArray) : JsArray :=
  match i with
  | O => arr
  | S i' =>
      let s' := lcg s in
      let j := pick s' (Z.of_nat i + 1) in
      shuffleLoop i' s' (js_swap arr (Z.of_nat i) j)
  end.

(** [items.map((_, i) => i)] *)
Definition identityOrder (n : nat) : JsArray :=
  mkJsArray (map (fun i => Some (Z.of_nat i)) (seq 0 n)) ∅.

Definition computeOrder (n : nat) (shuffle : bool) (shuffleSeed : Z)
  : JsArray :=
  let arr := identityOrder n in
  if negb shuffle then arr
  else
    let s := if shuffleSeed =? 0 then 1 else shuffleSeed in
    shuffleLoop (n - 1) s arr.

End Shuffle.

(** ** Component state and render-time values *)

Record Props := mkProps {
  items : list MediaItem;
  intervalSec : Q;
  shuffle : bool;
  kenBurns : bool;
  playing : bool;
  shuffleSeed : Z;
  transitionMode : TransitionMode
}.

Record IncomingState := mkIncoming {
  idx : Z;
  item : MediaItem;
  key : string;
  ready : bool
}.

#[global] Instance IncomingState_eq_dec : EqDecision IncomingState.
Proof. solve_decision. Defined.

(** The two [useState] cells. *)
Record EngineState := mkEngineState {
  st_idx : Z;
  st_incoming : option IncomingState
}.

(** [useState(0)] and [useState(null)] *)
Definition initialState : EngineState := mkEngineState 0 None.

(** [((a % n) + n) % n] *)
Definition wrapIndex (a n : Z) : Z := Z.rem (Z.rem a n + n) n.

(** [items[k]] *)
Definition itemAt (l : list MediaItem) (k : Z) : option MediaItem :=
  if decide (0 <= k) then l !! Z.to_nat k else None.

(** What one render of [Slideshow] computes before its effects. *)
Record View := mkView {
  order : JsArray;
  safeLen : Z;
  shownIdx : Z;
  shownItem : option MediaItem;
  shownKey : string;
  shownIsImage : bool;
  shownIsVideo : bool
}.

Definition orderOf (p : Props) : JsArray :=
  computeOrder floorScale (length (items p)) (shuffle p) (shuffleSeed p).

Definition render (p : Props) (i : Z) : View :=
  let ord := orderOf p in
  let len := js_length ord in
  let sidx := if len =? 0 then 0 else wrapIndex i len in
  let sitem :=
    if len =? 0 then None
    else itemAt (items p) (default 0 (js_get ord sidx)) in
  mkView ord len sidx sitem
    (from_option keyOf "" sitem)
    (bool_decide (type <$> sitem = Some image))
    (bool_decide (type <$> sitem = Some video)).

(** The values a callback created during a render closes over. *)
Record Closure := mkClosure {
  c_props : Props;
  c_idx : Z;
  c_incoming : option IncomingState
}.

Definition c_view (c : Closure) : View := render (c_props c) (c_idx c).

(** [scheduleNext(nextI)]: [Some inc] is the call [setIncoming(inc)],
    [None] is a return without a state update. *)
Definition scheduleNext (c : Closure) (nextI : Z) : option IncomingState :=
  let v := c_view c in
  if safeLen v =? 0 then None
  else
    match c_incoming c with
    | Some _ => None
    | None =>
        let ni := wrapIndex nextI (safeLen v) in
        match itemAt (items (c_props c)) (default 0 (js_get (order v) ni)) with
        | None => None
        | Some it => Some (mkIncoming ni it (keyOf it) false)
        end
    end.

Definition goNext (c : Closure) : option IncomingState :=
  let v := c_view c in
  if safeLen v =? 0 then None
  else scheduleNext c (nextIndex (shownIdx v) (safeLen v)).

Definition handleVideoEnded (c : Closure) : option IncomingState :=
  if negb (playing (c_props c)) then None
  else
    match c_incoming c with
    | Some _ => None
    | None => goNext c
    end.

(** Applying the state update a stage request asks for. *)
Definition applyStage (req : option IncomingState) (st : EngineState)
  : EngineState :=
  match req with
  | Some inc => mkEngineState (st_idx st) (Some inc)
  | None => st
  end.

Definition closureOf (p : Props) (st : EngineState) : Closure :=
  mkClosure p (st_idx st) (st_incoming st).

(** The updater of [markReady]:
    [(p) => (p && !p.ready ? { ...p, ready: true } : p)]. *)
Definition markReadyUpdate (p : option IncomingState)
  : option IncomingState :=
  match p with
  | Some i =>
      if ready i then p
      else Some (mkIncoming (idx i) (item i) (key i) true)
  | None => None
  end.

(** [markReady] of a probe whose [cancelled] flag has the given value. *)
Definition markReady (cancelled : bool) (st : EngineState) : EngineState :=
  if cancelled then st
  else mkEngineState (st_idx st) (markReadyUpdate (st_incoming st)).

(** The commit callback: [setIdx(incoming.idx); setIncoming(null)]. *)
Definition commit (i : Z) (st : EngineState) : EngineState :=
  mkEngineState i None.

(** ** The running component: timers, probes, effects *)

(** [slide-show.tsx] holds two versions of the component.  [Defensive] is
    the first one (it imports the media helpers, pauses the shown video
    before the hold and waits up to 4500ms for a video); [Plain] is the
    second, self-contained one (4000ms, no pause before the hold). *)
Inductive EngineVariant := Defensive | Plain.

(** [incoming.item.type === "video" ? 4500 : 2000] (resp. [4000]). *)
Definition timeoutMs (vr : EngineVariant) (t : MediaType) : Z :=
  match t, vr with
  | video, Defensive => 4500
  | video, Plain => 4000
  | image, _ => 2000
  end.

(** The delay of the commit timer. *)
Definition holdMs : Z := 560.

(** The bound of the wait for a first decoded frame:
    [waitFirstVideoFrame(el, 350)], resp. the 4000ms timer of
    [waitForVideoFrame]. *)
Definition firstFrameMs (vr : EngineVariant) : Z :=
  match vr with Defensive => 350 | Plain => 4000 end.

(** Where a readiness probe (one run of the probe effect) stands. *)
Inductive ProbeStage :=
| ImgWait                 (* [img.src] set, [onload]/[onerror] pending *)
| ImgRaf1                 (* loaded, first [requestAnimationFrame] pending *)
| ImgRaf2                 (* second [requestAnimationFrame] pending *)
| VidNoElement            (* [incomingVideoRef.current] was null *)
| VidWaitReady            (* awaiting the can-render signal *)
| VidWaitPlay             (* awaiting the promise of [el.play()] *)
| VidWaitFrame (t : nat)  (* awaiting a first frame; [t] is the bound timer *)
| ProbeDone.

(** The variables one run of the probe effect closes over. *)
Record Probe := mkProbe {
  cancelled : bool;
  fallback : nat;
  stage : ProbeStage
}.

Inductive Callback :=
| CbFallback (pid : nat)             (* the fallback timer of probe [pid] *)
| CbCommit (i : Z)                   (* commit, [i] is [incoming.idx] *)
| CbTick (c : Closure) (intervalMs : Q)
| CbPlay                             (* [el.play()] on the shown video *)
| CbWaitReady (pid : nat)            (* timeout inside [waitVideoReady] *)
| CbFirstFrame (pid : nat).          (* timeout of the first-frame wait *)

Record Timer := mkTimer {
  due : Z;
  callback : Callback
}.

Inductive Handle := ActiveVideo | IncomingVideo.

Inductive VideoCmd := Load | Pause | SeekStart | Play.

(** What the component does to the outside. *)
Inductive Output :=
| OVideo (h : Handle) (c : VideoCmd)
| OPlayingChange (b : bool).

#[global] Instance Handle_eq_dec : EqDecision Handle.
Proof. solve_decision. Defined.

#[global] Instance VideoCmd_eq_dec : EqDecision VideoCmd.
Proof. solve_decision. Defined.

#[global] Instance Output_eq_dec : EqDecision Output.
Proof. solve_decision. Defined.

(** Dependencies of the four effects that touch engine state, as of their
    last run, and what their cleanup needs. *)
Definition TickDeps : Type := bool * bool * Q * Z * Z * option string.

Record Effects := mkEffects {
  probeEffect : option (option string * option nat);
  commitEffect : option ((option bool * option Z * bool) * option nat);
  tickEffect : option (TickDeps * bool);
  videoEffect : option ((bool * bool * string * option bool) * option nat)
}.

(** History kept for the statements only: one record per staged incoming,
    with the times at which it was marked ready and committed. *)
Record Cycle := mkCycle {
  staged : Z;
  stagedAs : IncomingState;
  readyAt : list Z;
  commits : list (Z * Z)
}.

Inductive Stray := StrayReady (t : Z) | StrayCommit (t : Z) (i : Z).

Record World := mkWorld {
  now : Z;
  props : Props;
  state : EngineState;
  nextId : nat;
  timers : gmap nat Timer;
  probes : gmap nat Probe;
  timerRef : option nat;
  dueRef : Q;
  effects : Effects;
  outputs : list Output;
  cycles : list Cycle;
  strays : list Stray
}.

Definition set_now (t : Z) (w : World) : World :=
  mkWorld t (props w) (state w) (nextId w) (timers w) (probes w)
    (timerRef w) (dueRef w) (effects w) (outputs w) (cycles w) (strays w).

Definition set_props (p : Props) (w : World) : World :=
  mkWorld (now w) p (state w) (nextId w) (timers w) (probes w)
    (timerRef w) (dueRef w) (effects w) (outputs w) (cycles w) (strays w).

Definition set_state (s : EngineState) (w : World) : World :=
  mkWorld (now w) (props w) s (nextId w) (timers w) (probes w)
    (timerRef w) (dueRef w) (effects w) (outputs w) (cycles w) (strays w).

Definition set_nextId (n : nat) (w : World) : World :=
  mkWorld (now w) (props w) (state w) n (timers w) (probes w)
    (timerRef w) (dueRef w) (effects w) (outputs w) (cycles w) (strays w).

Definition set_timers (m : gmap nat Timer) (w : World) : World :=
  mkWorld (now w) (props w) (state w) (nextId w) m (probes w)
    (timerRef w) (dueRef w) (effects w) (outputs w) (cycles w) (strays w).

Definition set_probes (m : gmap nat Probe) (w : World) : World :=
  mkWorld (now w) (props w) (state w) (nextId w) (timers w) m
    (timerRef w) (dueRef w) (effects w) (outputs w) (cycles w) (strays w).

Definition set_timerRef (r : option nat) (w : World) : World :=
  mkWorld (now w) (props w) (state w) (nextId w) (timers w) (probes w)
    r (dueRef w) (effects w) (outputs w) (cycles w) (strays w).

Definition set_dueRef (d : Q) (w : World) : World :=
  mkWorld (now w) (props w) (state w) (nextId w) (timers w) (probes w)
    (timerRef w) d (effects w) (outputs w) (cycles w) (strays w).

Definition set_effects (e : Effects) (w : World) : World :=
  mkWorld (now w) (props w) (state w) (nextId w) (timers w) (probes w)
    (timerRef w) (dueRef w) e (outputs w) (cycles w) (strays w).

Definition set_outputs (o : list Output) (w : World) : World :=
  mkWorld (now w) (props w) (state w) (nextId w) (timers w) (probes w)
    (timerRef w) (dueRef w) (effects w) o (cycles w) (strays w).

Definition set_history (c : list Cycle) (s : list Stray) (w : World)
  : World :=
  mkWorld (now w) (props w) (state w) (nextId w) (timers w) (probes w)
    (timerRef w) (dueRef w) (effects w) (outputs w) c s.

(** *** Runtime primitives *)

(** [setTimeout(cb, delay)]: a fresh handle, due [delay] ms from now. *)
Definition setTimeout (cb : Callback) (delay : Z) (w : World)
  : nat * World :=
  (nextId w,
   set_nextId (S (nextId w))
     (set_timers (<[nextId w := mkTimer (now w + delay) cb]> (timers w)) w)).

Definition clearTimeout (tid : nat) (w : World) : World :=
  set_timers (delete tid (timers w)) w.

Definition emit (o : Output) (w : World) : World :=
  set_outputs (o :: outputs w) w.

Definition emitAll (os : list Output) (w : World) : World :=
  fold_left (fun w o => emit o w) os w.

(** *** State updates, with their history *)

Definition noteReady (t : Z) (w : World) : World :=
  match cycles w with
  | c :: r =>
      set_history
        (mkCycle (staged c) (stagedAs c) (t :: readyAt c) (commits c) :: r)
        (strays w) w
  | [] => set_history [] (StrayReady t :: strays w) w
  end.

Definition noteCommit (t i : Z) (w : World) : World :=
  match cycles w with
  | c :: r =>
      set_history
        (mkCycle (staged c) (stagedAs c) (readyAt c) ((t, i) :: commits c)
           :: r)
        (strays w) w
  | [] => set_history [] (StrayCommit t i :: strays w) w
  end.

(** A stage request reaching [setIncoming]. *)
Definition stageW (req : option IncomingState) (w : World) : World :=
  match req with
  | Some inc =>
      set_history (mkCycle (now w) inc [] [] :: cycles w) (strays w)
        (set_state (applyStage req (state w)) w)
  | None => w
  end.

(** Does [markReady] flip the flag in this state? *)
Definition flips (st : EngineState) : bool :=
  match st_incoming st with
  | Some i => negb (ready i)
  | None => false
  end.

Definition commitW (i : Z) (w : World) : World :=
  noteCommit (now w) i (set_state (commit i (state w)) w).

Inductive VideoSignal := SigLoadedData | SigCanPlay | SigError.

(** What can happen to a mounted component.  Timer handles and probe
    numbers identify the closure that runs. *)
Inductive Event :=
| EvTimer (tid : nat)                      (* a pending timer fires *)
| EvImgLoad (pid : nat)                    (* [img.onload] *)
| EvImgError (pid : nat)                   (* [img.onerror] *)
| EvAnimationFrame (pid : nat)             (* a [requestAnimationFrame] tick *)
| EvVideoSignal (pid : nat) (s : VideoSignal)
| EvPlaySettled (pid : nat) (ok : bool)    (* the promise of [el.play()] *)
| EvFirstFrame (pid : nat)                 (* frame callback / progress *)
| EvProbeThrow (pid : nat)                 (* an exception inside [try] *)
| EvVideoEnded                             (* [onEnded] of the shown video *)
| EvDoubleClick                            (* on the capture surface *)
| EvSettings (playing' : bool) (intervalSec' : Q)
             (mode' : TransitionMode) (kenBurns' : bool).

Section Engine.

Variable vr : EngineVariant.

(** *** The readiness probe *)

Definition setStage (pid : nat) (s : ProbeStage) (w : World) : World :=
  match probes w !! pid with
  | Some pr =>
      set_probes (<[pid := mkProbe (cancelled pr) (fallback pr) s]> (probes w)) w
  | None => w
  end.

(** [markReady] as probe [pid] closes over it.  The [Plain] version
    clears its fallback timer first. *)
Definition markReadyW (pid : nat) (w : World) : World :=
  match probes w !! pid with
  | Some pr =>
      if cancelled pr then w
      else
        let w1 :=
          match vr with
          | Plain => clearTimeout (fallback pr) w
          | Defensive => w
          end in
        let w2 := if flips (state w1) then noteReady (now w1) w1 else w1 in
        set_state (markReady false (state w2)) w2
  | None => w
  end.

(** The end of the video path: the last commands on the element,
    [if (!cancelled) markReady()], and the [finally] of the [Defensive]
    version. *)
Definition finishVideo (pid : nat) (cmds : list Output) (w : World)
  : World :=
  match probes w !! pid with
  | Some pr =>
      let w1 := markReadyW pid (emitAll cmds (setStage pid ProbeDone w)) in
      match vr with
      | Defensive => clearTimeout (fallback pr) w1
      | Plain => w1
      end
  | None => w
  end.

(** The can-render wait is over: prime the element and start playback. *)
Definition videoReady (pid : nat) (w : World) : World :=
  match stage <$> probes w !! pid with
  | Some VidWaitReady =>
      let cmds :=
        match vr with
        | Defensive =>
            [OVideo IncomingVideo Pause; OVideo IncomingVideo SeekStart;
             OVideo IncomingVideo Play]
        | Plain => [OVideo IncomingVideo Play]
        end in
      setStage pid VidWaitPlay (emitAll cmds w)
  | _ => w
  end.

Definition lastCmds : list Output :=
  [OVideo IncomingVideo Pause; OVideo IncomingVideo SeekStart].

Definition onImgLoad (pid : nat) (w : World) : World :=
  match stage <$> probes w !! pid with
  | Some ImgWait => setStage pid ImgRaf1 w
  | _ => w
  end.

Definition onImgError (pid : nat) (w : World) : World :=
  match stage <$> probes w !! pid with
  | Some ImgWait => markReadyW pid (setStage pid ProbeDone w)
  | _ => w
  end.

Definition onAnimationFrame (pid : nat) (w : World) : World :=
  match stage <$> probes w !! pid with
  | Some ImgRaf1 => setStage pid ImgRaf2 w
  | Some ImgRaf2 => markReadyW pid (setStage pid ProbeDone w)
  | _ => w
  end.

Definition onVideoSignal (pid : nat) (s : VideoSignal) (w : World)
  : World :=
  match vr, s with
  | Defensive, _ => videoReady pid w
  | Plain, SigCanPlay => videoReady pid w
  | Plain, SigError =>
      match stage <$> probes w !! pid with
      | Some VidWaitReady => finishVideo pid [] w
      | _ => w
      end
  | Plain, SigLoadedData => w
  end.

Definition onPlaySettled (pid : nat) (ok : bool) (w : World) : World :=
  match stage <$> probes w !! pid with
  | Some VidWaitPlay =>
      if match vr with Defensive => true | Plain => ok end then
        let '(t, w1) := setTimeout (CbFirstFrame pid) (firstFrameMs vr) w in
        setStage pid (VidWaitFrame t) w1
      else finishVideo pid [] w
  | _ => w
  end.

Definition onFirstFrame (pid : nat) (w : World) : World :=
  match stage <$> probes w !! pid with
  | Some (VidWaitFrame t) =>
      finishVideo pid lastCmds
        match vr with
        | Defensive => clearTimeout t w
        | Plain => w
        end
  | _ => w
  end.

Definition onFirstFrameTimeout (pid : nat) (w : World) : World :=
  match stage <$> probes w !! pid with
  | Some (VidWaitFrame _) => finishVideo pid lastCmds w
  | _ => w
  end.

Definition onProbeThrow (pid : nat) (w : World) : World :=
  match stage <$> probes w !! pid with
  | Some VidWaitReady | Some VidWaitPlay | Some (VidWaitFrame _) =>
      finishVideo pid [] w
  | _ => w
  end.

(** *** Effects *)

(** Body of the probe effect; returns the cleanup it registers. *)
Definition probeBody (v : View) (w : World) : World * option nat :=
  match st_incoming (state w) with
  | None => (w, None)
  | Some inc =>
      let pid := nextId w in
      let w0 := set_nextId (S pid) w in
      let '(tf, w1) :=
        setTimeout (CbFallback pid) (timeoutMs vr (type (item inc))) w0 in
      let start s w' :=
        set_probes (<[pid := mkProbe false tf s]> (probes w')) w' in
      match type (item inc) with
      | image => (start ImgWait w1, Some pid)
      | video =>
          match shownItem v with
          | None => (start VidNoElement w1, None)
          | Some _ =>
              let w2 := emit (OVideo IncomingVideo Load) w1 in
              match vr with
              | Defensive =>
                  let '(_, w3) :=
                    setTimeout (CbWaitReady pid)
                      (timeoutMs vr (type (item inc))) w2 in
                  (start VidWaitReady w3, Some pid)
              | Plain => (start VidWaitReady w2, Some pid)
              end
          end
      end
  end.

Definition probeCleanup (cl : option nat) (w : World) : World :=
  match cl with
  | Some pid =>
      match probes w !! pid with
      | Some pr =>
          clearTimeout (fallback pr)
            (set_probes
               (<[pid := mkProbe true (fallback pr) (stage pr)]> (probes w))
               w)
      | None => w
      end
  | None => w
  end.

Definition isReady (inc : option IncomingState) : bool :=
  from_option ready false inc.

Definition commitBody (v : View) (w : World) : World * option nat :=
  match st_incoming (state w) with
  | Some inc =>
      if ready inc then
        let w1 :=
          match vr with
          | Defensive =>
              if shownIsVideo v then emit (OVideo ActiveVideo Pause) w
              else w
          | Plain => w
          end in
        let '(t, w2) := setTimeout (CbCommit (idx inc)) holdMs w1 in
        (w2, Some t)
      else (w, None)
  | None => (w, None)
  end.

Definition timerCleanup (cl : option nat) (w : World) : World :=
  match cl with
  | Some t => clearTimeout t w
  | None => w
  end.

(** [Math.max(500, intervalSec * 1000)] *)
Definition intervalMsOf (p : Props) : Q :=
  let ms := (intervalSec p * 1000)%Q in
  if Qle_bool 500 ms then ms else 500%Q.

Definition tickBody (v : View) (w : World) : World * bool :=
  let p := props w in
  if negb (playing p) || negb (shownIsImage v) then (w, false)
  else if (safeLen v =? 0) || (safeLen v <=? 1) then (w, false)
  else
    match st_incoming (state w) with
    | Some _ => (w, false)
    | None =>
        let ms := intervalMsOf p in
        let w1 := set_dueRef (inject_Z (now w) + ms)%Q w in
        let '(t, w2) :=
          setTimeout (CbTick (closureOf p (state w)) ms) 16 w1 in
        (set_timerRef (Some t) w2, true)
    end.

Definition tickCleanup (registered : bool) (w : World) : World :=
  if registered then set_timerRef None (timerCleanup (timerRef w) w)
  else w.

(** The [tick] closure. *)
Definition onTick (c : Closure) (ms : Q) (w : World) : World :=
  let w1 :=
    if bool_decide (c_incoming c = None)
       && Qle_bool (dueRef w) (inject_Z (now w) + 6)%Q
    then set_dueRef (inject_Z (now w) + ms)%Q (stageW (goNext c) w)
    else w in
  let '(t, w2) := setTimeout (CbTick c ms) 16 w1 in
  set_timerRef (Some t) w2.

Definition videoBody (v : View) (w : World) : World * option nat :=
  if negb (shownIsVideo v) then (w, None)
  else
    match vr with
    | Defensive =>
        if negb (playing (props w)) || isReady (st_incoming (state w))
        then (emit (OVideo ActiveVideo Pause) w, None)
        else
          let '(t, w1) := setTimeout CbPlay 0 w in (w1, Some t)
    | Plain =>
        if negb (playing (props w))
        then (emit (OVideo ActiveVideo Pause) w, None)
        else (emit (OVideo ActiveVideo Play) w, None)
    end.

(** *** Dependencies *)

Definition probeDeps (w : World) : option string :=
  key <$> st_incoming (state w).

Definition commitDeps (v : View) (w : World)
  : option bool * option Z * bool :=
  (ready <$> st_incoming (state w), idx <$> st_incoming (state w),
   match vr with Defensive => shownIsVideo v | Plain => false end).

Definition tickDeps (v : View) (w : World) : TickDeps :=
  (playing (props w), shownIsImage v, intervalSec (props w), safeLen v,
   shownIdx v, key <$> st_incoming (state w)).

Definition videoDeps (v : View) (w : World)
  : bool * bool * string * option bool :=
  (playing (props w), shownIsVideo v, shownKey v,
   match vr with
   | Defensive => ready <$> st_incoming (state w)
   | Plain => None
   end).

Definition tickDeps_eqb (a b : TickDeps) : bool :=
  let '(p1, i1, q1, l1, s1, k1) := a in
  let '(p2, i2, q2, l2, s2, k2) := b in
  bool_decide (p1 = p2) && bool_decide (i1 = i2) && Qeq_bool q1 q2
  && bool_decide (l1 = l2) && bool_decide (s1 = s2)
  && bool_decide (k1 = k2).

(** Does an effect run after this render?  It does on mount and whenever
    a dependency differs from the last run. *)
Definition stale {A B : Type} (eqb : A -> A -> bool) (slot : option (A * B))
  (d : A) : bool :=
  match slot with
  | Some (d0, _) => negb (eqb d0 d)
  | None => true
  end.

Definition slotCleanup {A B : Type} (slot : option (A * B)) (none : B) : B :=
  match slot with
  | Some (_, cl) => cl
  | None => none
  end.

Definition decEqb {A : Type} `{EqDecision A} (a b : A) : bool :=
  bool_decide (a = b).

(** Recording an effect's run: its dependencies and its cleanup. *)
Definition probeRun (v : View) (d : option string) (w : World) : World :=
  let '(w', cl) := probeBody v w in
  let e := effects w' in
  set_effects
    (mkEffects (Some (d, cl)) (commitEffect e) (tickEffect e)
       (videoEffect e)) w'.

Definition commitRun (v : View) (d : option bool * option Z * bool)
  (w : World) : World :=
  let '(w', cl) := commitBody v w in
  let e := effects w' in
  set_effects
    (mkEffects (probeEffect e) (Some (d, cl)) (tickEffect e)
       (videoEffect e)) w'.

Definition tickRun (v : View) (d : TickDeps) (w : World) : World :=
  let '(w', cl) := tickBody v w in
  let e := effects w' in
  set_effects
    (mkEffects (probeEffect e) (commitEffect e) (Some (d, cl))
       (videoEffect e)) w'.

Definition videoRun (v : View) (d : bool * bool * string * option bool)
  (w : World) : World :=
  let '(w', cl) := videoBody v w in
  let e := effects w' in
  set_effects
    (mkEffects (probeEffect e) (commitEffect e) (tickEffect e)
       (Some (d, cl))) w'.

Definition when (b : bool) (f : World -> World) (w : World) : World :=
  if b then f w else w.

(** One render followed by its effects: the cleanups of the effects
    whose dependencies changed, in order, then their bodies, in order. *)
Definition reconcile (w : World) : World :=
  let v := render (props w) (st_idx (state w)) in
  let e := effects w in
  let d2 := probeDeps w in
  let d3 := commitDeps v w in
  let d4 := tickDeps v w in
  let d5 := videoDeps v w in
  let r2 := stale decEqb (probeEffect e) d2 in
  let r3 := stale decEqb (commitEffect e) d3 in
  let r4 := stale tickDeps_eqb (tickEffect e) d4 in
  let r5 := stale decEqb (videoEffect e) d5 in
  when r5 (videoRun v d5)
    (when r4 (tickRun v d4)
       (when r3 (commitRun v d3)
          (when r2 (probeRun v d2)
             (when r5 (timerCleanup (slotCleanup (videoEffect e) None))
                (when r4 (tickCleanup (slotCleanup (tickEffect e) false))
                   (when r3
                      (timerCleanup (slotCleanup (commitEffect e) None))
                      (when r2
                         (probeCleanup (slotCleanup (probeEffect e) None))
                         w))))))).

(** *** Events *)

Definition runCallback (cb : Callback) (w : World) : World :=
  match cb with
  | CbFallback pid => markReadyW pid w
  | CbCommit i => commitW i w
  | CbTick c ms => onTick c ms w
  | CbPlay => emit (OVideo ActiveVideo Play) w
  | CbWaitReady pid => videoReady pid w
  | CbFirstFrame pid => onFirstFrameTimeout pid w
  end.

Definition handle (e : Event) (w : World) : World :=
  match e with
  | EvTimer tid =>
      match timers w !! tid with
      | Some tm => runCallback (callback tm) (clearTimeout tid w)
      | None => w
      end
  | EvImgLoad pid => onImgLoad pid w
  | EvImgError pid => onImgError pid w
  | EvAnimationFrame pid => onAnimationFrame pid w
  | EvVideoSignal pid s => onVideoSignal pid s w
  | EvPlaySettled pid ok => onPlaySettled pid ok w
  | EvFirstFrame pid => onFirstFrame pid w
  | EvProbeThrow pid => onProbeThrow pid w
  | EvVideoEnded =>
      if shownIsVideo (render (props w) (st_idx (state w)))
      then stageW (handleVideoEnded (closureOf (props w) (state w))) w
      else w
  | EvDoubleClick => emit (OPlayingChange true) w
  | EvSettings pl iv mode kb =>
      let p := props w in
      set_props
        (mkProps (items p) iv (shuffle p) kb pl (shuffleSeed p) mode) w
  end.

(** Event [e] at time [t]: the callback runs, React re-renders, the
    effects run. *)
Definition step (t : Z) (e : Event) (w : World) : World :=
  reconcile (handle e (set_now t w)).

(** The component as mounted at time [t] with properties [p]: initial
    state, no timers, every effect runs.  Timer handles are positive. *)
Definition mount (p : Props) (t : Z) : World :=
  reconcile
    (mkWorld t p initialState 1 ∅ ∅ None 0%Q
       (mkEffects None None None None) [] [] []).

(** Timers fire when they are due: an event at time [t] is possible only
    if no pending timer is due earlier, and a timer fires exactly at its
    due time. *)
Definition admissible (w : World) (t : Z) (e : Event) : Prop :=
  now w <= t /\
  map_Forall (fun _ tm => t <= due tm) (timers w) /\
  match e with
  | EvTimer tid => due <$> timers w !! tid = Some t
  | _ => True
  end.

#[global] Instance admissible_dec w t e : Decision (admissible w t e).
Proof. unfold admissible. destruct e; apply _. Defined.

Fixpoint run (tr : list (Z * Event)) (w : World) : World :=
  match tr with
  | [] => w
  | (t, e) :: tr' => run tr' (step t e w)
  end.

Fixpoint admissibleRun (tr : list (Z * Event)) (w : World) : Prop :=
  match tr with
  | [] => True
  | (t, e) :: tr' => admissible w t e /\ admissibleRun tr' (step t e w)
  end.

Inductive reachable : World -> Prop :=
| reachable_mount p t : reachable (mount p t)
| reachable_step w t e :
    reachable w -> admissible w t e -> reachable (step t e w).

End Engine.

(** ** [useMemo] for the playback order *)

(** The memo cell of [order]: the dependencies [[items, shuffle,
    shuffleSeed]] of the last computation, its value, and how often the
    body has run.  React compares [items] by identity; equal identity
    implies equal contents, which is what is compared here. *)
Record OrderMemo := mkOrderMemo {
  memoDeps : list MediaItem * bool * Z;
  memoValue : JsArray;
  memoRuns : nat
}.

Definition orderDeps (p : Props) : list MediaItem * bool * Z :=
  (items p, shuffle p, shuffleSeed p).

Definition useMemoOrder (m : option OrderMemo) (p : Props) : OrderMemo :=
  match m with
  | Some m0 =>
      if decide (memoDeps m0 = orderDeps p) then m0
      else mkOrderMemo (orderDeps p) (orderOf p) (S (memoRuns m0))
  | None => mkOrderMemo (orderDeps p) (orderOf p) 1
  end.

(** ** The hosting [App] *)

Record AppState := mkAppState {
  a_items : list MediaItem;
  a_playing : bool;
  a_intervalSec : Q;
  a_transitionMode : TransitionMode;
  a_settingsOpen : bool;
  a_engineKey : nat
}.

(** [App] together with its one [Slideshow] child: the [key] under which
    the child is mounted, and the child. *)
Record App := mkApp {
  app : AppState;
  mountedKey : nat;
  engine : World
}.

Inductive AppEvent :=
| AppMediaLoaded (list : list MediaItem)   (* [loadMediaItems()] resolves *)
| AppSetPlaying (v : bool)
| AppSetInterval (v : Q)
| AppSetTransitionMode (v : TransitionMode)
| AppOpenSettings
| AppCloseSettings.

(** [bumpEngine] *)
Definition bumpEngine (a : AppState) : AppState :=
  mkAppState (a_items a) (a_playing a) (a_intervalSec a)
    (a_transitionMode a) (a_settingsOpen a) (S (a_engineKey a)).

Definition appHandle (e : AppEvent) (a : AppState) : AppState :=
  match e with
  | AppMediaLoaded list =>
      bumpEngine
        (mkAppState list (a_playing a) (a_intervalSec a)
           (a_transitionMode a) (a_settingsOpen a) (a_engineKey a))
  | AppSetPlaying v =>
      mkAppState (a_items a) v (a_intervalSec a) (a_transitionMode a)
        (a_settingsOpen a) (a_engineKey a)
  | AppSetInterval v =>
      bumpEngine
        (mkAppState (a_items a) (a_playing a) v (a_transitionMode a)
           (a_settingsOpen a) (a_engineKey a))
  | AppSetTransitionMode v =>
      mkAppState (a_items a) (a_playing a) (a_intervalSec a) v
        (a_settingsOpen a) (a_engineKey a)
  | AppOpenSettings =>
      mkAppState (a_items a) (a_playing a) (a_intervalSec a)
        (a_transitionMode a) true (a_engineKey a)
  | AppCloseSettings =>
      mkAppState (a_items a) (a_playing a) (a_intervalSec a)
        (a_transitionMode a) false (a_engineKey a)
  end.

(** The properties [App] renders [Slideshow] with. *)
Definition slideshowProps (a : AppState) : Props :=
  mkProps (a_items a) (a_intervalSec a) false true (a_playing a) 0
    (a_transitionMode a).

Section Hosting.

Variable vr : EngineVariant.

(** React keeps a child whose [key] is unchanged and re-renders it with
    the new properties; a child whose [key] changed is unmounted and a
    new instance is mounted. *)
Definition renderChild (t : Z) (a : AppState) (k : nat) (w : World)
  : World :=
  if decide (a_engineKey a = k)
  then reconcile vr (set_props (slideshowProps a) (set_now t w))
  else mount vr (slideshowProps a) t.

Definition appStep (t : Z) (e : AppEvent) (x : App) : App :=
  let a := appHandle e (app x) in
  mkApp a (a_engineKey a) (renderChild t a (mountedKey x) (engine x)).

(** [App] as first rendered: empty list, playing, 3s, crossfade. *)
Definition appStart (t : Z) : App :=
  let a := mkAppState [] true 3%Q crossfade false 0 in
  mkApp a 0 (mount vr (slideshowProps a) t).

End Hosting.

(** ** Notions used in the statements *)

(** [a] lists each of the indices [0 .. n-1] exactly once. *)
Definition isPermutationOrder (a : JsArray) (n : nat) : Prop :=
  exists l : list nat,
    Permutation l (seq 0 n) /\
    elems a = map (fun i => Some (Z.of_nat i)) l.


(** ** Invariants of the running component *)

(** Every pending timer belongs to one owner: the probe effect (fallback),
    the commit effect (hold), the tick effect, the active-video effect
    (deferred play) or a probe's video pipeline. *)
Inductive Kind := KFallback | KCommit | KTick | KPlay | KPipe.

#[global] Instance Kind_eq_dec : EqDecision Kind.
Proof. solve_decision. Defined.

Definition kindOf (cb : Callback) : Kind :=
  match cb with
  | CbFallback _ => KFallback
  | CbCommit _ => KCommit
  | CbTick _ _ => KTick
  | CbPlay => KPlay
  | CbWaitReady _ | CbFirstFrame _ => KPipe
  end.

(** What the cleanups registered by the last runs hold on to. *)
Definition currentProbe (w : World) : option nat :=
  slotCleanup (probeEffect (effects w)) None.

Definition commitHandle (w : World) : option nat :=
  slotCleanup (commitEffect (effects w)) None.

Definition tickRegistered (w : World) : bool :=
  slotCleanup (tickEffect (effects w)) false.

Definition videoHandle (w : World) : option nat :=
  slotCleanup (videoEffect (effects w)) None.

(** Handle [h] was issued, and if its timer is still pending it is of
    kind [k]. *)
Definition typed (k : Kind) (h : nat) (w : World) : Prop :=
  (h < nextId w)%nat /\
  forall tm, timers w !! h = Some tm -> kindOf (callback tm) = k.

(** The media list and the shuffle settings, which fix the order. *)
Definition sameMedia (p q : Props) : Prop :=
  items p = items q /\ shuffle p = shuffle q /\ shuffleSeed p = shuffleSeed q.

Definition timerOk (w : World) (tid : nat) (tm : Timer) : Prop :=
  (tid < nextId w)%nat /\ now w <= due tm /\
  match callback tm with
  | CbFallback pid =>
      exists pr, probes w !! pid = Some pr /\ fallback pr = tid
                 /\ cancelled pr = false
  | CbCommit _ => commitHandle w = Some tid
  | CbTick c _ =>
      timerRef w = Some tid /\ tickRegistered w = true
      /\ c_incoming c = None /\ sameMedia (c_props c) (props w)
  | CbPlay => videoHandle w = Some tid
  | CbWaitReady _ | CbFirstFrame _ => True
  end.

Definition probeOk (w : World) (pid : nat) (pr : Probe) : Prop :=
  (pid < nextId w)%nat /\ (fallback pr < nextId w)%nat /\
  (forall tm, timers w !! fallback pr = Some tm ->
              callback tm = CbFallback pid) /\
  stage pr <> VidNoElement /\
  (forall t, stage pr = VidWaitFrame t -> typed KPipe t w) /\
  (cancelled pr = false -> currentProbe w = Some pid).

(** Ownership of timers and probes; holds between any two callbacks and
    between any two effects of a render. *)
Record Base (w : World) : Prop := mkBase {
  base_timers : map_Forall (timerOk w) (timers w);
  base_probes : map_Forall (probeOk w) (probes w);
  base_commitHandle : forall h, commitHandle w = Some h -> typed KCommit h w;
  base_timerRef : forall h, timerRef w = Some h -> typed KTick h w;
  base_videoHandle : forall h, videoHandle w = Some h -> typed KPlay h w
}.

Definition viewOf (w : World) : View := render (props w) (st_idx (state w)).

Section Invariant.

Variable vr : EngineVariant.

(** The probe effect is up to date: an incoming has a live probe, and
    while it is not ready the probe's fallback timer is pending, due
    one timeout after staging. *)
Definition ProbeSettled (w : World) : Prop :=
  exists cl,
    probeEffect (effects w) = Some (probeDeps w, cl) /\
    match st_incoming (state w) with
    | None => cl = None
    | Some inc =>
        exists pid pr,
          cl = Some pid /\ probes w !! pid = Some pr
          /\ cancelled pr = false
          /\ (ready inc = false ->
              exists c r,
                cycles w = c :: r /\
                timers w !! fallback pr
                = Some (mkTimer
                          (staged c + timeoutMs vr (type (item inc)))
                          (CbFallback pid)))
    end.

(** The commit effect is up to date: a ready incoming has its commit
    timer pending, due one hold after readiness. *)
Definition CommitSettled (w : World) : Prop :=
  exists cl,
    commitEffect (effects w) = Some (commitDeps vr (viewOf w) w, cl) /\
    match st_incoming (state w) with
    | Some inc =>
        if ready inc then
          exists h t1 c r,
            cl = Some h /\ cycles w = c :: r /\ readyAt c = [t1]
            /\ timers w !! h
               = Some (mkTimer (t1 + holdMs) (CbCommit (idx inc)))
        else cl = None
    | None => cl = None
    end.

Definition TickSettled (w : World) : Prop :=
  exists d reg,
    tickEffect (effects w) = Some (d, reg) /\
    tickDeps_eqb d (tickDeps (viewOf w) w) = true /\
    (st_incoming (state w) <> None -> reg = false).

Definition VideoSettled (w : World) : Prop :=
  exists cl,
    videoEffect (effects w) = Some (videoDeps vr (viewOf w) w, cl) /\
    (vr = Defensive -> isReady (st_incoming (state w)) = true ->
     cl = None).

(** A finished cycle: marked ready once, within the timeout of its kind,
    and committed once, one hold later, to the staged position. *)
Definition complete (c : Cycle) : Prop :=
  exists t1,
    readyAt c = [t1] /\
    commits c = [(t1 + holdMs, idx (stagedAs c))] /\
    staged c <= t1 <= staged c + timeoutMs vr (type (item (stagedAs c))).

Definition History (w : World) : Prop :=
  strays w = [] /\
  match st_incoming (state w) with
  | None => Forall complete (cycles w)
  | Some inc =>
      exists c r,
        cycles w = c :: r /\ Forall complete r /\ commits c = []
        /\ idx (stagedAs c) = idx inc /\ item (stagedAs c) = item inc
        /\ staged c <= now w
        /\ if ready inc then
             exists t1,
               readyAt c = [t1] /\ t1 <= now w /\
               staged c <= t1
               <= staged c + timeoutMs vr (type (item inc))
           else readyAt c = []
  end.

(** An incoming is only ever staged from a non-empty order. *)
Definition Media (w : World) : Prop :=
  st_incoming (state w) <> None -> safeLen (viewOf w) <> 0.

Record Inv (w : World) : Prop := mkInv {
  inv_base : Base w;
  inv_probe : ProbeSettled w;
  inv_commit : CommitSettled w;
  inv_tick : TickSettled w;
  inv_video : VideoSettled w;
  inv_history : History w;
  inv_media : Media w
}.

End Invariant.

(** ** Frames: what an operation may touch *)

(** The part of the world that effects and cleanups never write. *)
Definition core (w : World)
  : Z * Props * EngineState * list Cycle * list Stray :=
  (now w, props w, state w, cycles w, strays w).

(** [w'] has the timers of [w], minus some, plus some under handles that
    [w] had not issued. *)
Definition extends (w w' : World) : Prop :=
  (nextId w <= nextId w')%nat /\
  forall tid tm, timers w' !! tid = Some tm ->
                 timers w !! tid = Some tm \/ (nextId w <= tid)%nat.

(** No timer of kind [k] is pending. *)
Definition NoTimers (k : Kind) (w : World) : Prop :=
  forall tid tm, timers w !! tid = Some tm -> kindOf (callback tm) <> k.

(** Every probe that ever ran has been cancelled by its cleanup. *)
Definition AllCancelled (w : World) : Prop :=
  forall pid pr, probes w !! pid = Some pr -> cancelled pr = true.

(** Two probe tables that agree on which probes exist, on their fallback
    handles and on their [cancelled] flags. *)
Definition sameProbes (w w' : World) : Prop :=
  forall pid,
    option_Forall2
      (fun pr pr' => fallback pr' = fallback pr
                     /\ cancelled pr' = cancelled pr)
      (probes w !! pid) (probes w' !! pid).

(** [w'] comes from [w] by work on the timers of kind [k] (and of the
    video pipelines): the history and the engine state are untouched, the
    timers of every other kind are all still there, and whatever is new
    sits under a fresh handle. *)
Record Touches (k : Kind) (w w' : World) : Prop := mkTouches {
  t_core : core w' = core w;
  t_next : (nextId w <= nextId w')%nat;
  t_new : forall tid tm,
      timers w' !! tid = Some tm ->
      timers w !! tid = Some tm
      \/ ((nextId w <= tid)%nat
          /\ (kindOf (callback tm) = k \/ kindOf (callback tm) = KPipe));
  t_keep : forall tid tm,
      timers w !! tid = Some tm -> kindOf (callback tm) <> k ->
      kindOf (callback tm) <> KPipe -> timers w' !! tid = Some tm;
  t_probes : k <> KFallback -> sameProbes w w';
  t_timerRef : k <> KTick -> timerRef w' = timerRef w;
  t_slot2 : k <> KFallback ->
            probeEffect (effects w') = probeEffect (effects w);
  t_slot3 : k <> KCommit ->
            commitEffect (effects w') = commitEffect (effects w);
  t_slot4 : k <> KTick -> tickEffect (effects w') = tickEffect (effects w);
  t_slot5 : k <> KPlay -> videoEffect (effects w') = videoEffect (effects w)
}.

(** ** Between a callback and the render it causes *)

(** What a run of the probe (resp. commit) effect needs from the
    callback that caused it: a freshly staged incoming was staged just
    now, a ready incoming became ready just now. *)
Definition JustStaged (w : World) : Prop :=
  forall inc, st_incoming (state w) = Some inc ->
    ready inc = false /\ exists c r, cycles w = c :: r /\ staged c = now w.

Definition JustReady (w : World) : Prop :=
  forall inc, st_incoming (state w) = Some inc -> ready inc = true ->
    exists c r, cycles w = c :: r /\ readyAt c = [now w].

(** Where an effect stands during a render: not yet cleaned up, cleaned
    up and waiting for its body, or up to date. *)
Inductive Status := Dirty | Clean | Done.

Section RenderStates.

Variable vr : EngineVariant.

Definition St2 (s : Status) (w : World) : Prop :=
  match s with
  | Dirty => True
  | Clean => NoTimers KFallback w /\ AllCancelled w
  | Done => ProbeSettled vr w
  end.

Definition St3 (s : Status) (w : World) : Prop :=
  match s with
  | Dirty => True
  | Clean => NoTimers KCommit w
  | Done => CommitSettled vr w
  end.

Definition St4 (s : Status) (w : World) : Prop :=
  match s with
  | Dirty => True
  | Clean => NoTimers KTick w
  | Done => TickSettled w
  end.

Definition St5 (s : Status) (w : World) : Prop :=
  match s with
  | Dirty => True
  | Clean => NoTimers KPlay w
  | Done => VideoSettled vr w
  end.

Definition Mid (s2 s3 s4 s5 : Status) (w : World) : Prop :=
  Base w /\ St2 s2 w /\ St3 s3 w /\ St4 s4 w /\ St5 s5 w.

Definition dirtyIf (r : bool) : Status := if r then Dirty else Done.

Definition cleanIf (r : bool) : Status := if r then Clean else Done.

Definition staleProbe (w : World) : bool :=
  stale decEqb (probeEffect (effects w)) (probeDeps w).

Definition staleCommit (w : World) : bool :=
  stale decEqb (commitEffect (effects w)) (commitDeps vr (viewOf w) w).

Definition staleTick (w : World) : bool :=
  stale tickDeps_eqb (tickEffect (effects w)) (tickDeps (viewOf w) w).

Definition staleVideo (w : World) : bool :=
  stale decEqb (videoEffect (effects w)) (videoDeps vr (viewOf w) w).

(** What holds after a callback and before the render it causes. *)
Record Pre (w : World) : Prop := mkPre {
  pre_base : Base w;
  pre_history : History vr w;
  pre_media : Media w;
  pre_probe : if staleProbe w then JustStaged w else ProbeSettled vr w;
  pre_commit : if staleCommit w then JustReady w else CommitSettled vr w;
  pre_tick : staleTick w = false -> TickSettled w;
  pre_video : staleVideo w = false -> VideoSettled vr w
}.

End RenderStates.

(** The probe effect is up to date as far as probes go; nothing is said
    about the fallback timer. *)
Definition ProbeLive (w : World) : Prop :=
  exists cl,
    probeEffect (effects w) = Some (probeDeps w, cl) /\
    match st_incoming (state w) with
    | None => cl = None
    | Some inc =>
        exists pid pr, cl = Some pid /\ probes w !! pid = Some pr
                       /\ cancelled pr = false
    end.

(** ** What an event does to the outside *)

(** The staging history: when which incoming was staged. *)
Definition stagings (w : World) : list (Z * IncomingState) :=
  map (fun c => (staged c, stagedAs c)) (cycles w).

(** [new] is what the component did to the outside between [w] and
    [w'], latest first. *)
Definition emitted (w w' : World) (new : list Output) : Prop :=
  outputs w' = new ++ outputs w.

(** Between [w] and [w'] there was no [play()] on the shown video. *)
Definition Quiet (w w' : World) : Prop :=
  exists new, emitted w w' new /\ OVideo ActiveVideo Play ∉ new.

(** Between [w] and [w'] there was a [pause()] on the shown video. *)
Definition Paused (w w' : World) : Prop :=
  exists new, emitted w w' new /\ OVideo ActiveVideo Pause ∈ new.

(** Between [w] and [w'] nothing was staged, no effect ran and the shown
    video was not told to play. *)
Definition Calm (w w' : World) : Prop :=
  stagings w' = stagings w /\ effects w' = effects w /\ Quiet w w'.

(** ** Deadlines and failures *)

(** The time by which the incoming of cycle [c] is marked ready at the
    latest: the due time of the fallback timer of its probe. *)
Definition deadline (vr : EngineVariant) (c : Cycle) : Z :=
  staged c + timeoutMs vr (type (item (stagedAs c))).

(** The events by which a load or decode failure reaches probe [pid],
    by the stage the probe is in: [img.onerror], and an exception inside
    the [try] of the video pipeline. *)
Inductive failureSignal (pid : nat) : ProbeStage -> Event -> Prop :=
| fail_image : failureSignal pid ImgWait (EvImgError pid)
| fail_wait_ready : failureSignal pid VidWaitReady (EvProbeThrow pid)
| fail_wait_play : failureSignal pid VidWaitPlay (EvProbeThrow pid)
| fail_wait_frame t : failureSignal pid (VidWaitFrame t) (EvProbeThrow pid).

#[global] Instance admissibleRun_dec vr tr w :
  Decision (admissibleRun vr tr w).
Proof.
  revert w. induction tr as [|[t e] tr IH]; intros w; simpl; apply _.
Defined.

(** ** Sample inputs *)

(** Two images and a video, shuffled with seed 7. *)
Definition sampleItems : list MediaItem :=
  [mkMediaItem image "a.png" None; mkMediaItem image "b.png" None;
   mkMediaItem video "c.mp4" (Some true)].


(** A video followed by an image, and a run of the [Defensive] version on
    them: the video ends at 7000ms, the image is staged, loads, and is
    marked ready at 7030ms after two animation frames. *)
Definition demoItems : list MediaItem :=
  [mkMediaItem video "c.mp4" (Some true); mkMediaItem image "a.png" None].

Definition demoProps : Props :=
  mkProps demoItems 1 false true true 0 crossfade.

Definition demoIncoming (r : bool) : IncomingState :=
  mkIncoming 1 (mkMediaItem image "a.png" None) "image:a.png" r.

Definition demoStaged : World :=
  run Defensive [(0, EvTimer 1%nat); (7000, EvVideoEnded)]
    (mount Defensive demoProps 0).

Definition demoLoading : World :=
  run Defensive
    [(7000, EvTimer 4%nat); (7010, EvImgLoad 2%nat);
     (7020, EvAnimationFrame 2%nat)]
    demoStaged.

Definition demoReady : World :=
  step Defensive 7030 (EvAnimationFrame 2%nat) demoLoading.

(** An [App] whose [Slideshow] is in the middle of that transition. *)
Definition demoApp : App :=
  mkApp (mkAppState demoItems true 1 crossfade false 1) 1 demoStaged.

(** ** Prefetch ([prefetchMedia] and the prefetch effect of [Slideshow]) *)

(** What [prefetchMedia(item)] starts: an [Image] with the item's source,
    or a [HEAD] request for it. *)
Inductive PrefetchAction :=
| PrefetchImage (src : string)
| PrefetchHead (src : string).

Definition prefetchMedia (it : MediaItem) : PrefetchAction :=
  match type it with
  | image => PrefetchImage (src it)
  | video => PrefetchHead (src it)
  end.

(** The effect on [[shownIdx, safeLen, order, items]]:
    [items[order[nextI]]] without the [?? 0] that [scheduleNext] has; a
    hole in the order gives [items[undefined]], which is [undefined], and
    nothing is fetched. *)
Definition prefetchEffect (p : Props) (v : View) : option PrefetchAction :=
  if safeLen v =? 0 then None
  else
    match js_get (order v) (nextIndex (shownIdx v) (safeLen v)) with
    | Some k => prefetchMedia <$> itemAt (items p) k
    | None => None
    end.

(** ** The two layers [Slideshow] renders *)

(** A [motion.div] layer: its [key], its [initial] and [animate] targets,
    the opacity its [style] sets if any, and for a video the [muted]
    attribute of its element. *)
Record Layer := mkLayer {
  l_key : string;
  l_initial : TargetAndTransition;
  l_animate : TargetAndTransition;
  l_opacity : option Q;
  l_video : option bool
}.

(** [muted={item.muted ?? true}] on a video, nothing on an image. *)
Definition videoAttr (it : MediaItem) : option bool :=
  match type it with
  | image => None
  | video => Some (default true (muted it))
  end.

(** The JSX of [Slideshow]: [null] without a shown item, else the shown
    layer and, when an incoming exists, the incoming layer. *)
Definition renderLayers (p : Props) (st : EngineState)
  : option (Layer * option Layer) :=
  let v := render p (st_idx st) in
  match shownItem v with
  | None => None
  | Some it =>
      let tr :=
        getMotionTriplet (transitionMode p) (bool_decide (type it = image))
          (kenBurns p) in
      let shown :=
        mkLayer (shownKey v) (animate tr)
          (if isReady (st_incoming st) then exit tr else animate tr)
          None (videoAttr it) in
      let inc :=
        match st_incoming st with
        | None => None
        | Some i =>
            let tri :=
              getMotionTriplet (transitionMode p)
                (bool_decide (type (item i) = image)) (kenBurns p) in
            Some (mkLayer (key i) (initial tri)
                    (if ready i then animate tri else initial tri)
                    (Some (if ready i then 1%Q else 0%Q))
                    (videoAttr (item i)))
        end in
      Some (shown, inc)
  end.

(** ** The tick effect's guard *)

(** Whether the body of the tick effect arms the timer, read off the
    dependencies it ran with: playing, an image shown, more than one
    position, no incoming. *)
Definition tickGuard (d : TickDeps) : bool :=
  let '(pl, img, _, len, _, k) := d in
  pl && img && negb ((len =? 0) || (len <=? 1)) && bool_decide (k = None).

(** [w'] shows the same position as [w], under the same properties. *)
Definition SamePlace (w w' : World) : Prop :=
  st_idx (state w') = st_idx (state w) /\ props w' = props w.

(** Incoming [inc] sits at a position of the order of [p] and holds the
    item the order selects there ([items[order[idx] ?? 0]]). *)
Definition placed (p : Props) (inc : IncomingState) : Prop :=
  0 <= idx inc < js_length (orderOf p)
  /\ itemAt (items p) (default 0 (js_get (orderOf p) (idx inc)))
     = Some (item inc).

(** A component with nothing to show and nothing under way. *)
Definition Idle (w : World) : Prop :=
  items (props w) = [] /\ state w = initialState /\ timers w = ∅
  /\ probes w = ∅ /\ cycles w = [].

(** The handlers of [App] that call [bumpEngine]. *)
Definition remounts (e : AppEvent) : bool :=
  match e with
  | AppMediaLoaded _ | AppSetInterval _ => true
  | _ => false
  end.

(** * Properties *)

(** ** Motion profile table *)

Lemma flip_settled_carries_perspective :
  transformPerspective (animate (getMotionTriplet flip true true))
  = Some 1200%Q.
Proof. reflexivity. Qed.

(** C5, counterexample: in flip mode the settled and exit states of the
    code carry a perspective of 1200, which the table of the specification
    does not list for them, so the code does not return exactly the
    table's parameters. *)
Lemma getMotionTriplet_differs_from_specTable :
  getMotionTriplet flip true true <> specTable flip true true.
Proof. discriminate. Qed.

(** C5, amended: for every mode, media kind and kenBurns flag,
    [getMotionTriplet] returns the parameters of the table once the flip
    row lists the perspective of 1200 in all three states, and the
    kenBurns flag enters the result only through
    [kenBurns && isImage && mode = crossfade]. *)
Theorem getMotionTriplet_table (mode : TransitionMode) (isImage kenBurns : bool) :
  getMotionTriplet mode isImage kenBurns
  = specTableFlipPerspective mode isImage kenBurns
  /\ getMotionTriplet mode isImage kenBurns
     = getMotionTriplet mode isImage
         (kenBurns && isImage && bool_decide (mode = crossfade)).
Proof.
  split; destruct mode, isImage, kenBurns; reflexivity.
Qed.

(** ** Stage requests *)

Lemma scheduleNext_pending (c : Closure) (nextI : Z) :
  c_incoming c <> None -> scheduleNext c nextI = None.
Proof.
  intros H. unfold scheduleNext.
  destruct (safeLen (c_view c) =? 0); [reflexivity|].
  destruct (c_incoming c); [reflexivity | contradiction].
Qed.

Lemma goNext_pending (c : Closure) :
  c_incoming c <> None -> goNext c = None.
Proof.
  intros H. unfold goNext.
  destruct (safeLen (c_view c) =? 0); [reflexivity|].
  by apply scheduleNext_pending.
Qed.

Lemma handleVideoEnded_pending (c : Closure) :
  c_incoming c <> None -> handleVideoEnded c = None.
Proof.
  intros H. unfold handleVideoEnded.
  destruct (negb (playing (c_props c))); [reflexivity|].
  destruct (c_incoming c); [reflexivity | contradiction].
Qed.

(** ** Readiness flag *)

Lemma markReadyUpdate_ready (p : option IncomingState) :
  isReady p = true -> markReadyUpdate p = p.
Proof.
  destruct p as [i|]; simpl; [|done]. by intros ->.
Qed.

Lemma markReadyUpdate_idem (p : option IncomingState) :
  markReadyUpdate (markReadyUpdate p) = markReadyUpdate p.
Proof.
  destruct p as [i|]; simpl; [|done].
  destruct (ready i) eqn:E; simpl; [by rewrite E | done].
Qed.

Lemma markReady_state_eta (st : EngineState) :
  mkEngineState (st_idx st) (st_incoming st) = st.
Proof. by destruct st. Qed.

(** ** JavaScript arrays *)

Lemma js_get_set (a : JsArray) (k0 : Z) (x : option Z) (k : Z) :
  js_get (js_set a k0 x) k = if decide (k = k0) then x else js_get a k.
Proof.
  unfold js_get, js_set, js_length.
  destruct (decide (0 <= k0)) as [H0|H0].
  - destruct (decide (k0 < Z.of_nat (length (elems a)))) as [Hl|Hl]; simpl.
    + destruct (decide (0 <= k)) as [Hk|Hk].
      * destruct (decide (k = k0)) as [->|Hne].
        -- rewrite list_lookup_insert_eq by lia. done.
        -- rewrite list_lookup_insert_ne by lia. done.
      * destruct (decide (k = k0)); [lia | done].
    + destruct (decide (0 <= k)) as [Hk|Hk].
      * destruct (decide (k = k0)) as [->|Hne].
        -- rewrite lookup_app_r by lia.
           rewrite lookup_app_r by (rewrite length_replicate; lia).
           rewrite length_replicate.
           replace (Z.to_nat k0 - length (elems a)
                    - (Z.to_nat k0 - length (elems a)))%nat with 0%nat by lia.
           done.
        -- destruct (decide (Z.to_nat k < length (elems a))%nat) as [Hin|Hout].
           ++ by rewrite lookup_app_l by lia.
           ++ rewrite lookup_app_r by lia.
              rewrite (lookup_ge_None_2 (elems a)) by lia.
              destruct (decide (Z.to_nat k - length (elems a)
                                < Z.to_nat k0 - length (elems a))%nat).
              ** rewrite lookup_app_l by (rewrite length_replicate; lia).
                 rewrite lookup_replicate_2 by lia. done.
              ** rewrite lookup_app_r by (rewrite length_replicate; lia).
                 rewrite length_replicate.
                 rewrite lookup_ge_None_2; [done|]. simpl. lia.
      * destruct (decide (k = k0)); [lia | done].
  - simpl. destruct (decide (0 <= k)) as [Hk|Hk].
    + destruct (decide (k = k0)); [lia | done].
    + destruct (decide (k = k0)) as [->|Hne].
      * by rewrite lookup_insert_eq.
      * by rewrite lookup_insert_ne.
Qed.

Lemma js_length_set_in (a : JsArray) (k : Z) (x : option Z) :
  k < js_length a -> js_length (js_set a k x) = js_length a.
Proof.
  intros Hk. unfold js_set.
  destruct (decide (0 <= k)); [|done].
  destruct (decide (k < js_length a)); [|lia].
  unfold js_length. simpl. by rewrite length_insert.
Qed.

Lemma js_length_set_ge (a : JsArray) (k : Z) (x : option Z) :
  js_length a <= js_length (js_set a k x).
Proof.
  unfold js_set.
  destruct (decide (0 <= k)); [|done].
  destruct (decide (k < js_length a)).
  - unfold js_length. simpl. by rewrite length_insert.
  - unfold js_length. simpl. rewrite length_app. lia.
Qed.

Lemma js_length_swap_ge (a : JsArray) (i j : Z) :
  js_length a <= js_length (js_swap a i j).
Proof.
  unfold js_swap.
  etrans; [apply (js_length_set_ge a i (js_get a j))|apply js_length_set_ge].
Qed.

Lemma js_get_swap_values (a : JsArray) (i j k : Z) (v : Z) :
  js_get (js_swap a i j) k = Some v ->
  exists k', js_get a k' = Some v.
Proof.
  unfold js_swap. rewrite !js_get_set.
  destruct (decide (k = j)); [by eauto|].
  destruct (decide (k = i)); by eauto.
Qed.

(** ** Playback order *)

Lemma lcg_bound (s : Z) : -233280 < lcg s < 233280.
Proof.
  unfold lcg.
  pose proof (Z.rem_bound_abs (s * 9301 + 49297) 233280 ltac:(lia)). lia.
Qed.

Lemma lcg_nonneg (s : Z) : 0 <= s -> 0 <= lcg s < 233280.
Proof.
  intros Hs. unfold lcg. apply Z.rem_bound_pos; lia.
Qed.

Lemma js_get_identityOrder (n : nat) (k v : Z) :
  js_get (identityOrder n) k = Some v -> 0 <= v < Z.of_nat n.
Proof.
  unfold js_get, identityOrder. simpl.
  destruct (decide (0 <= k)); [|by rewrite lookup_empty].
  rewrite list_lookup_fmap.
  destruct (seq 0 n !! Z.to_nat k) as [m|] eqn:E; simpl; [|done].
  intros [= <-]. apply lookup_seq in E. lia.
Qed.

Lemma js_length_identityOrder (n : nat) :
  js_length (identityOrder n) = Z.of_nat n.
Proof. unfold js_length, identityOrder. simpl. by rewrite length_map, length_seq. Qed.

Section ShuffleFacts.

Variable pick : Z -> Z -> Z.

(** Whatever index is drawn, the loop only moves values around: every
    number found in the result was in the array before. *)
Lemma shuffleLoop_values (i : nat) (s : Z) (arr : JsArray) (k v : Z) :
  js_get (shuffleLoop pick i s arr) k = Some v ->
  exists k', js_get arr k' = Some v.
Proof.
  revert s arr k. induction i as [|i IH]; intros s arr k; simpl.
  - eauto.
  - intros H. apply IH in H as [k' H].
    by apply js_get_swap_values in H.
Qed.

Lemma shuffleLoop_length_ge (i : nat) (s : Z) (arr : JsArray) :
  js_length arr <= js_length (shuffleLoop pick i s arr).
Proof.
  revert s arr. induction i as [|i IH]; intros s arr; simpl; [lia|].
  etrans; [apply js_length_swap_ge|apply IH].
Qed.

Lemma computeOrder_values (n : nat) (sh : bool) (seed k v : Z) :
  js_get (computeOrder pick n sh seed) k = Some v -> 0 <= v < Z.of_nat n.
Proof.
  unfold computeOrder. destruct sh; simpl.
  - intros H. apply shuffleLoop_values in H as [k' H].
    by apply js_get_identityOrder in H.
  - apply js_get_identityOrder.
Qed.

Lemma computeOrder_length_ge (n : nat) (sh : bool) (seed : Z) :
  Z.of_nat n <= js_length (computeOrder pick n sh seed).
Proof.
  unfold computeOrder. destruct sh; simpl.
  - etrans; [|apply shuffleLoop_length_ge].
    by rewrite js_length_identityOrder.
  - by rewrite js_length_identityOrder.
Qed.

Lemma computeOrder_empty (sh : bool) (seed : Z) :
  computeOrder pick 0 sh seed = identityOrder 0.
Proof. unfold computeOrder. by destruct sh. Qed.

(** With shuffle disabled the order is the identity. *)
Lemma computeOrder_identity (n : nat) (seed : Z) :
  computeOrder pick n false seed = identityOrder n.
Proof. reflexivity. Qed.

End ShuffleFacts.

Lemma insert_cons_perm {A} (l : list A) (j : nat) (y a : A) :
  l !! j = Some y -> y :: <[j := a]> l ≡ₚ a :: l.
Proof.
  revert j. induction l as [|b l IH]; intros [|j]; simpl; try done.
  - intros [= ->]. apply Permutation_swap.
  - intros H. rewrite (Permutation_swap b y). rewrite (IH _ H).
    apply Permutation_swap.
Qed.

Lemma list_swap_perm {A} (l : list A) (i j : nat) (x y : A) :
  l !! i = Some x -> l !! j = Some y -> <[j := x]> (<[i := y]> l) ≡ₚ l.
Proof.
  revert i j. induction l as [|b l IH]; intros [|i] [|j]; simpl; try done.
  - by intros [= ->] [= ->].
  - intros [= ->] H. by apply insert_cons_perm.
  - intros H [= ->]. by apply insert_cons_perm.
  - intros Hi Hj. f_equiv. by apply IH.
Qed.

Lemma js_swap_in_range (a : JsArray) (i j : Z) :
  0 <= i < js_length a -> 0 <= j < js_length a ->
  elems (js_swap a i j) ≡ₚ elems a /\ negProps (js_swap a i j) = negProps a
  /\ js_length (js_swap a i j) = js_length a.
Proof.
  intros Hi Hj. unfold js_swap, js_set, js_get, js_length in *.
  destruct (decide (0 <= i)); [|lia]. destruct (decide (0 <= j)); [|lia].
  destruct (decide (i < Z.of_nat (length (elems a)))); [|lia]. simpl.
  rewrite length_insert.
  destruct (decide (j < Z.of_nat (length (elems a)))); [|lia]. simpl.
  rewrite !length_insert. split; [|done].
  destruct (lookup_lt_is_Some_2 (elems a) (Z.to_nat i)) as [oi Ei]; [lia|].
  destruct (lookup_lt_is_Some_2 (elems a) (Z.to_nat j)) as [oj Ej]; [lia|].
  rewrite Ei, Ej. simpl. by apply list_swap_perm.
Qed.

Section ShufflePermutation.

Variable pick : Z -> Z -> Z.

(** The draw stays inside [0 .. n-1], as [floor(r * n)] does for
    [0 <= r < 1]. *)
Hypothesis pick_range :
  forall s n, 0 <= s < 233280 -> 0 < n -> 0 <= pick s n < n.

Lemma shuffleLoop_perm (i : nat) (s : Z) (arr : JsArray) :
  0 <= s -> Z.of_nat i < js_length arr ->
  elems (shuffleLoop pick i s arr) ≡ₚ elems arr
  /\ negProps (shuffleLoop pick i s arr) = negProps arr.
Proof.
  revert s arr. induction i as [|i IH]; intros s arr Hs Hi; simpl; [done|].
  pose proof (lcg_nonneg s Hs) as Hl.
  pose proof (pick_range (lcg s) (Z.of_nat (S i) + 1) Hl ltac:(lia)) as Hp.
  destruct (js_swap_in_range arr (Z.of_nat (S i))
              (pick (lcg s) (Z.of_nat (S i) + 1)))
    as (Hperm & Hneg & Hlen); [lia | lia |].
  destruct (IH (lcg s) (js_swap arr (Z.of_nat (S i))
                          (pick (lcg s) (Z.of_nat (S i) + 1))))
    as [Hperm' Hneg']; [lia | lia |].
  split; [by rewrite Hperm' | by rewrite Hneg'].
Qed.

(** For seeds that are not negative the order is a permutation of the
    indices, of the length of the media list. *)
Lemma computeOrder_permutation (n : nat) (sh : bool) (seed : Z) :
  0 <= seed -> isPermutationOrder (computeOrder pick n sh seed) n.
Proof.
  intros Hseed. unfold computeOrder.
  destruct sh; simpl; [|by exists (seq 0 n)].
  destruct n as [|n]; [by exists []|].
  destruct (shuffleLoop_perm (S n - 1)
              (if seed =? 0 then 1 else seed) (identityOrder (S n)))
    as [Hperm _].
  - destruct (seed =? 0); lia.
  - rewrite js_length_identityOrder. lia.
  - apply Permutation_map_inv in Hperm as (l & Hl & Hp).
    exists l. split; [by symmetry | done].
Qed.

Lemma computeOrder_length (n : nat) (sh : bool) (seed : Z) :
  0 <= seed -> js_length (computeOrder pick n sh seed) = Z.of_nat n.
Proof.
  intros Hseed.
  destruct (computeOrder_permutation n sh seed Hseed) as (l & Hp & Hl).
  unfold js_length. rewrite Hl, length_map.
  apply Permutation_length in Hp. rewrite Hp, length_seq. done.
Qed.

End ShufflePermutation.

(** The exact draw stays in range, so the lemmas above are not vacuous. *)
Lemma floorScaleExact_range (s n : Z) :
  0 <= s < 233280 -> 0 < n -> 0 <= floorScaleExact s n < n.
Proof.
  intros Hs Hn. unfold floorScaleExact. split.
  - apply Z.div_pos; nia.
  - apply Z.div_lt_upper_bound; nia.
Qed.

(** The double draw and the exact one differ at some inputs. *)
Lemma floorScale_rounds_down :
  floorScale 67392 45 = 12 /\ floorScaleExact 67392 45 = 13.
Proof. split; vm_compute; reflexivity. Qed.

(** C10: with shuffle enabled, seed 0 is replaced by 1 before the loop
    runs.  For every media list and every seed [s] the order is the result
    of the shuffle loop, run over the identity order from the seed [s]
    itself, except that it is run from 1 when [s] is 0.  So seed 0 gives
    the order the loop produces from 1, which is the order of seed 1,
    although the seeds differ.  For five items that order is
    [[0, 3, 4, 2, 1]], which is not the list order; seed 2 gives another
    one, [[3, 2, 0, 4, 1]]. *)
Theorem order_seed_zero_is_seed_one (its : list MediaItem) (iv : Q)
  (kb pl : bool) (mode : TransitionMode) :
  let n := length its in
  (forall s : Z,
     orderOf (mkProps its iv true kb pl s mode)
     = shuffleLoop floorScale (n - 1) (if s =? 0 then 1 else s)
         (identityOrder n))
  /\ orderOf (mkProps its iv true kb pl 0 mode)
     = shuffleLoop floorScale (n - 1) 1 (identityOrder n)
  /\ orderOf (mkProps its iv true kb pl 0 mode)
     = orderOf (mkProps its iv true kb pl 1 mode)
  /\ (0 : Z) <> 1
  /\ (forall a b c d e : MediaItem,
        elems (orderOf (mkProps [a; b; c; d; e] iv true kb pl 0 mode))
        = [Some 0; Some 3; Some 4; Some 2; Some 1]
        /\ elems (orderOf (mkProps [a; b; c; d; e] iv true kb pl 1 mode))
           = [Some 0; Some 3; Some 4; Some 2; Some 1]
        /\ elems (orderOf (mkProps [a; b; c; d; e] iv true kb pl 2 mode))
           = [Some 3; Some 2; Some 0; Some 4; Some 1]).
Proof.
  intros n. split_and!.
  - intros s. reflexivity.
  - reflexivity.
  - reflexivity.
  - discriminate.
  - intros a b c d e. split_and!; vm_compute; reflexivity.
Qed.

Lemma order_seed_zero_is_seed_one_witness :
  elems (orderOf
           (mkProps (sampleItems ++ demoItems) 1 true true true 0 crossfade))
  = [Some 0; Some 3; Some 4; Some 2; Some 1]
  /\ orderOf
       (mkProps (sampleItems ++ demoItems) 1 true true true 0 crossfade)
     = orderOf
         (mkProps (sampleItems ++ demoItems) 1 true true true 1 crossfade).
Proof.
  destruct (order_seed_zero_is_seed_one (sampleItems ++ demoItems) 1 true
              true crossfade) as (_ & _ & H & _ & Hc).
  split; [|exact H].
  destruct (Hc (mkMediaItem image "a.png" None)
              (mkMediaItem image "b.png" None)
              (mkMediaItem video "c.mp4" (Some true))
              (mkMediaItem video "c.mp4" (Some true))
              (mkMediaItem image "a.png" None)) as (H0 & _).
  exact H0.
Defined.

(** C6, at a negative seed: for a list of three items, shuffle enabled and
    seed -6 the computed order is [[0, 2, undefined]] (the value 1 went to
    the property [-1]), which is not a permutation of 0..2. *)
Theorem order_negative_seed_not_permutation (a b c : MediaItem) (iv : Q)
  (kb pl : bool) (mode : TransitionMode) :
  let p := mkProps [a; b; c] iv true kb pl (-6) mode in
  elems (orderOf p) = [Some 0; Some 2; None]
  /\ negProps (orderOf p) !! (-1) = Some (Some 1)
  /\ ~ isPermutationOrder (orderOf p) (length (items p)).
Proof.
  assert (E : elems (computeOrder floorScale 3 true (-6))
              = [Some 0; Some 2; None]) by (vm_compute; reflexivity).
  simpl. unfold orderOf. simpl. split; [exact E|]. split.
  - vm_compute. reflexivity.
  - intros (l & _ & Hl). rewrite E in Hl.
    destruct l as [|? [|? [|? ?]]]; simpl in Hl; discriminate.
Qed.

(** The memo cell of the order: a render whose media list, shuffle flag
    and seed are those of the last computation returns the cell as it is,
    without running the body; a change of the other properties leaves the
    three dependencies alone. *)
Lemma useMemoOrder_keeps (m : OrderMemo) (p : Props) :
  memoDeps m = orderDeps p -> useMemoOrder (Some m) p = m.
Proof. intros H. unfold useMemoOrder. by rewrite decide_True. Qed.

Lemma useMemoOrder_recomputes (m : OrderMemo) (p : Props) :
  memoDeps m <> orderDeps p ->
  useMemoOrder (Some m) p
  = mkOrderMemo (orderDeps p) (orderOf p) (S (memoRuns m)).
Proof. intros H. unfold useMemoOrder. by rewrite decide_False. Qed.

Lemma orderDeps_settings (p : Props) (iv : Q) (kb pl : bool)
  (mode : TransitionMode) :
  orderDeps (mkProps (items p) iv (shuffle p) kb pl (shuffleSeed p) mode)
  = orderDeps p.
Proof. reflexivity. Qed.

(** ** Rendering *)

Lemma orderOf_nonempty (p : Props) :
  js_length (orderOf p) <> 0 -> (0 < length (items p))%nat.
Proof.
  unfold orderOf. destruct (length (items p)) eqn:E; [|lia].
  rewrite computeOrder_empty. unfold js_length. simpl. lia.
Qed.

(** Whatever the order holds at a position, the item it selects exists as
    soon as the order is not empty. *)
Lemma itemAt_order (p : Props) (k : Z) :
  js_length (orderOf p) <> 0 ->
  exists it, itemAt (items p) (default 0 (js_get (orderOf p) k)) = Some it.
Proof.
  intros Hlen. pose proof (orderOf_nonempty p Hlen) as Hn.
  unfold itemAt.
  destruct (js_get (orderOf p) k) as [v|] eqn:E; simpl.
  - apply computeOrder_values in E.
    destruct (decide (0 <= v)); [|lia].
    apply lookup_lt_is_Some_2. lia.
  - apply lookup_lt_is_Some_2. simpl. lia.
Qed.

Lemma safeLen_render (p : Props) (i : Z) :
  safeLen (render p i) = js_length (orderOf p).
Proof. reflexivity. Qed.

Lemma shownItem_render (p : Props) (i : Z) :
  safeLen (render p i) <> 0 -> exists it, shownItem (render p i) = Some it.
Proof.
  rewrite safeLen_render. intros Hlen. unfold render. simpl.
  destruct (js_length (orderOf p) =? 0) eqn:E; [lia|].
  by apply itemAt_order.
Qed.

Lemma wrapIndex_mod (a n : Z) : 0 < n -> wrapIndex a n = a mod n.
Proof.
  intros Hn. unfold wrapIndex.
  pose proof (Z.rem_bound_abs a n ltac:(lia)).
  assert (0 <= Z.rem a n + n) by lia.
  rewrite (Z.rem_mod_nonneg (Z.rem a n + n) n) by lia.
  rewrite <- (Z.mod_unique_pos (Z.rem a n + n) n
                (if Z.rem a n <? 0 then 0 else 1)
                (a mod n)).
  - done.
  - apply Z.mod_pos_bound. lia.
  - pose proof (Z.rem_mod_eq_0 a n ltac:(lia)).
    pose proof (Z.mod_pos_bound a n Hn).
    destruct (Z.rem a n <? 0) eqn:E.
    + apply Z.ltb_lt in E.
      assert (a < 0).
      { destruct (Z.lt_ge_cases a 0); [done|].
        pose proof (Z.rem_nonneg a n ltac:(lia) ltac:(lia)). lia. }
      pose proof (Z.rem_opp_l' a n).
      pose proof (Z.rem_mod_nonneg (-a) n ltac:(lia) ltac:(lia)).
      destruct (Z.eq_dec (a mod n) 0) as [E0|E0].
      * apply Z.mod_divide in E0; [|lia]. destruct E0 as [q ->].
        rewrite Z.rem_mul in E by lia. lia.
      * pose proof (Z.mod_opp_l_nz a n ltac:(lia) E0). lia.
    + apply Z.ltb_ge in E.
      destruct (Z.lt_ge_cases a 0).
      * pose proof (Z.rem_nonpos a n ltac:(lia) ltac:(lia)).
        assert (Z.rem a n = 0) as E0 by lia.
        rewrite E0. apply Z.rem_divide in E0; [|lia].
        destruct E0 as [q ->]. rewrite Z.mod_mul by lia. lia.
      * rewrite Z.rem_mod_nonneg by lia. lia.
Qed.

(** ** Advance selection *)

Lemma goNext_idle (p : Props) (i : Z) :
  1 <= js_length (orderOf p) ->
  exists it,
    itemAt (items p)
      (default 0 (js_get (orderOf p) ((i + 1) mod js_length (orderOf p))))
    = Some it
    /\ goNext (mkClosure p i None)
       = Some (mkIncoming ((i + 1) mod js_length (orderOf p)) it (keyOf it)
                 false).
Proof.
  intros HL. set (L := js_length (orderOf p)) in *.
  destruct (itemAt_order p ((i + 1) mod L)) as [it Hit]; [fold L; lia|].
  exists it. split; [done|].
  unfold goNext, scheduleNext, c_view. simpl. fold L.
  destruct (L =? 0) eqn:E0; [lia|].
  unfold nextIndex. destruct (L <=? 0) eqn:E1; [lia|].
  rewrite (wrapIndex_mod i L) by lia.
  pose proof (Z.mod_pos_bound i L ltac:(lia)).
  rewrite (Z.rem_mod_nonneg (i mod L + 1) L) by lia.
  rewrite wrapIndex_mod by lia.
  rewrite Z.mod_mod by lia.
  rewrite Z.add_mod_idemp_l by lia.
  fold L in Hit. by rewrite Hit.
Qed.



(** ** Ownership of timers is preserved *)

Ltac inv_unfold :=
  unfold timerOk, probeOk, typed, currentProbe, commitHandle, tickRegistered,
    videoHandle, slotCleanup, sameMedia in *.

Lemma extends_refl w : extends w w.
Proof. split; [done | by left]. Qed.

Lemma extends_same w w' :
  nextId w' = nextId w -> timers w' = timers w -> extends w w'.
Proof. intros Hn Ht. split; [lia|]. rewrite Ht. by left. Qed.

Lemma extends_trans w1 w2 w3 : extends w1 w2 -> extends w2 w3 -> extends w1 w3.
Proof.
  intros [H1 H2] [H3 H4]. split; [lia|]. intros tid tm H.
  destruct (H4 _ _ H) as [H'|H']; [|right; lia].
  destruct (H2 _ _ H') as [H''|H'']; [by left | right; lia].
Qed.

Lemma extends_clearTimeout h w : extends w (clearTimeout h w).
Proof.
  split; [done|]. simpl. intros tid tm H.
  apply lookup_delete_Some in H as [_ H]. by left.
Qed.

Lemma extends_setTimeout cb d w : extends w (setTimeout cb d w).2.
Proof.
  split; [simpl; lia|]. simpl. intros tid tm H.
  apply lookup_insert_Some in H as [[<- _]|[_ H]]; [by right | by left].
Qed.

Lemma typed_frame k h w w' : typed k h w -> extends w w' -> typed k h w'.
Proof.
  intros [Hlt Hk] [Hn He]. split; [lia|]. intros tm Htm.
  destruct (He _ _ Htm) as [H|H]; [eauto | lia].
Qed.

Lemma timerOk_frame w w' tid tm :
  timerOk w tid tm ->
  (nextId w <= nextId w')%nat -> now w' = now w ->
  match kindOf (callback tm) with
  | KFallback =>
      forall pid pr, probes w !! pid = Some pr -> cancelled pr = false ->
                     exists pr', probes w' !! pid = Some pr'
                                 /\ fallback pr' = fallback pr
                                 /\ cancelled pr' = false
  | KCommit => commitHandle w' = commitHandle w
  | KTick => timerRef w' = timerRef w /\ tickRegistered w' = tickRegistered w
             /\ sameMedia (props w) (props w')
  | KPlay => videoHandle w' = videoHandle w
  | KPipe => True
  end ->
  timerOk w' tid tm.
Proof.
  intros (H1 & H2 & H3) Hn Hnow Hk. unfold timerOk. rewrite Hnow.
  split; [lia|]. split; [done|].
  destruct (callback tm); simpl in Hk; try done.
  - destruct H3 as (pr & Hpr & Hf & Hc).
    destruct (Hk _ _ Hpr Hc) as (pr' & ? & ? & ?). exists pr'.
    split_and!; congruence.
  - congruence.
  - destruct Hk as (-> & -> & Hm). destruct H3 as (? & ? & ? & Hm').
    split_and!; try done. unfold sameMedia in *.
    destruct Hm as (?&?&?), Hm' as (?&?&?). split_and!; congruence.
  - congruence.
Qed.

Lemma probeOk_frame w w' pid pr :
  probeOk w pid pr -> extends w w' -> currentProbe w' = currentProbe w ->
  probeOk w' pid pr.
Proof.
  intros (H1 & H2 & H3 & H4 & H5 & H6) He Hc.
  pose proof He as [Hn He'].
  split_and!; try done; try lia.
  - intros tm Htm. destruct (He' _ _ Htm) as [H|H]; [eauto | lia].
  - intros t Ht. eapply typed_frame; eauto.
  - rewrite Hc. done.
Qed.

Ltac frame_kinds :=
  match goal with
  | |- match kindOf ?cb with _ => _ end =>
      destruct (kindOf cb); simpl;
      first [ done
            | by (intros pid pr ? ?; exists pr)
            | by split_and! ]
  end.

Lemma Base_clearTimeout h w : Base w -> Base (clearTimeout h w).
Proof.
  intros [Ht Hp Hc Hr Hv].
  pose proof (extends_clearTimeout h w) as He.
  constructor.
  - simpl. apply map_Forall_delete.
    eapply map_Forall_impl; [exact Ht|]. intros tid tm H.
    eapply timerOk_frame; [exact H | done | done | frame_kinds].
  - simpl. eapply map_Forall_impl; [exact Hp|]. intros.
    eapply probeOk_frame; eauto.
  - intros h0 H. eapply typed_frame; eauto.
  - intros h0 H. eapply typed_frame; eauto.
  - intros h0 H. eapply typed_frame; eauto.
Qed.

Lemma Base_timerCleanup cl w : Base w -> Base (timerCleanup cl w).
Proof. destruct cl; simpl; [apply Base_clearTimeout | done]. Qed.

(** Changes that no ownership fact looks at. *)
Lemma Base_ext w w' :
  now w' = now w -> props w' = props w -> nextId w' = nextId w ->
  timers w' = timers w -> probes w' = probes w ->
  timerRef w' = timerRef w -> effects w' = effects w ->
  Base w -> Base w'.
Proof.
  destruct w, w'. simpl. intros -> -> -> -> -> -> ->.
  intros [Ht Hp Hc Hr Hv]. constructor; done.
Qed.

Lemma Base_fresh w : Base w -> timers w !! nextId w = None.
Proof.
  intros [Ht _ _ _ _]. destruct (timers w !! nextId w) eqn:E; [|done].
  apply Ht in E as [E _]. lia.
Qed.

(** A timer of a kind that has no owner obligations can be added
    anywhere. *)
Lemma Base_setTimeout_pipe cb d w :
  kindOf cb = KPipe -> 0 <= d -> Base w -> Base (setTimeout cb d w).2.
Proof.
  intros Hk Hd HB. pose proof (extends_setTimeout cb d w) as He.
  destruct HB as [Ht Hp Hc Hr Hv]. constructor.
  - simpl. apply map_Forall_insert_2.
    + unfold timerOk. simpl. split; [lia|]. split; [lia|].
      destruct cb; done.
    + eapply map_Forall_impl; [exact Ht|]. intros tid tm H.
      eapply timerOk_frame; [exact H | simpl; lia | done | frame_kinds].
  - simpl. eapply map_Forall_impl; [exact Hp|]. intros.
    eapply probeOk_frame; eauto.
  - intros h0 H. eapply typed_frame; eauto.
  - intros h0 H. eapply typed_frame; eauto.
  - intros h0 H. eapply typed_frame; eauto.
Qed.

Lemma NoTimers_clearTimeout k h w :
  NoTimers k w -> NoTimers k (clearTimeout h w).
Proof.
  intros H tid tm Htm. simpl in Htm.
  apply lookup_delete_Some in Htm as [_ Htm]. eauto.
Qed.

Lemma NoTimers_timerCleanup k cl w :
  NoTimers k w -> NoTimers k (timerCleanup cl w).
Proof. destruct cl; simpl; [apply NoTimers_clearTimeout | done]. Qed.

(** *** Cleanups *)

Lemma commitCleanup_clean w :
  Base w -> NoTimers KCommit (timerCleanup (commitHandle w) w).
Proof.
  intros [Ht _ _ _ _] tid tm Htm Hk.
  assert (timers w !! tid = Some tm) as Hold.
  { destruct (commitHandle w); simpl in Htm; [|done].
    by apply lookup_delete_Some in Htm as [_ Htm]. }
  apply Ht in Hold as (_ & _ & Hown).
  destruct (callback tm); try done.
  rewrite Hown in Htm. simpl in Htm. by rewrite lookup_delete_eq in Htm.
Qed.

Lemma videoCleanup_clean w :
  Base w -> NoTimers KPlay (timerCleanup (videoHandle w) w).
Proof.
  intros [Ht _ _ _ _] tid tm Htm Hk.
  assert (timers w !! tid = Some tm) as Hold.
  { destruct (videoHandle w); simpl in Htm; [|done].
    by apply lookup_delete_Some in Htm as [_ Htm]. }
  apply Ht in Hold as (_ & _ & Hown).
  destruct (callback tm); try done.
  rewrite Hown in Htm. simpl in Htm. by rewrite lookup_delete_eq in Htm.
Qed.

Lemma tickCleanup_clean w :
  Base w -> NoTimers KTick (tickCleanup (tickRegistered w) w).
Proof.
  intros [Ht _ _ _ _] tid tm Htm Hk.
  assert (timers w !! tid = Some tm) as Hold.
  { unfold tickCleanup in Htm. destruct (tickRegistered w); [|done].
    destruct (timerRef w); simpl in Htm; [|done].
    by apply lookup_delete_Some in Htm as [_ Htm]. }
  apply Ht in Hold as (_ & _ & Hown).
  destruct (callback tm); try done.
  destruct Hown as (Href & Hreg & _).
  unfold tickCleanup in Htm. rewrite Hreg, Href in Htm. simpl in Htm.
  by rewrite lookup_delete_eq in Htm.
Qed.

Lemma Base_tickCleanup w :
  Base w -> Base (tickCleanup (tickRegistered w) w).
Proof.
  intros HB. pose proof (tickCleanup_clean w HB) as Hclean.
  unfold tickCleanup in *. destruct (tickRegistered w) eqn:Ereg; [|done].
  assert (Base (timerCleanup (timerRef w) w)) as HB'
    by by apply Base_timerCleanup.
  set (w1 := timerCleanup (timerRef w) w) in *.
  destruct HB' as [Ht Hp Hc Hr Hv]. constructor; simpl.
  - intros tid tm Htm. pose proof (Hclean tid tm Htm) as Hk.
    specialize (Ht tid tm Htm).
    eapply timerOk_frame; [exact Ht | done | done |].
    destruct (callback tm); simpl in *; try done.
    intros p0 pr ? ?. by exists pr.
  - eapply map_Forall_impl; [exact Hp|]. intros pid pr H.
    eapply probeOk_frame; [exact H | by apply extends_same | done].
  - intros h H. eapply typed_frame; [by apply Hc | by apply extends_same].
  - done.
  - intros h H. eapply typed_frame; [by apply Hv | by apply extends_same].
Qed.

Lemma probeCleanup_clean w :
  Base w ->
  let w' := probeCleanup (currentProbe w) w in
  NoTimers KFallback w' /\ AllCancelled w'.
Proof.
  intros [Ht Hp _ _ _]. simpl.
  assert (forall pid pr, probes w !! pid = Some pr -> cancelled pr = false ->
                         currentProbe w = Some pid) as Hcur.
  { intros pid pr H. apply Hp in H. apply H. }
  assert (forall tid tm, timers w !! tid = Some tm ->
            kindOf (callback tm) = KFallback ->
            exists pid pr, currentProbe w = Some pid
                           /\ probes w !! pid = Some pr
                           /\ fallback pr = tid) as Hfb.
  { intros tid tm H Hk. apply Ht in H as (_ & _ & Hown).
    destruct (callback tm) as [p| | | | |]; try done.
    destruct Hown as (pr & Hpr & Hf & Hc). exists p, pr.
    split_and!; eauto. }
  unfold probeCleanup.
  destruct (currentProbe w) as [pid|] eqn:Ecur.
  2:{ split.
      - intros tid tm H Hk. destruct (Hfb _ _ H Hk) as (? & ? & Hc0 & _).
        done.
      - intros pid pr H. destruct (cancelled pr) eqn:E; [done|].
        by apply Hcur in H. }
  destruct (probes w !! pid) as [pr|] eqn:Epr.
  2:{ split.
      - intros tid tm H Hk.
        destruct (Hfb _ _ H Hk) as (p0 & pr0 & Hc0 & Hp0 & _).
        injection Hc0 as <-. congruence.
      - intros pid' pr' H. destruct (cancelled pr') eqn:E; [done|].
        pose proof (Hcur _ _ H E). congruence. }
  split.
  - intros tid tm H Hk. simpl in H.
    apply lookup_delete_Some in H as [Hne H].
    destruct (Hfb _ _ H Hk) as (p0 & pr0 & Hc0 & Hp0 & Hf0).
    injection Hc0 as <-. congruence.
  - intros pid' pr' H. simpl in H.
    apply lookup_insert_Some in H as [[<- <-]|[Hne H]]; [done|].
    destruct (cancelled pr') eqn:E; [done|].
    pose proof (Hcur _ _ H E). congruence.
Qed.

Lemma Base_probeCleanup w :
  Base w -> Base (probeCleanup (currentProbe w) w).
Proof.
  intros HB. pose proof (probeCleanup_clean w HB) as [Hclean _].
  simpl in Hclean. unfold probeCleanup in *.
  destruct (currentProbe w) as [pid|] eqn:Ecur; [|done].
  destruct (probes w !! pid) as [pr|] eqn:Epr; [|done].
  set (w' := clearTimeout _ _) in *.
  assert (extends w w') as He.
  { split; [done|]. simpl. intros tid tm H.
    apply lookup_delete_Some in H as [_ H]. by left. }
  destruct HB as [Ht Hp Hc Hr Hv]. constructor.
  - intros tid tm Htm. pose proof (Hclean _ _ Htm) as Hk.
    assert (timers w !! tid = Some tm) as Hold.
    { simpl in Htm. by apply lookup_delete_Some in Htm as [_ Htm]. }
    eapply timerOk_frame; [exact (Ht _ _ Hold) | done | done |].
    destruct (callback tm); simpl in *; try done.
  - intros pid' pr' H. simpl in H.
    apply lookup_insert_Some in H as [[<- <-]|[Hne H]].
    + pose proof (Hp _ _ Epr) as (H1 & H2 & H3 & H4 & H5 & H6).
      split_and!; simpl; try done.
      * intros tm Htm. apply lookup_delete_Some in Htm as [_ Htm]. eauto.
      * intros t Hst. eapply typed_frame; eauto.
    + eapply probeOk_frame; [exact (Hp _ _ H) | done | done].
  - intros h H. eapply typed_frame; [by apply Hc | done].
  - intros h H. eapply typed_frame; [by apply Hr | done].
  - intros h H. eapply typed_frame; [by apply Hv | done].
Qed.

(** ** Frames *)

Lemma sameProbes_refl w w' : probes w' = probes w -> sameProbes w w'.
Proof.
  intros E pid. rewrite E. destruct (probes w !! pid); by constructor.
Qed.

Lemma sameProbes_lookup w w' pid pr :
  sameProbes w w' -> probes w !! pid = Some pr ->
  exists pr', probes w' !! pid = Some pr' /\ fallback pr' = fallback pr
              /\ cancelled pr' = cancelled pr.
Proof.
  intros H E. specialize (H pid). rewrite E in H. inversion H; subst. eauto.
Qed.

Lemma sameProbes_lookup_inv w w' pid pr' :
  sameProbes w w' -> probes w' !! pid = Some pr' ->
  exists pr, probes w !! pid = Some pr /\ fallback pr' = fallback pr
             /\ cancelled pr' = cancelled pr.
Proof.
  intros H E. specialize (H pid). rewrite E in H. inversion H; subst. eauto.
Qed.

Lemma Touches_extends k w w' : Touches k w w' -> extends w w'.
Proof.
  intros H. split; [apply H|]. intros tid tm Htm.
  destruct (t_new _ _ _ H _ _ Htm) as [?|[? _]]; [by left | by right].
Qed.

Lemma core_now w w' : core w' = core w -> now w' = now w.
Proof. unfold core. by intros [= -> _ _ _ _]. Qed.
Lemma core_props w w' : core w' = core w -> props w' = props w.
Proof. unfold core. by intros [= _ -> _ _ _]. Qed.
Lemma core_state w w' : core w' = core w -> state w' = state w.
Proof. unfold core. by intros [= _ _ -> _ _]. Qed.
Lemma core_cycles w w' : core w' = core w -> cycles w' = cycles w.
Proof. unfold core. by intros [= _ _ _ -> _]. Qed.
Lemma core_strays w w' : core w' = core w -> strays w' = strays w.
Proof. unfold core. by intros [= _ _ _ _ ->]. Qed.
Lemma core_view w w' : core w' = core w -> viewOf w' = viewOf w.
Proof.
  intros H. unfold viewOf. by rewrite (core_props _ _ H), (core_state _ _ H).
Qed.

Section Frames.
Variable vr : EngineVariant.

Lemma History_frame w w' : core w' = core w -> History vr w -> History vr w'.
Proof.
  intros H. unfold History.
  by rewrite (core_strays _ _ H), (core_state _ _ H), (core_cycles _ _ H),
    (core_now _ _ H).
Qed.

Lemma Media_frame w w' : core w' = core w -> Media w -> Media w'.
Proof.
  intros H. unfold Media. by rewrite (core_state _ _ H), (core_view _ _ H).
Qed.

Lemma ProbeSettled_frame k w w' :
  Touches k w w' -> k <> KFallback ->
  ProbeSettled vr w -> ProbeSettled vr w'.
Proof.
  intros HT Hk (cl & Hslot & Hinc). exists cl.
  pose proof (t_core _ _ _ HT) as Hc.
  unfold probeDeps. rewrite (t_slot2 _ _ _ HT Hk), (core_state _ _ Hc).
  split; [done|].
  destruct (st_incoming (state w)) as [inc|]; [|done].
  destruct Hinc as (pid & pr & -> & Hpr & Hcanc & Hfb).
  destruct (sameProbes_lookup _ _ _ _ (t_probes _ _ _ HT Hk) Hpr)
    as (pr' & Hpr' & Hf' & Hc').
  exists pid, pr'. split_and!; [done | done | congruence |].
  intros Hr. destruct (Hfb Hr) as (c & r & Hcyc & Htm).
  exists c, r. rewrite (core_cycles _ _ Hc). split; [done|].
  rewrite Hf'. eapply (t_keep _ _ _ HT); [exact Htm | done | done].
Qed.

Lemma CommitSettled_frame k w w' :
  Touches k w w' -> k <> KCommit ->
  CommitSettled vr w -> CommitSettled vr w'.
Proof.
  intros HT Hk (cl & Hslot & Hinc). exists cl.
  pose proof (t_core _ _ _ HT) as Hc.
  unfold commitDeps.
  rewrite (t_slot3 _ _ _ HT Hk), (core_state _ _ Hc), (core_view _ _ Hc).
  split; [done|].
  destruct (st_incoming (state w)) as [inc|]; [|done].
  destruct (ready inc); [|done].
  destruct Hinc as (h & t1 & c & r & -> & Hcyc & Hr & Htm).
  exists h, t1, c, r. rewrite (core_cycles _ _ Hc).
  split_and!; try done.
  eapply (t_keep _ _ _ HT); [exact Htm | done | done].
Qed.

Lemma TickSettled_frame k w w' :
  Touches k w w' -> k <> KTick -> TickSettled w -> TickSettled w'.
Proof.
  intros HT Hk (d & reg & Hslot & Hd & Hinc). exists d, reg.
  pose proof (t_core _ _ _ HT) as Hc.
  unfold tickDeps in *.
  rewrite (t_slot4 _ _ _ HT Hk), (core_state _ _ Hc), (core_view _ _ Hc),
    (core_props _ _ Hc).
  done.
Qed.

Lemma VideoSettled_frame k w w' :
  Touches k w w' -> k <> KPlay -> VideoSettled vr w -> VideoSettled vr w'.
Proof.
  intros HT Hk (cl & Hslot & Hinc). exists cl.
  pose proof (t_core _ _ _ HT) as Hc.
  unfold videoDeps in *.
  rewrite (t_slot5 _ _ _ HT Hk), (core_state _ _ Hc), (core_view _ _ Hc),
    (core_props _ _ Hc).
  done.
Qed.

Lemma NoTimers_frame k j w w' :
  Touches k w w' -> j <> k -> j <> KPipe -> NoTimers j w -> NoTimers j w'.
Proof.
  intros HT Hjk Hj H tid tm Htm.
  destruct (t_new _ _ _ HT _ _ Htm) as [Hold|[_ [Hk|Hk]]];
    [by eapply H | congruence | congruence].
Qed.

Lemma AllCancelled_frame k w w' :
  Touches k w w' -> k <> KFallback -> AllCancelled w -> AllCancelled w'.
Proof.
  intros HT Hk H pid pr' Hpr'.
  destruct (sameProbes_lookup_inv _ _ _ _ (t_probes _ _ _ HT Hk) Hpr')
    as (pr & Hpr & _ & Hc).
  rewrite Hc. by eapply H.
Qed.

End Frames.

Lemma Base_touch k w w' :
  Base w -> Touches k w w' ->
  (forall tid tm, timers w' !! tid = Some tm -> kindOf (callback tm) = k ->
                  timerOk w' tid tm) ->
  (forall tid tm, timers w' !! tid = Some tm -> (nextId w <= tid)%nat ->
                  (tid < nextId w')%nat /\ now w' <= due tm) ->
  (k <> KFallback -> probes w' = probes w) ->
  (k = KFallback -> map_Forall (probeOk w') (probes w')) ->
  (k = KCommit -> forall h, commitHandle w' = Some h -> typed KCommit h w') ->
  (k = KTick -> forall h, timerRef w' = Some h -> typed KTick h w') ->
  (k = KPlay -> forall h, videoHandle w' = Some h -> typed KPlay h w') ->
  Base w'.
Proof.
  intros [Ht Hp Hc Hr Hv] HT Hown Hnew Hpr Hpo Hco Hto Hvo.
  pose proof (Touches_extends _ _ _ HT) as He.
  pose proof (t_core _ _ _ HT) as Hcore.
  pose proof (core_now _ _ Hcore) as Hnow.
  pose proof (core_props _ _ Hcore) as Hprops.
  constructor.
  - intros tid tm Htm.
    destruct (decide (kindOf (callback tm) = k)) as [Hk|Hk]; [by apply Hown|].
    destruct (t_new _ _ _ HT _ _ Htm) as [Hold|[Hfresh [Hk'|Hk']]];
      [| done |].
    + eapply timerOk_frame; [exact (Ht _ _ Hold) | apply HT | done |].
      destruct (callback tm) eqn:Ecb; simpl in *; try done.
      * intros p pr Hp' Hcanc.
        assert (k <> KFallback) as Hkf by congruence.
        destruct (sameProbes_lookup _ _ _ _ (t_probes _ _ _ HT Hkf) Hp')
          as (pr' & ? & ? & ?).
        exists pr'. split_and!; congruence.
      * unfold commitHandle. rewrite (t_slot3 _ _ _ HT); [done | congruence].
      * unfold tickRegistered.
        rewrite (t_slot4 _ _ _ HT), (t_timerRef _ _ _ HT) by congruence.
        rewrite Hprops. split_and!; done.
      * unfold videoHandle. rewrite (t_slot5 _ _ _ HT); [done | congruence].
    + destruct (Hnew _ _ Htm Hfresh) as [H1 H2].
      unfold timerOk. split_and!; [done | done |].
      destruct (callback tm); simpl in *; done.
  - destruct (decide (k = KFallback)) as [Hk|Hk]; [by apply Hpo|].
    rewrite (Hpr Hk). intros pid pr H.
    eapply probeOk_frame; [exact (Hp _ _ H) | done |].
    unfold currentProbe. by rewrite (t_slot2 _ _ _ HT Hk).
  - destruct (decide (k = KCommit)) as [Hk|Hk]; [by apply Hco|].
    intros h H. eapply typed_frame; [|done]. apply Hc.
    unfold commitHandle in *. by rewrite <- (t_slot3 _ _ _ HT Hk).
  - destruct (decide (k = KTick)) as [Hk|Hk]; [by apply Hto|].
    intros h H. eapply typed_frame; [|done]. apply Hr.
    by rewrite <- (t_timerRef _ _ _ HT Hk).
  - destruct (decide (k = KPlay)) as [Hk|Hk]; [by apply Hvo|].
    intros h H. eapply typed_frame; [|done]. apply Hv.
    unfold videoHandle in *. by rewrite <- (t_slot5 _ _ _ HT Hk).
Qed.

(** ** The stages of a render *)

Lemma Base_lt w tid tm : Base w -> timers w !! tid = Some tm -> (tid < nextId w)%nat.
Proof. intros [Ht _ _ _ _] H. by apply Ht in H as [? _]. Qed.

Lemma Touches_clearTimeout k h w :
  typed k h w -> Touches k w (clearTimeout h w).
Proof.
  intros [_ Hk]. constructor; simpl; try done.
  - intros tid tm H. apply lookup_delete_Some in H as [_ H]. by left.
  - intros tid tm H Hne _. apply lookup_delete_Some. split; [|done].
    intros <-. apply Hk in H. done.
  - intros _. by apply sameProbes_refl.
Qed.

Lemma Touches_refl k w : Touches k w w.
Proof.
  constructor; try done.
  - intros. by left.
  - intros _. by apply sameProbes_refl.
Qed.

Lemma Touches_same k w w' :
  core w' = core w -> nextId w' = nextId w -> timers w' = timers w ->
  probes w' = probes w -> timerRef w' = timerRef w ->
  effects w' = effects w -> Touches k w w'.
Proof.
  intros Hc Hn Ht Hp Hr He. constructor; rewrite ?Hn, ?Ht, ?Hr, ?He; try done.
  - intros. by left.
  - intros _. by apply sameProbes_refl.
Qed.

Lemma Touches_timerCleanup k cl w :
  (forall h, cl = Some h -> typed k h w) -> Touches k w (timerCleanup cl w).
Proof.
  destruct cl as [h|]; simpl; intros H.
  - apply Touches_clearTimeout. by apply H.
  - apply Touches_refl.
Qed.

Lemma Touches_commitCleanup w :
  Base w -> Touches KCommit w (timerCleanup (commitHandle w) w).
Proof. intros HB. apply Touches_timerCleanup. apply HB. Qed.

Lemma Touches_videoCleanup w :
  Base w -> Touches KPlay w (timerCleanup (videoHandle w) w).
Proof. intros HB. apply Touches_timerCleanup. apply HB. Qed.

Lemma Touches_tickCleanup w :
  Base w -> Touches KTick w (tickCleanup (tickRegistered w) w).
Proof.
  intros HB. unfold tickCleanup. destruct (tickRegistered w);
    [|apply Touches_refl].
  pose proof (Touches_timerCleanup KTick (timerRef w) w
                (base_timerRef _ HB)) as HT.
  destruct HT. constructor; simpl; try done.
Qed.

Lemma Touches_probeCleanup w :
  Base w -> Touches KFallback w (probeCleanup (currentProbe w) w).
Proof.
  intros HB. unfold probeCleanup.
  destruct (currentProbe w) as [pid|]; [|apply Touches_refl].
  destruct (probes w !! pid) as [pr|] eqn:Epr; [|apply Touches_refl].
  pose proof (base_probes _ HB _ _ Epr) as (_ & _ & Hty & _).
  constructor; simpl; try done.
  - intros tid tm H. apply lookup_delete_Some in H as [_ H]. by left.
  - intros tid tm H Hne _. apply lookup_delete_Some. split; [|done].
    intros <-. apply Hty in H. by rewrite H in Hne.
Qed.

Ltac touches_new :=
  let H := fresh "H" in
  intros ? ? H;
  repeat (apply lookup_insert_Some in H as [[<- <-]|[_ H]];
          [right; simpl; split; [lia | first [by left | by right]]|]);
  by left.

Ltac touches_keep HB :=
  let H := fresh "H" in
  intros ? ? H _ _;
  pose proof (Base_lt _ _ _ HB H);
  rewrite ?lookup_insert_ne by lia; done.

Ltac touches_solve HB :=
  constructor; simpl; try done;
  repeat match goal with
    | |- forall tid tm, _ !! tid = Some tm -> _ \/ _ => touches_new
    | |- forall tid tm, _ !! tid = Some tm -> _ -> _ -> _ !! tid = Some tm =>
        touches_keep HB
    | |- _ -> sameProbes _ _ => intros _; by apply sameProbes_refl
    | |- (_ <= _)%nat => lia
    end.

Section RunStages.
Variable vr : EngineVariant.

Lemma commitRun_ok w :
  let v := viewOf w in
  let w' := commitRun vr v (commitDeps vr v w) w in
  Base w -> NoTimers KCommit w -> JustReady w ->
  Touches KCommit w w' /\ Base w' /\ CommitSettled vr w'.
Proof.
  intros v w' HB Hclean Hjust.
  assert (HT : Touches KCommit w w').
  { subst w'. unfold commitRun, commitBody.
    destruct (st_incoming (state w)) as [inc|]; [destruct (ready inc)|];
      [destruct vr; [destruct (shownIsVideo v)|]|..];
      touches_solve HB. }
  split; [done|].
  assert (core w' = core w) as Hcore by apply HT.
  assert (CommitSettled vr w') as HS.
  { unfold CommitSettled.
    rewrite (core_state _ _ Hcore), (core_cycles _ _ Hcore).
    assert (commitDeps vr (viewOf w') w' = commitDeps vr v w) as ->.
    { unfold commitDeps.
      by rewrite (core_view _ _ Hcore), (core_state _ _ Hcore). }
    subst w'. unfold commitRun, commitBody. unfold JustReady in Hjust.
    destruct (st_incoming (state w)) as [inc|];
      [destruct (ready inc) eqn:Er|].
    - destruct (Hjust inc eq_refl Er) as (c & r & Hc & Hr).
      exists (Some (nextId w)). 
      destruct vr; [destruct (shownIsVideo v)|]; simpl;
        (split; [done|]; exists (nextId w), (now w), c, r;
         split_and!; [done | done | done | by rewrite lookup_insert_eq]).
    - by exists None.
    - by exists None. }
  split; [|done].
  eapply (Base_touch KCommit); try done.
  - intros tid tm Htm Hk.
    destruct (t_new _ _ _ HT _ _ Htm) as [Hold|[Hfresh _]];
      [by destruct (Hclean _ _ Hold)|].
    subst w'. revert Htm Hfresh. unfold commitRun, commitBody, timerOk.
    destruct (st_incoming (state w)) as [inc|]; [destruct (ready inc)|];
      [destruct vr; [destruct (shownIsVideo v)|]|..]; simpl;
      intros Htm Hfresh;
      try (pose proof (Base_lt _ _ _ HB Htm); lia);
      (apply lookup_insert_Some in Htm as [[<- <-]|[_ Htm]];
       [|pose proof (Base_lt _ _ _ HB Htm); lia]);
      simpl; unfold holdMs; split_and!; (done || lia).
  - intros tid tm Htm Hfresh.
    subst w'. revert Htm. unfold commitRun, commitBody.
    destruct (st_incoming (state w)) as [inc|]; [destruct (ready inc)|];
      [destruct vr; [destruct (shownIsVideo v)|]|..]; simpl;
      intros Htm;
      try (pose proof (Base_lt _ _ _ HB Htm); lia);
      (apply lookup_insert_Some in Htm as [[<- <-]|[_ Htm]];
       [|pose proof (Base_lt _ _ _ HB Htm); lia]);
      simpl; unfold holdMs; split_and!; (done || lia).
  - intros _. subst w'. unfold commitRun, commitBody.
    destruct (st_incoming (state w)) as [inc|]; [destruct (ready inc)|];
      [destruct vr; [destruct (shownIsVideo v)|]|..]; done.
  - intros _ h Hh. subst w'. revert Hh.
    unfold commitRun, commitBody, commitHandle, typed.
    destruct (st_incoming (state w)) as [inc|]; [destruct (ready inc)|];
      [destruct vr; [destruct (shownIsVideo v)|]|..]; simpl;
      intros [= <-];
      (split; [lia|]; intros tm; rewrite lookup_insert_eq;
       by intros [= <-]).
Qed.

Lemma videoRun_ok w :
  let v := viewOf w in
  let w' := videoRun vr v (videoDeps vr v w) w in
  Base w -> NoTimers KPlay w ->
  Touches KPlay w w' /\ Base w' /\ VideoSettled vr w'.
Proof.
  intros v w' HB Hclean.
  assert (HT : Touches KPlay w w').
  { subst w'. unfold videoRun, videoBody.
    destruct (negb (shownIsVideo v)); [touches_solve HB|].
    destruct vr;
      [destruct (negb (playing (props w))
                 || isReady (st_incoming (state w)))
      |destruct (negb (playing (props w)))];
      touches_solve HB. }
  split; [done|].
  assert (core w' = core w) as Hcore by apply HT.
  assert (VideoSettled vr w') as HS.
  { unfold VideoSettled. rewrite (core_state _ _ Hcore).
    assert (videoDeps vr (viewOf w') w' = videoDeps vr v w) as ->.
    { unfold videoDeps.
      by rewrite (core_view _ _ Hcore), (core_state _ _ Hcore),
        (core_props _ _ Hcore). }
    subst w'. unfold videoRun, videoBody.
    destruct (negb (shownIsVideo v)); [by exists None|].
    destruct vr.
    - destruct (negb (playing (props w))
                || isReady (st_incoming (state w))) eqn:E.
      + by exists None.
      + exists (Some (nextId w)). split; [done|].
        intros _ Hr. apply orb_false_iff in E as [_ E]. congruence.
    - destruct (negb (playing (props w))); by exists None. }
  split; [|done].
  eapply (Base_touch KPlay); try done.
  - intros tid tm Htm Hk.
    destruct (t_new _ _ _ HT _ _ Htm) as [Hold|[Hfresh _]];
      [by destruct (Hclean _ _ Hold)|].
    subst w'. revert Htm Hfresh. unfold videoRun, videoBody, timerOk.
    destruct (negb (shownIsVideo v));
      [|destruct vr;
        [destruct (negb (playing (props w))
                   || isReady (st_incoming (state w)))
        |destruct (negb (playing (props w)))]]; simpl;
      intros Htm Hfresh;
      try (pose proof (Base_lt _ _ _ HB Htm); lia);
      (apply lookup_insert_Some in Htm as [[<- <-]|[_ Htm]];
       [|pose proof (Base_lt _ _ _ HB Htm); lia]);
      simpl; split_and!; (done || lia).
  - intros tid tm Htm Hfresh.
    subst w'. revert Htm. unfold videoRun, videoBody.
    destruct (negb (shownIsVideo v));
      [|destruct vr;
        [destruct (negb (playing (props w))
                   || isReady (st_incoming (state w)))
        |destruct (negb (playing (props w)))]]; simpl;
      intros Htm;
      try (pose proof (Base_lt _ _ _ HB Htm); lia);
      (apply lookup_insert_Some in Htm as [[<- <-]|[_ Htm]];
       [|pose proof (Base_lt _ _ _ HB Htm); lia]);
      simpl; split_and!; (done || lia).
  - intros _. subst w'. unfold videoRun, videoBody.
    destruct (negb (shownIsVideo v));
      [|destruct vr;
        [destruct (negb (playing (props w))
                   || isReady (st_incoming (state w)))
        |destruct (negb (playing (props w)))]]; done.
  - intros _ h Hh. subst w'. revert Hh.
    unfold videoRun, videoBody, videoHandle, typed.
    destruct (negb (shownIsVideo v));
      [|destruct vr;
        [destruct (negb (playing (props w))
                   || isReady (st_incoming (state w)))
        |destruct (negb (playing (props w)))]]; simpl;
      intros [= <-];
      (split; [lia|]; intros tm; rewrite lookup_insert_eq;
       by intros [= <-]).
Qed.

Lemma tickDeps_eqb_refl (d : TickDeps) : tickDeps_eqb d d = true.
Proof.
  destruct d as [[[[[p i] q] l] s] k]. unfold tickDeps_eqb.
  rewrite !bool_decide_eq_true_2 by done. simpl.
  assert (Qeq_bool q q = true) as -> by (apply Qeq_bool_iff; reflexivity).
  done.
Qed.

Ltac tick_cases w v :=
  destruct (negb (playing (props w)) || negb (shownIsImage v));
  [|destruct ((safeLen v =? 0) || (safeLen v <=? 1));
    [|destruct (st_incoming (state w)) eqn:Einc]].

Lemma tickRun_ok w :
  let v := viewOf w in
  let w' := tickRun v (tickDeps v w) w in
  Base w -> NoTimers KTick w ->
  Touches KTick w w' /\ Base w' /\ TickSettled w'.
Proof.
  intros v w' HB Hclean.
  assert (HT : Touches KTick w w').
  { subst w'. unfold tickRun, tickBody. tick_cases w v; touches_solve HB. }
  split; [done|].
  assert (core w' = core w) as Hcore by apply HT.
  assert (TickSettled w') as HS.
  { unfold TickSettled. rewrite (core_state _ _ Hcore).
    assert (tickDeps (viewOf w') w' = tickDeps v w) as ->.
    { unfold tickDeps.
      by rewrite (core_view _ _ Hcore), (core_state _ _ Hcore),
        (core_props _ _ Hcore). }
    subst w'. unfold tickRun, tickBody.
    tick_cases w v; simpl.
    - exists (tickDeps v w), false. by rewrite tickDeps_eqb_refl.
    - exists (tickDeps v w), false. by rewrite tickDeps_eqb_refl.
    - exists (tickDeps v w), false. by rewrite tickDeps_eqb_refl.
    - exists (tickDeps v w), true. by rewrite tickDeps_eqb_refl. }
  split; [|done].
  eapply (Base_touch KTick); try done.
  - intros tid tm Htm Hk.
    destruct (t_new _ _ _ HT _ _ Htm) as [Hold|[Hfresh _]];
      [by destruct (Hclean _ _ Hold)|].
    subst w'. revert Htm Hfresh. unfold tickRun, tickBody, timerOk.
    tick_cases w v; simpl; intros Htm Hfresh;
      try (pose proof (Base_lt _ _ _ HB Htm); lia).
    apply lookup_insert_Some in Htm as [[<- <-]|[_ Htm]];
      [|pose proof (Base_lt _ _ _ HB Htm); lia].
    simpl. split_and!; (done || lia).
  - intros tid tm Htm Hfresh.
    subst w'. revert Htm. unfold tickRun, tickBody.
    tick_cases w v; simpl; intros Htm;
      try (pose proof (Base_lt _ _ _ HB Htm); lia).
    apply lookup_insert_Some in Htm as [[<- <-]|[_ Htm]];
      [|pose proof (Base_lt _ _ _ HB Htm); lia].
    simpl. split_and!; (done || lia).
  - intros _. subst w'. unfold tickRun, tickBody.
    tick_cases w v; done.
  - intros _ h Hh. subst w'. revert Hh.
    unfold tickRun, tickBody, typed.
    tick_cases w v; simpl; intros Hh;
      try (destruct (base_timerRef _ HB _ Hh) as [? ?]; split; [lia|done]).
    injection Hh as <-. split; [lia|]. intros tm.
    rewrite lookup_insert_eq. by intros [= <-].
Qed.

Lemma timeoutMs_nonneg (t : MediaType) : 0 <= timeoutMs vr t.
Proof. destruct t, vr; simpl; lia. Qed.

Ltac probe_cases w v inc :=
  destruct (st_incoming (state w)) as [inc|] eqn:Einc;
  [destruct (type (item inc)) eqn:Etype;
   [|destruct (shownItem v) eqn:Eshown; [destruct vr|]]|].

Lemma probeRun_ok w :
  let v := viewOf w in
  let w' := probeRun vr v (probeDeps w) w in
  Base w -> NoTimers KFallback w -> AllCancelled w -> JustStaged w ->
  Media w ->
  Touches KFallback w w' /\ Base w' /\ ProbeSettled vr w'.
Proof.
  intros v w' HB Hclean Hcanc Hjust Hmedia.
  assert (st_incoming (state w) <> None ->
          exists it, shownItem v = Some it) as Hel.
  { intros H. apply shownItem_render. by apply Hmedia. }
  assert (HT : Touches KFallback w w').
  { subst w'. unfold probeRun, probeBody.
    probe_cases w v inc; touches_solve HB. }
  split; [done|].
  assert (core w' = core w) as Hcore by apply HT.
  pose proof (timeoutMs_nonneg) as Hto.
  assert (ProbeSettled vr w') as HS.
  { unfold ProbeSettled.
    rewrite (core_state _ _ Hcore), (core_cycles _ _ Hcore).
    assert (probeDeps w' = probeDeps w) as ->.
    { unfold probeDeps. by rewrite (core_state _ _ Hcore). }
    subst w'. unfold probeRun, probeBody. unfold JustStaged in Hjust.
    probe_cases w v inc; simpl.
    - destruct (Hjust inc eq_refl) as (Hr & c & r & Hc & Hst).
      exists (Some (nextId w)). split; [done|].
      eexists (nextId w), _. rewrite lookup_insert_eq.
      split_and!; [done | done | done |]. intros _. exists c, r.
      split; [done|]. simpl. rewrite lookup_insert_eq, Hst. done.
    - destruct (Hjust inc eq_refl) as (Hr & c & r & Hc & Hst).
      exists (Some (nextId w)). split; [done|].
      eexists (nextId w), _. rewrite lookup_insert_eq.
      split_and!; [done | done | done |]. intros _. exists c, r.
      split; [done|]. simpl.
      rewrite lookup_insert_ne by lia.
      rewrite lookup_insert_eq, Hst. done.
    - destruct (Hjust inc eq_refl) as (Hr & c & r & Hc & Hst).
      exists (Some (nextId w)). split; [done|].
      eexists (nextId w), _. rewrite lookup_insert_eq.
      split_and!; [done | done | done |]. intros _. exists c, r.
      split; [done|]. simpl. rewrite lookup_insert_eq, Hst. done.
    - destruct Hel as [it Hit]; [done|]. congruence.
    - by exists None. }
  split; [|done].
  eapply (Base_touch KFallback); try done.
  - intros tid tm Htm Hk.
    destruct (t_new _ _ _ HT _ _ Htm) as [Hold|[Hfresh _]];
      [by destruct (Hclean _ _ Hold)|].
    subst w'. revert Htm Hfresh. unfold probeRun, probeBody, timerOk.
    probe_cases w v inc; simpl; intros Htm Hfresh;
      try (pose proof (Base_lt _ _ _ HB Htm); lia);
      try (destruct Hel as [it Hit]; [done|]; congruence);
      repeat (apply lookup_insert_Some in Htm as [[<- <-]|[_ Htm]];
              [simpl in *;
               first [ done
                     | split_and!;
                       [ lia
                       | specialize (Hto (type (item inc)));
                         rewrite ?Etype in Hto; simpl in Hto; lia
                       | eexists; rewrite lookup_insert_eq; done ] ]|]);
      pose proof (Base_lt _ _ _ HB Htm); lia.
  - intros tid tm Htm Hfresh.
    subst w'. revert Htm. unfold probeRun, probeBody.
    probe_cases w v inc; simpl; intros Htm;
      try (pose proof (Base_lt _ _ _ HB Htm); lia);
      try (destruct Hel as [it Hit]; [done|]; congruence);
      repeat (apply lookup_insert_Some in Htm as [[<- <-]|[_ Htm]];
              [simpl; specialize (Hto (type (item inc)));
               rewrite ?Etype in Hto; simpl in Hto; split; lia|]);
      pose proof (Base_lt _ _ _ HB Htm); lia.
  - intros _ pid pr Hpr.
    assert (forall pr0, probes w !! pid = Some pr0 ->
                        (nextId w <= nextId w')%nat ->
                        currentProbe w' <> Some pid \/ True ->
                        extends w w' -> probeOk w' pid pr0) as Hold.
    { intros pr0 H0 Hn _ He.
      pose proof (base_probes _ HB _ _ H0) as (H1 & H2 & H3 & H4 & H5 & H6).
      split_and!; try done; try lia.
      - intros tm Htm. destruct He as [_ He].
        destruct (He _ _ Htm) as [?|?]; [eauto | lia].
      - intros t Ht. eapply typed_frame; eauto.
      - intros Hc. rewrite (Hcanc _ _ H0) in Hc. done. }
    pose proof (Touches_extends _ _ _ HT) as He.
    subst w'. revert Hpr Hold He. unfold probeRun, probeBody.
    probe_cases w v inc; simpl; intros Hpr Hold He;
      try (by (apply Hold; [done | lia | by right | done]));
      try (destruct Hel as [it Hit]; [done|]; congruence);
      (apply lookup_insert_Some in Hpr as [[<- <-]|[Hne Hpr]];
       [|by (apply Hold; [done | simpl; lia | by right | done])]);
      unfold probeOk, typed, currentProbe; simpl;
      (split_and!; try done; try lia;
       intros tm;
       rewrite ?(lookup_insert_ne _ (S (S (nextId w)))) by lia;
       rewrite lookup_insert_eq; by intros [= <-]).
Qed.

End RunStages.

(** ** A render re-establishes the invariant *)

Section Render.
Variable vr : EngineVariant.

Lemma St2_frame k s w w' :
  Touches k w w' -> k <> KFallback -> St2 vr s w -> St2 vr s w'.
Proof.
  intros HT Hk. destruct s; simpl; [done | |].
  - intros [H1 H2]. split.
    + eapply NoTimers_frame; eauto.
    + eapply AllCancelled_frame; eauto.
  - by eapply ProbeSettled_frame.
Qed.

Lemma St3_frame k s w w' :
  Touches k w w' -> k <> KCommit -> St3 vr s w -> St3 vr s w'.
Proof.
  intros HT Hk. destruct s; simpl; [done | |].
  - eapply NoTimers_frame; eauto.
  - by eapply CommitSettled_frame.
Qed.

Lemma St4_frame k s w w' :
  Touches k w w' -> k <> KTick -> St4 s w -> St4 s w'.
Proof.
  intros HT Hk. destruct s; simpl; [done | |].
  - eapply NoTimers_frame; eauto.
  - by eapply TickSettled_frame.
Qed.

Lemma St5_frame k s w w' :
  Touches k w w' -> k <> KPlay -> St5 vr s w -> St5 vr s w'.
Proof.
  intros HT Hk. destruct s; simpl; [done | |].
  - eapply NoTimers_frame; eauto.
  - by eapply VideoSettled_frame.
Qed.

Lemma when_probeCleanup r s3 s4 s5 w :
  Mid vr (dirtyIf r) s3 s4 s5 w ->
  let w' := when r (probeCleanup (currentProbe w)) w in
  Mid vr (cleanIf r) s3 s4 s5 w' /\ core w' = core w
  /\ effects w' = effects w.
Proof.
  intros (HB & H2 & H3 & H4 & H5). destruct r; simpl; [|done].
  pose proof (Touches_probeCleanup w HB) as HT.
  pose proof (probeCleanup_clean w HB) as Hc. simpl in Hc.
  split_and!.
  - split_and!.
    + by apply Base_probeCleanup.
    + done.
    + by eapply St3_frame.
    + by eapply St4_frame.
    + by eapply St5_frame.
  - apply HT.
  - unfold probeCleanup. by repeat case_match.
Qed.

Lemma when_commitCleanup r s2 s4 s5 w :
  Mid vr s2 (dirtyIf r) s4 s5 w ->
  let w' := when r (timerCleanup (commitHandle w)) w in
  Mid vr s2 (cleanIf r) s4 s5 w' /\ core w' = core w
  /\ effects w' = effects w.
Proof.
  intros (HB & H2 & H3 & H4 & H5). destruct r; simpl; [|done].
  pose proof (Touches_commitCleanup w HB) as HT.
  split_and!.
  - split_and!.
    + by apply Base_timerCleanup.
    + by eapply St2_frame.
    + by apply commitCleanup_clean.
    + by eapply St4_frame.
    + by eapply St5_frame.
  - apply HT.
  - unfold timerCleanup. by repeat case_match.
Qed.

Lemma when_tickCleanup r s2 s3 s5 w :
  Mid vr s2 s3 (dirtyIf r) s5 w ->
  let w' := when r (tickCleanup (tickRegistered w)) w in
  Mid vr s2 s3 (cleanIf r) s5 w' /\ core w' = core w
  /\ effects w' = effects w.
Proof.
  intros (HB & H2 & H3 & H4 & H5). destruct r; simpl; [|done].
  pose proof (Touches_tickCleanup w HB) as HT.
  split_and!.
  - split_and!.
    + by apply Base_tickCleanup.
    + by eapply St2_frame.
    + by eapply St3_frame.
    + by apply tickCleanup_clean.
    + by eapply St5_frame.
  - apply HT.
  - unfold tickCleanup, timerCleanup. by repeat case_match.
Qed.

Lemma when_videoCleanup r s2 s3 s4 w :
  Mid vr s2 s3 s4 (dirtyIf r) w ->
  let w' := when r (timerCleanup (videoHandle w)) w in
  Mid vr s2 s3 s4 (cleanIf r) w' /\ core w' = core w
  /\ effects w' = effects w.
Proof.
  intros (HB & H2 & H3 & H4 & H5). destruct r; simpl; [|done].
  pose proof (Touches_videoCleanup w HB) as HT.
  split_and!.
  - split_and!.
    + by apply Base_timerCleanup.
    + by eapply St2_frame.
    + by eapply St3_frame.
    + by eapply St4_frame.
    + by apply videoCleanup_clean.
  - apply HT.
  - unfold timerCleanup. by repeat case_match.
Qed.

Lemma when_probeRun r s3 s4 s5 v d w :
  v = viewOf w -> d = probeDeps w ->
  Mid vr (cleanIf r) s3 s4 s5 w ->
  (r = true -> JustStaged w) -> Media w ->
  let w' := when r (probeRun vr v d) w in
  Mid vr Done s3 s4 s5 w' /\ core w' = core w.
Proof.
  intros -> -> (HB & H2 & H3 & H4 & H5) Hj Hm. destruct r; simpl; [|done].
  destruct H2 as [Hc1 Hc2].
  destruct (probeRun_ok vr w HB Hc1 Hc2 (Hj eq_refl) Hm) as (HT & HB' & HS).
  split; [|apply HT]. split_and!; try done.
  - by eapply St3_frame.
  - by eapply St4_frame.
  - by eapply St5_frame.
Qed.

Lemma when_commitRun r s2 s4 s5 v d w :
  v = viewOf w -> d = commitDeps vr (viewOf w) w ->
  Mid vr s2 (cleanIf r) s4 s5 w ->
  (r = true -> JustReady w) ->
  let w' := when r (commitRun vr v d) w in
  Mid vr s2 Done s4 s5 w' /\ core w' = core w.
Proof.
  intros -> -> (HB & H2 & H3 & H4 & H5) Hj. destruct r; simpl; [|done].
  destruct (commitRun_ok vr w HB H3 (Hj eq_refl)) as (HT & HB' & HS).
  split; [|apply HT]. split_and!; try done.
  - by eapply St2_frame.
  - by eapply St4_frame.
  - by eapply St5_frame.
Qed.

Lemma when_tickRun r s2 s3 s5 v d w :
  v = viewOf w -> d = tickDeps (viewOf w) w ->
  Mid vr s2 s3 (cleanIf r) s5 w ->
  let w' := when r (tickRun v d) w in
  Mid vr s2 s3 Done s5 w' /\ core w' = core w.
Proof.
  intros -> -> (HB & H2 & H3 & H4 & H5). destruct r; simpl; [|done].
  destruct (tickRun_ok w HB H4) as (HT & HB' & HS).
  split; [|apply HT]. split_and!; try done.
  - by eapply St2_frame.
  - by eapply St3_frame.
  - by eapply St5_frame.
Qed.

Lemma when_videoRun r s2 s3 s4 v d w :
  v = viewOf w -> d = videoDeps vr (viewOf w) w ->
  Mid vr s2 s3 s4 (cleanIf r) w ->
  let w' := when r (videoRun vr v d) w in
  Mid vr s2 s3 s4 Done w' /\ core w' = core w.
Proof.
  intros -> -> (HB & H2 & H3 & H4 & H5). destruct r; simpl; [|done].
  destruct (videoRun_ok vr w HB H5) as (HT & HB' & HS).
  split; [|apply HT]. split_and!; try done.
  - by eapply St2_frame.
  - by eapply St3_frame.
  - by eapply St4_frame.
Qed.

Lemma deps_core w w' :
  core w' = core w ->
  viewOf w' = viewOf w /\ probeDeps w' = probeDeps w
  /\ commitDeps vr (viewOf w') w' = commitDeps vr (viewOf w) w
  /\ tickDeps (viewOf w') w' = tickDeps (viewOf w) w
  /\ videoDeps vr (viewOf w') w' = videoDeps vr (viewOf w) w.
Proof.
  intros H. unfold probeDeps, commitDeps, tickDeps, videoDeps.
  rewrite (core_view _ _ H), (core_state _ _ H), (core_props _ _ H). done.
Qed.

Lemma JustStaged_core w w' : core w' = core w -> JustStaged w -> JustStaged w'.
Proof.
  intros H. unfold JustStaged.
  by rewrite (core_state _ _ H), (core_cycles _ _ H), (core_now _ _ H).
Qed.

Lemma JustReady_core w w' : core w' = core w -> JustReady w -> JustReady w'.
Proof.
  intros H. unfold JustReady.
  by rewrite (core_state _ _ H), (core_cycles _ _ H), (core_now _ _ H).
Qed.

Theorem reconcile_Inv w : Pre vr w -> Inv vr (reconcile vr w).
Proof.
  intros [HB HH HM H2 H3 H4 H5].
  unfold reconcile.
  fold (viewOf w). fold (staleProbe w). fold (staleCommit vr w).
  fold (staleTick w). fold (staleVideo vr w).
  fold (currentProbe w). fold (commitHandle w). fold (tickRegistered w).
  fold (videoHandle w).
  set (r2 := staleProbe w) in *. set (r3 := staleCommit vr w) in *.
  set (r4 := staleTick w) in *. set (r5 := staleVideo vr w) in *.
  assert (Mid vr (dirtyIf r2) (dirtyIf r3) (dirtyIf r4) (dirtyIf r5) w) as M0.
  { split_and!; [done|..].
    - destruct r2; done.
    - destruct r3; done.
    - destruct r4; [done | by apply H4].
    - destruct r5; [done | by apply H5]. }
  assert (r2 = true -> JustStaged w) as J2.
  { intros E. by rewrite E in H2. }
  assert (r3 = true -> JustReady w) as J3.
  { intros E. by rewrite E in H3. }
  clear H2 H3 H4 H5. clearbody r2 r3 r4 r5.
  destruct (when_probeCleanup _ _ _ _ _ M0) as (M1 & C1 & E1).
  set (w1 := when r2 (probeCleanup (currentProbe w)) w) in *.
  assert (commitHandle w = commitHandle w1) as ->
    by (unfold commitHandle; by rewrite E1).
  destruct (when_commitCleanup _ _ _ _ _ M1) as (M2 & C2 & E2).
  set (w2 := when r3 (timerCleanup (commitHandle w1)) w1) in *.
  assert (tickRegistered w = tickRegistered w2) as ->
    by (unfold tickRegistered; by rewrite E2, E1).
  destruct (when_tickCleanup _ _ _ _ _ M2) as (M3 & C3 & E3).
  set (w3 := when r4 (tickCleanup (tickRegistered w2)) w2) in *.
  assert (videoHandle w = videoHandle w3) as ->
    by (unfold videoHandle; by rewrite E3, E2, E1).
  destruct (when_videoCleanup _ _ _ _ _ M3) as (M4 & C4 & E4).
  set (w4 := when r5 (timerCleanup (videoHandle w3)) w3) in *.
  assert (core w4 = core w) as K4 by congruence.
  destruct (deps_core _ _ K4) as (V4 & D42 & D43 & D44 & D45).
  destruct (when_probeRun r2 _ _ _ (viewOf w) (probeDeps w) w4
              (eq_sym V4) (eq_sym D42) M4) as (M5 & C5).
  { intros E. eapply JustStaged_core; [|by apply J2]. done. }
  { by eapply Media_frame. }
  set (w5 := when r2 (probeRun vr (viewOf w) (probeDeps w)) w4) in *.
  assert (core w5 = core w) as K5 by congruence.
  destruct (deps_core _ _ K5) as (V5 & D52 & D53 & D54 & D55).
  destruct (when_commitRun r3 _ _ _ (viewOf w)
              (commitDeps vr (viewOf w) w) w5
              (eq_sym V5) (eq_sym D53) M5) as (M6 & C6).
  { intros E. eapply JustReady_core; [|by apply J3]. done. }
  set (w6 := when r3 (commitRun vr (viewOf w) _) w5) in *.
  assert (core w6 = core w) as K6 by congruence.
  destruct (deps_core _ _ K6) as (V6 & D62 & D63 & D64 & D65).
  destruct (when_tickRun r4 _ _ _ (viewOf w) (tickDeps (viewOf w) w) w6
              (eq_sym V6) (eq_sym D64) M6) as (M7 & C7).
  set (w7 := when r4 (tickRun (viewOf w) _) w6) in *.
  assert (core w7 = core w) as K7 by congruence.
  destruct (deps_core _ _ K7) as (V7 & D72 & D73 & D74 & D75).
  destruct (when_videoRun r5 _ _ _ (viewOf w)
              (videoDeps vr (viewOf w) w) w7
              (eq_sym V7) (eq_sym D75) M7) as (M8 & C8).
  set (w8 := when r5 (videoRun vr (viewOf w) _) w7) in *.
  assert (core w8 = core w) as K8 by congruence.
  destruct M8 as (B8 & S2 & S3 & S4 & S5).
  constructor; try done.
  - by eapply History_frame.
  - by eapply Media_frame.
Qed.

End Render.

(** ** Callbacks lead to a state a render can pick up *)

Section Callbacks.
Variable vr : EngineVariant.

Lemma stale_false_settled {A B} `{EqDecision A} (slot : option (A * B)) d :
  stale decEqb slot d = false -> exists cl, slot = Some (d, cl).
Proof.
  destruct slot as [[d0 cl]|]; simpl; [|done].
  intros H. apply negb_false_iff, bool_decide_eq_true in H as ->. eauto.
Qed.

Lemma stale_settled {A B} `{EqDecision A} (d : A) (cl : B) :
  stale decEqb (Some (d, cl)) d = false.
Proof. simpl. unfold decEqb. by rewrite bool_decide_eq_true_2. Qed.

Lemma Inv_Pre w : Inv vr w -> Pre vr w.
Proof.
  intros [HB H2 H3 H4 H5 HH HM]. constructor; try done.
  - destruct H2 as (cl & Hs & ?). unfold staleProbe.
    rewrite Hs, stale_settled. by exists cl.
  - destruct H3 as (cl & Hs & ?). unfold staleCommit.
    rewrite Hs, stale_settled. by exists cl.
Qed.

Lemma Inv_set_now t w :
  Inv vr w -> now w <= t ->
  map_Forall (fun _ tm => t <= due tm) (timers w) ->
  Inv vr (set_now t w).
Proof.
  intros [HB H2 H3 H4 H5 HH HM] Hle Hdue. constructor; try done.
  - destruct HB as [Ht Hp Hc Hr Hv]. constructor; try done.
    intros tid tm Htm. destruct (Ht _ _ Htm) as (H1 & _ & H6).
    split_and!; [done | by apply (Hdue _ _ Htm) | done].
  - destruct HH as [Hs Hc]. split; [done|]. simpl.
    destruct (st_incoming (state w)) as [inc|]; [|done].
    destruct Hc as (c & r & E1 & E2 & E3 & E4 & E5 & E6 & E7).
    exists c, r. split_and!; try done; [lia|].
    destruct (ready inc); [|done].
    destruct E7 as (t1 & ? & ? & ?). exists t1. split_and!; (done || lia).
Qed.

(** Work on timers and probes that leaves the slots and the engine
    state alone keeps what the next render relies on. *)
Lemma Pre_touch k w w' :
  Pre vr w -> Touches k w w' -> effects w' = effects w -> Base w' ->
  (k = KFallback -> staleProbe w = false -> ProbeSettled vr w') ->
  (k = KCommit -> staleCommit vr w = false -> CommitSettled vr w') ->
  (k = KTick -> staleTick w = false -> TickSettled w') ->
  (k = KPlay -> staleVideo vr w = false -> VideoSettled vr w') ->
  Pre vr w'.
Proof.
  intros [HB HH HM H2 H3 H4 H5] HT He HB' O2 O3 O4 O5.
  pose proof (t_core _ _ _ HT) as Hc.
  destruct (deps_core vr _ _ Hc) as (V & D2 & D3 & D4 & D5).
  assert (staleProbe w' = staleProbe w) as S2
    by (unfold staleProbe; by rewrite He, D2).
  assert (staleCommit vr w' = staleCommit vr w) as S3
    by (unfold staleCommit; by rewrite He, D3).
  assert (staleTick w' = staleTick w) as S4
    by (unfold staleTick; by rewrite He, D4).
  assert (staleVideo vr w' = staleVideo vr w) as S5
    by (unfold staleVideo; by rewrite He, D5).
  constructor.
  - done.
  - by eapply History_frame.
  - by eapply Media_frame.
  - rewrite S2. destruct (staleProbe w) eqn:E.
    + by eapply JustStaged_core.
    + destruct (decide (k = KFallback)) as [Hk|Hk]; [by apply O2|].
      by eapply ProbeSettled_frame.
  - rewrite S3. destruct (staleCommit vr w) eqn:E.
    + by eapply JustReady_core.
    + destruct (decide (k = KCommit)) as [Hk|Hk]; [by apply O3|].
      by eapply CommitSettled_frame.
  - rewrite S4. intros E.
    destruct (decide (k = KTick)) as [Hk|Hk]; [by apply O4|].
    eapply TickSettled_frame; eauto.
  - rewrite S5. intros E.
    destruct (decide (k = KPlay)) as [Hk|Hk]; [by apply O5|].
    eapply VideoSettled_frame; eauto.
Qed.

Lemma Pre_pipe w w' :
  Pre vr w -> Touches KPipe w w' -> effects w' = effects w -> Base w' ->
  Pre vr w'.
Proof. intros. eapply (Pre_touch KPipe); eauto; done. Qed.

Lemma Inv_stale w :
  Inv vr w ->
  staleProbe w = false /\ staleCommit vr w = false
  /\ staleTick w = false /\ staleVideo vr w = false.
Proof.
  intros [HB H2 H3 H4 H5 HH HM].
  destruct H2 as (cl2 & S2 & _), H3 as (cl3 & S3 & _),
    H4 as (d4 & r4 & S4 & E4 & _), H5 as (cl5 & S5 & _).
  unfold staleProbe, staleCommit, staleTick, staleVideo.
  rewrite S2, S3, S4, S5, !stale_settled. simpl. by rewrite E4.
Qed.

Lemma Pre_Inv w :
  Pre vr w -> staleProbe w = false -> staleCommit vr w = false ->
  staleTick w = false -> staleVideo vr w = false -> Inv vr w.
Proof.
  intros [HB HH HM H2 H3 H4 H5] E2 E3 E4 E5.
  rewrite E2 in H2. rewrite E3 in H3. constructor; auto.
Qed.

Lemma Inv_touch k w w' :
  Inv vr w -> Touches k w w' -> effects w' = effects w -> Base w' ->
  (k = KFallback -> ProbeSettled vr w') ->
  (k = KCommit -> CommitSettled vr w') ->
  (k = KTick -> TickSettled w') ->
  (k = KPlay -> VideoSettled vr w') ->
  Inv vr w'.
Proof.
  intros HI HT He HB' O2 O3 O4 O5.
  destruct (Inv_stale w HI) as (E2 & E3 & E4 & E5).
  pose proof (t_core _ _ _ HT) as Hc.
  destruct (deps_core vr _ _ Hc) as (V & D2 & D3 & D4 & D5).
  apply Pre_Inv.
  - eapply (Pre_touch k); eauto using Inv_Pre.
  - unfold staleProbe. by rewrite He, D2.
  - unfold staleCommit. by rewrite He, D3.
  - unfold staleTick. by rewrite He, D4.
  - unfold staleVideo. by rewrite He, D5.
Qed.

(** *** Operations of the probes' pipelines *)

Lemma Touches_emit k o w : Touches k w (emit o w).
Proof. by apply Touches_same. Qed.

Lemma Base_emit o w : Base w -> Base (emit o w).
Proof. by apply Base_ext. Qed.

Lemma Inv_emit o w : Inv vr w -> Inv vr (emit o w).
Proof.
  intros HI. eapply (Inv_touch KPipe); eauto using Touches_emit; try done.
  apply Base_emit, HI.
Qed.

Lemma Inv_emitAll os w : Inv vr w -> Inv vr (emitAll os w).
Proof.
  revert w. induction os as [|o os IH]; intros w HI; simpl; [done|].
  apply IH. by apply Inv_emit.
Qed.

Lemma Pre_emit o w : Pre vr w -> Pre vr (emit o w).
Proof.
  intros HP. eapply (Pre_pipe w); eauto using Touches_emit.
  apply Base_emit, HP.
Qed.

Lemma Pre_emitAll os w : Pre vr w -> Pre vr (emitAll os w).
Proof.
  revert w. induction os as [|o os IH]; intros w HI; simpl; [done|].
  apply IH. by apply Pre_emit.
Qed.

Lemma sameProbes_setStage pid s w : sameProbes w (setStage pid s w).
Proof.
  unfold setStage. destruct (probes w !! pid) as [pr|] eqn:E;
    [|by apply sameProbes_refl].
  intros p. simpl. destruct (decide (p = pid)) as [->|Hne].
  - rewrite lookup_insert_eq, E. by constructor.
  - rewrite lookup_insert_ne by done.
    destruct (probes w !! p); by constructor.
Qed.

Lemma Touches_setStage k pid s w :
  Touches k w (setStage pid s w).
Proof.
  pose proof (sameProbes_setStage pid s w) as Hs. revert Hs.
  unfold setStage. destruct (probes w !! pid) as [pr|];
    [|intros; apply Touches_refl].
  intros Hs. constructor; simpl; try done. intros. by left.
Qed.

Lemma effects_setStage pid s w : effects (setStage pid s w) = effects w.
Proof. unfold setStage. by destruct (probes w !! pid). Qed.

Lemma Base_setStage pid s w :
  Base w -> s <> VidNoElement ->
  (forall t, s = VidWaitFrame t -> typed KPipe t w) ->
  Base (setStage pid s w).
Proof.
  intros HB Hs Ht. pose proof (Touches_setStage KFallback pid s w) as HT.
  pose proof (sameProbes_setStage pid s w) as Hsame.
  revert HT Hsame. unfold setStage.
  destruct (probes w !! pid) as [pr|] eqn:E; [|done].
  intros HT Hsame. destruct HB as [Htm Hp Hc Hr Hv]. constructor; try done.
  - intros tid tm H. simpl in H.
    eapply timerOk_frame; [exact (Htm _ _ H) | done | done |].
    destruct (callback tm); simpl; try done.
    + intros p pr0 Hp0 Hc0.
      destruct (sameProbes_lookup _ _ _ _ Hsame Hp0) as (pr' & ? & ? & ?).
      exists pr'. simpl in *. split_and!; congruence.
  - intros p pr0 H. simpl in H.
    apply lookup_insert_Some in H as [[<- <-]|[Hne H]].
    + destruct (Hp _ _ E) as (H1 & H2 & H3 & H4 & H5 & H6).
      split_and!; try done.
    + exact (Hp _ _ H).
Qed.

Lemma Inv_setStage pid s w :
  Inv vr w -> s <> VidNoElement ->
  (forall t, s = VidWaitFrame t -> typed KPipe t w) ->
  Inv vr (setStage pid s w).
Proof.
  intros HI Hs Ht.
  eapply (Inv_touch KPipe); eauto using Touches_setStage, effects_setStage;
    try done.
  apply Base_setStage; [apply HI | done | done].
Qed.

Lemma Pre_setStage pid s w :
  Pre vr w -> s <> VidNoElement ->
  (forall t, s = VidWaitFrame t -> typed KPipe t w) ->
  Pre vr (setStage pid s w).
Proof.
  intros HI Hs Ht.
  eapply (Pre_pipe w); eauto using Touches_setStage, effects_setStage.
  apply Base_setStage; [apply HI | done | done].
Qed.

Lemma typed_of_timer w tid tm :
  Base w -> timers w !! tid = Some tm -> typed (kindOf (callback tm)) tid w.
Proof.
  intros HB H. split; [by eapply Base_lt|]. intros tm' H'. congruence.
Qed.

Lemma TickSettled_ext w w' :
  state w' = state w -> props w' = props w ->
  tickEffect (effects w') = tickEffect (effects w) ->
  TickSettled w -> TickSettled w'.
Proof.
  intros Hs Hp He (d & reg & H1 & H2 & H3). exists d, reg.
  unfold tickDeps, viewOf in *. rewrite He, Hs, Hp. done.
Qed.

Lemma VideoSettled_ext w w' :
  state w' = state w -> props w' = props w ->
  videoEffect (effects w') = videoEffect (effects w) ->
  VideoSettled vr w -> VideoSettled vr w'.
Proof.
  intros Hs Hp He (cl & H1 & H2). exists cl.
  unfold videoDeps, viewOf in *. rewrite He, Hs, Hp. done.
Qed.

(** Clearing a timer: only a pending fallback or hold timer is ever
    relied on. *)
Lemma Pre_clearTimeout k h w :
  Pre vr w -> typed k h w ->
  (k = KFallback -> staleProbe w = false ->
   ProbeSettled vr (clearTimeout h w)) ->
  (k = KCommit -> staleCommit vr w = false ->
   CommitSettled vr (clearTimeout h w)) ->
  Pre vr (clearTimeout h w).
Proof.
  intros HP Hty O2 O3.
  eapply (Pre_touch k); eauto using Touches_clearTimeout.
  - apply Base_clearTimeout, HP.
  - intros _ E. eapply TickSettled_ext; [..|by apply HP]; done.
  - intros _ E. eapply VideoSettled_ext; [..|by apply HP]; done.
Qed.

Lemma Inv_clearTimeout k h w :
  Inv vr w -> typed k h w ->
  (k = KFallback -> ProbeSettled vr (clearTimeout h w)) ->
  (k = KCommit -> CommitSettled vr (clearTimeout h w)) ->
  Inv vr (clearTimeout h w).
Proof.
  intros HI Hty O2 O3.
  eapply (Inv_touch k); eauto using Touches_clearTimeout.
  - apply Base_clearTimeout, HI.
  - intros _. eapply TickSettled_ext; [..|by apply HI]; done.
  - intros _. eapply VideoSettled_ext; [..|by apply HI]; done.
Qed.

(** The fallback handle of a probe can be cleared once the probe is
    cancelled or the incoming is ready. *)
Lemma ProbeSettled_clear_fallback pid pr w :
  Base w -> ProbeSettled vr w ->
  probes w !! pid = Some pr ->
  cancelled pr = true \/ isReady (st_incoming (state w)) = true ->
  ProbeSettled vr (clearTimeout (fallback pr) w).
Proof.
  intros HB (cl & Hs & Hinc) Hpr Hor. exists cl. split; [done|].
  simpl. destruct (st_incoming (state w)) as [inc|]; [|done].
  destruct Hinc as (pid0 & pr0 & -> & Hpr0 & Hc0 & Hfb).
  exists pid0, pr0. split_and!; try done.
  intros Hr. destruct (Hfb Hr) as (c & r & Hcyc & Htm).
  exists c, r. split; [done|].
  rewrite lookup_delete_ne; [done|].
  intros Heq. destruct Hor as [Hc|Hrd]; [|simpl in Hrd; congruence].
  destruct (base_probes _ HB _ _ Hpr) as (_ & _ & Hty & _).
  rewrite <- Heq in Htm. apply Hty in Htm. simpl in Htm.
  injection Htm as <-. congruence.
Qed.

Lemma typed_fallback pid pr w :
  Base w -> probes w !! pid = Some pr -> typed KFallback (fallback pr) w.
Proof.
  intros HB Hpr.
  destruct (base_probes _ HB _ _ Hpr) as (_ & Hlt & Hty & _).
  split; [done|]. intros tm Htm. apply Hty in Htm. by rewrite Htm.
Qed.

Lemma Pre_clear_fallback pid pr w :
  Pre vr w -> probes w !! pid = Some pr ->
  cancelled pr = true \/ isReady (st_incoming (state w)) = true ->
  Pre vr (clearTimeout (fallback pr) w).
Proof.
  intros HP Hpr Hor. eapply (Pre_clearTimeout KFallback); try done.
  - eapply typed_fallback; [apply HP | done].
  - intros _ E. pose proof (pre_probe _ _ HP) as H. rewrite E in H.
    eapply ProbeSettled_clear_fallback; eauto. apply HP.
Qed.

Lemma Inv_clear_fallback pid pr w :
  Inv vr w -> probes w !! pid = Some pr ->
  cancelled pr = true \/ isReady (st_incoming (state w)) = true ->
  Inv vr (clearTimeout (fallback pr) w).
Proof.
  intros HP Hpr Hor. eapply (Inv_clearTimeout KFallback); try done.
  - eapply typed_fallback; [apply HP | done].
  - intros _. eapply ProbeSettled_clear_fallback; eauto; apply HP.
Qed.

Lemma Inv_clear_other k h w :
  Inv vr w -> typed k h w -> k <> KFallback -> k <> KCommit ->
  Inv vr (clearTimeout h w).
Proof. intros. eapply (Inv_clearTimeout k); done. Qed.

(** *** A readiness signal *)

Lemma ProbeSettled_live w : ProbeSettled vr w -> ProbeLive w.
Proof.
  intros (cl & Hs & Hinc). exists cl. split; [done|].
  destruct (st_incoming (state w)); [|done].
  destruct Hinc as (pid & pr & ? & ? & ? & _). by exists pid, pr.
Qed.

Lemma set_state_same w : set_state (state w) w = w.
Proof. by destruct w. Qed.

Lemma markReady_ready st :
  isReady (st_incoming st) = true -> markReady false st = st.
Proof.
  destruct st as [i [inc|]]; simpl; [|done]. by intros ->.
Qed.

Lemma TickSettled_of_stale w :
  staleTick w = false ->
  (st_incoming (state w) <> None -> tickRegistered w = false) ->
  TickSettled w.
Proof.
  unfold staleTick, tickRegistered, TickSettled.
  destruct (tickEffect (effects w)) as [[d reg]|]; simpl; [|done].
  intros H Hr. exists d, reg. split_and!; [done | | done].
  by apply negb_false_iff in H.
Qed.

Lemma VideoSettled_of_stale w :
  staleVideo vr w = false ->
  (vr = Defensive -> isReady (st_incoming (state w)) = true ->
   videoHandle w = None) ->
  VideoSettled vr w.
Proof.
  unfold staleVideo, videoHandle, VideoSettled. intros H Hr.
  destruct (stale_false_settled _ _ H) as [cl Hs]. exists cl.
  split; [done|]. by rewrite Hs in Hr.
Qed.

Lemma flip_Pre w inc :
  Base w -> History vr w -> Media w -> ProbeLive w ->
  CommitSettled vr w -> TickSettled w -> VideoSettled vr w ->
  st_incoming (state w) = Some inc -> ready inc = false ->
  (forall c r, cycles w = c :: r ->
               now w <= staged c + timeoutMs vr (type (item inc))) ->
  Pre vr (set_state (markReady false (state w)) (noteReady (now w) w)).
Proof.
  intros HB [Hstr HH] HM (cl2 & S2 & L2) (cl3 & S3 & L3)
    (d4 & reg4 & S4 & E4 & L4) (cl5 & S5 & L5) Einc Er Hbound.
  rewrite Einc in HH, L2, L3.
  destruct HH as (c & r & Hcyc & Hcomp & Hcom & Hidx & Hitem & Hst & Hrd).
  rewrite Er in Hrd, L3.
  destruct L2 as (pid & pr & -> & Hpr & Hcanc).
  specialize (Hbound c r Hcyc).
  unfold noteReady. rewrite Hcyc.
  set (w' := set_state _ _).
  assert (state w' = mkEngineState (st_idx (state w))
                       (Some (mkIncoming (idx inc) (item inc) (key inc) true)))
    as Hstate.
  { subst w'. simpl. unfold markReady, markReadyUpdate.
    by rewrite Einc, Er. }
  assert (viewOf w' = viewOf w) as Hview.
  { unfold viewOf. rewrite Hstate. done. }
  constructor.
  - apply (Base_ext w); try done.
  - split; [done|]. rewrite Hstate. simpl.
    exists (mkCycle (staged c) (stagedAs c) [now w] (commits c)), r.
    rewrite Hrd. split_and!; try done.
    exists (now w). split_and!; (done || lia).
  - unfold Media. rewrite Hview, Hstate. intros _. apply HM.
    by rewrite Einc.
  - assert (staleProbe w' = false) as ->.
    { unfold staleProbe, probeDeps. rewrite Hstate. simpl.
      change (effects w') with (effects w). rewrite S2.
      unfold probeDeps. rewrite Einc. simpl.
      unfold decEqb. by rewrite bool_decide_eq_true_2. }
    exists (Some pid). unfold probeDeps. rewrite Hstate. simpl.
    change (effects w') with (effects w). rewrite S2.
    unfold probeDeps. rewrite Einc. simpl. split; [done|].
    exists pid, pr. split_and!; done.
  - assert (staleCommit vr w' = true) as ->.
    { unfold staleCommit, commitDeps. rewrite Hview, Hstate. simpl.
      change (effects w') with (effects w). rewrite S3.
      unfold commitDeps. rewrite Einc. simpl. rewrite Er.
      unfold decEqb. rewrite bool_decide_eq_false_2; [done|].
      intros [=]. }
    intros inc0. rewrite Hstate. simpl. intros [= <-] _.
    eexists _, _. split; [done|]. simpl. by rewrite Hrd.
  - intros E. apply (TickSettled_of_stale _ E).
    intros _. unfold tickRegistered.
    change (effects w') with (effects w). rewrite S4. simpl.
    apply L4. by rewrite Einc.
  - intros E. apply (VideoSettled_of_stale _ E).
    intros -> _. exfalso. revert E.
    unfold staleVideo, videoDeps. rewrite Hview, Hstate. simpl.
    change (effects w') with (effects w). rewrite S5.
    unfold videoDeps. rewrite Einc. simpl. rewrite Er.
    unfold decEqb. rewrite bool_decide_eq_false_2; [done|].
    intros [=].
Qed.

Lemma ProbeLive_settled w :
  ProbeLive w -> isReady (st_incoming (state w)) = true ->
  ProbeSettled vr w.
Proof.
  intros (cl & Hs & Hinc) Hr. exists cl. split; [done|].
  destruct (st_incoming (state w)) as [inc|]; [|done].
  destruct Hinc as (pid & pr & ? & ? & ?). exists pid, pr.
  split_and!; try done. simpl in Hr. congruence.
Qed.

Lemma ProbeLive_current w pid pr :
  Base w -> ProbeLive w -> probes w !! pid = Some pr ->
  cancelled pr = false ->
  exists inc, st_incoming (state w) = Some inc.
Proof.
  intros HB (cl & Hs & Hinc) Hpr Hc.
  destruct (base_probes _ HB _ _ Hpr) as (_ & _ & _ & _ & _ & Hcur).
  specialize (Hcur Hc). unfold currentProbe in Hcur. rewrite Hs in Hcur.
  simpl in Hcur. destruct (st_incoming (state w)); [eauto|]. congruence.
Qed.

Lemma markReadyW_live pid pr w :
  Base w -> History vr w -> Media w -> ProbeLive w ->
  CommitSettled vr w -> TickSettled w -> VideoSettled vr w ->
  probes w !! pid = Some pr -> cancelled pr = false ->
  (forall inc c r,
     st_incoming (state w) = Some inc -> ready inc = false ->
     cycles w = c :: r ->
     now w <= staged c + timeoutMs vr (type (item inc))) ->
  Pre vr (markReadyW vr pid w).
Proof.
  intros HB HH HM HL H3 H4 H5 Hpr Hc Hbound.
  destruct (ProbeLive_current w pid pr HB HL Hpr Hc) as [inc Einc].
  unfold markReadyW. rewrite Hpr, Hc.
  set (w1 := match vr with Plain => _ | Defensive => _ end).
  assert (Touches KFallback w w1 /\ effects w1 = effects w
          /\ probes w1 = probes w /\ Base w1) as (HT & He & Hp & HB1).
  { subst w1. destruct vr.
    - split_and!; [apply Touches_refl | done | done | done].
    - split_and!; [|done|done|by apply Base_clearTimeout].
      apply Touches_clearTimeout. by eapply typed_fallback. }
  assert (core w1 = core w) as Hcore by apply HT.
  assert (History vr w1) as HH1 by by eapply History_frame.
  assert (Media w1) as HM1 by by eapply Media_frame.
  assert (ProbeLive w1) as HL1.
  { destruct HL as (cl & Hs & Hinc). exists cl.
    unfold probeDeps. rewrite He, Hp, (core_state _ _ Hcore). done. }
  assert (CommitSettled vr w1) as H31
    by by eapply (CommitSettled_frame vr KFallback w).
  assert (TickSettled w1) as H41
    by by eapply (TickSettled_frame KFallback w).
  assert (VideoSettled vr w1) as H51
    by by eapply (VideoSettled_frame vr KFallback w).
  assert (st_incoming (state w1) = Some inc) as Einc1
    by by rewrite (core_state _ _ Hcore).
  unfold flips. rewrite Einc1.
  destruct (ready inc) eqn:Er; cbn [negb].
  - rewrite markReady_ready by (by rewrite Einc1; simpl).
    rewrite set_state_same. apply Inv_Pre. constructor; try done.
    apply ProbeLive_settled; [done|]. by rewrite Einc1.
  - assert (state (noteReady (now w1) w1) = state w1) as ->
      by (unfold noteReady; by destruct (cycles w1)).
    eapply flip_Pre; eauto.
    intros c r Hcyc. rewrite (core_now _ _ Hcore).
    rewrite (core_cycles _ _ Hcore) in Hcyc. eauto.
Qed.

Lemma fallback_bound w inc c r :
  Base w -> ProbeSettled vr w ->
  st_incoming (state w) = Some inc -> ready inc = false ->
  cycles w = c :: r ->
  now w <= staged c + timeoutMs vr (type (item inc)).
Proof.
  intros HB (cl & Hs & Hinc) Einc Er Hcyc. rewrite Einc in Hinc.
  destruct Hinc as (pid & pr & _ & _ & _ & Hfb).
  destruct (Hfb Er) as (c' & r' & Hcyc' & Htm).
  rewrite Hcyc in Hcyc'. injection Hcyc' as <- <-.
  destruct (base_timers _ HB _ _ Htm) as (_ & Hdue & _). done.
Qed.

(** A ready signal from any probe, live or stale. *)
Lemma markReadyW_Pre pid w : Inv vr w -> Pre vr (markReadyW vr pid w).
Proof.
  intros HI.
  destruct (probes w !! pid) as [pr|] eqn:Hpr.
  2:{ unfold markReadyW. rewrite Hpr. by apply Inv_Pre. }
  destruct (cancelled pr) eqn:Hc.
  { unfold markReadyW. rewrite Hpr, Hc. by apply Inv_Pre. }
  destruct HI as [HB H2 H3 H4 H5 HH HM].
  eapply markReadyW_live; eauto using ProbeSettled_live.
  intros inc c r. by apply fallback_bound.
Qed.

(** *** Probe events *)

Lemma Touches_setTimeout cb d w :
  Base w -> Touches (kindOf cb) w (setTimeout cb d w).2.
Proof.
  intros HB. constructor; simpl; try done.
  - lia.
  - intros tid tm H.
    apply lookup_insert_Some in H as [[<- <-]|[_ H]];
      [right; split; [lia | by left] | by left].
  - intros tid tm H _ _. pose proof (Base_lt _ _ _ HB H).
    rewrite lookup_insert_ne by lia. done.
  - intros _. by apply sameProbes_refl.
Qed.

Lemma Inv_setTimeout_pipe cb d w :
  kindOf cb = KPipe -> 0 <= d -> Inv vr w -> Inv vr (setTimeout cb d w).2.
Proof.
  intros Hk Hd HI.
  eapply (Inv_touch KPipe); try done.
  - rewrite <- Hk. apply Touches_setTimeout, HI.
  - apply Base_setTimeout_pipe; [done | done | apply HI].
Qed.

Lemma Inv_onImgLoad pid w : Inv vr w -> Inv vr (onImgLoad pid w).
Proof.
  intros HI. unfold onImgLoad.
  destruct (stage <$> probes w !! pid) as [[]|]; try done.
  by apply Inv_setStage.
Qed.

Lemma Pre_onImgError pid w : Inv vr w -> Pre vr (onImgError vr pid w).
Proof.
  intros HI. unfold onImgError.
  destruct (stage <$> probes w !! pid) as [[]|]; try by apply Inv_Pre.
  apply markReadyW_Pre. by apply Inv_setStage.
Qed.

Lemma Pre_onAnimationFrame pid w :
  Inv vr w -> Pre vr (onAnimationFrame vr pid w).
Proof.
  intros HI. unfold onAnimationFrame.
  destruct (stage <$> probes w !! pid) as [[]|]; try by apply Inv_Pre.
  - apply Inv_Pre. by apply Inv_setStage.
  - apply markReadyW_Pre. by apply Inv_setStage.
Qed.

Lemma Inv_videoReady pid w : Inv vr w -> Inv vr (videoReady vr pid w).
Proof.
  intros HI. unfold videoReady.
  destruct (stage <$> probes w !! pid) as [[]|]; try done.
  apply Inv_setStage; [|done|done]. by apply Inv_emitAll.
Qed.

Lemma markReadyW_probes pid w :
  probes (markReadyW vr pid w) = probes w.
Proof.
  unfold markReadyW. destruct (probes w !! pid) as [pr|]; [|done].
  destruct (cancelled pr); [done|]. unfold noteReady.
  destruct vr; simpl; repeat case_match; done.
Qed.

Lemma markReadyW_ready pid pr w inc :
  probes w !! pid = Some pr -> cancelled pr = false ->
  st_incoming (state w) = Some inc ->
  isReady (st_incoming (state (markReadyW vr pid w))) = true.
Proof.
  intros Hpr Hc Einc. unfold markReadyW. rewrite Hpr, Hc.
  assert (forall w0, st_incoming (state w0) = Some inc ->
            isReady (st_incoming
              (state (set_state (markReady false
                (state (if flips (state w0) then noteReady (now w0) w0
                        else w0)))
                (if flips (state w0) then noteReady (now w0) w0 else w0))))
            = true) as H.
  { intros w0 E0. simpl.
    assert (state (if flips (state w0) then noteReady (now w0) w0 else w0)
            = state w0) as ->.
    { destruct (flips (state w0)); [|done].
      unfold noteReady. by destruct (cycles w0). }
    unfold markReadyUpdate. rewrite E0.
    destruct (ready inc) eqn:Er; simpl; [exact Er | done]. }
  destruct vr; by apply H.
Qed.

Lemma setStage_lookup pid s w pr :
  probes w !! pid = Some pr ->
  probes (setStage pid s w) !! pid
  = Some (mkProbe (cancelled pr) (fallback pr) s).
Proof.
  intros H. unfold setStage. rewrite H. simpl. by rewrite lookup_insert_eq.
Qed.

Lemma emitAll_fields os w :
  probes (emitAll os w) = probes w /\ state (emitAll os w) = state w.
Proof.
  revert w. induction os as [|o os IH]; intros w; simpl; [done|].
  destruct (IH (emit o w)) as [-> ->]. done.
Qed.

Lemma Pre_finishVideo pid cmds w :
  Inv vr w -> Pre vr (finishVideo vr pid cmds w).
Proof.
  intros HI. unfold finishVideo.
  destruct (probes w !! pid) as [pr|] eqn:Hpr; [|by apply Inv_Pre].
  set (w0 := emitAll cmds (setStage pid ProbeDone w)).
  assert (Inv vr w0) as HI0.
  { apply Inv_emitAll. by apply Inv_setStage. }
  assert (probes w0 !! pid = Some (mkProbe (cancelled pr) (fallback pr)
                                     ProbeDone)) as Hpr0.
  { subst w0. destruct (emitAll_fields cmds (setStage pid ProbeDone w))
      as [-> _]. by apply setStage_lookup. }
  pose proof (markReadyW_Pre pid w0 HI0) as HP.
  assert (Pre vr (clearTimeout (fallback pr) (markReadyW vr pid w0)))
    as HP'.
  { eapply (Pre_clear_fallback pid (mkProbe (cancelled pr) (fallback pr)
                                      ProbeDone)); [done | |].
    - by rewrite markReadyW_probes.
    - simpl. destruct (cancelled pr) eqn:Hc; [by left|]. right.
      destruct (ProbeLive_current w0 pid _ (inv_base _ _ HI0)
                  (ProbeSettled_live _ (inv_probe _ _ HI0)) Hpr0 eq_refl)
        as [inc Einc].
      by eapply markReadyW_ready. }
  clearbody w0. destruct vr; done.
Qed.

Lemma Pre_onVideoSignal pid s w :
  Inv vr w -> Pre vr (onVideoSignal vr pid s w).
Proof.
  intros HI. unfold onVideoSignal.
  pose proof (Inv_Pre _ (Inv_videoReady pid w HI)) as H1.
  pose proof (Inv_Pre _ HI) as H2.
  pose proof (Pre_finishVideo pid [] w HI) as H3.
  destruct vr, s; try done.
  destruct (stage <$> probes w !! pid) as [[]|]; done.
Qed.

Lemma firstFrameMs_nonneg : 0 <= firstFrameMs vr.
Proof. destruct vr; simpl; lia. Qed.

Lemma Pre_onPlaySettled pid ok w :
  Inv vr w -> Pre vr (onPlaySettled vr pid ok w).
Proof.
  intros HI. unfold onPlaySettled.
  destruct (stage <$> probes w !! pid) as [[]|]; try by apply Inv_Pre.
  destruct (match vr with Defensive => true | Plain => ok end);
    [|by apply Pre_finishVideo].
  apply Inv_Pre.
  pose proof (Inv_setTimeout_pipe (CbFirstFrame pid) (firstFrameMs vr) w
                eq_refl firstFrameMs_nonneg HI) as HI1.
  simpl in HI1 |- *. apply Inv_setStage; [done | done |].
  intros t [= <-]. split; simpl; [lia|].
  intros tm. rewrite lookup_insert_eq. by intros [= <-].
Qed.

Lemma typed_waitFrame pid t w :
  Base w -> stage <$> probes w !! pid = Some (VidWaitFrame t) ->
  typed KPipe t w.
Proof.
  intros HB H. destruct (probes w !! pid) as [pr|] eqn:E; [|done].
  simpl in H. injection H as H.
  destruct (base_probes _ HB _ _ E) as (_ & _ & _ & _ & Hty & _).
  by apply Hty.
Qed.

Lemma Pre_onFirstFrame pid w :
  Inv vr w -> Pre vr (onFirstFrame vr pid w).
Proof.
  intros HI. unfold onFirstFrame.
  destruct (stage <$> probes w !! pid) as [[]|] eqn:E;
    try by apply Inv_Pre.
  apply Pre_finishVideo.
  assert (Inv vr (clearTimeout t w)) as H.
  { eapply (Inv_clear_other KPipe); try done.
    eapply typed_waitFrame; [apply HI | done]. }
  destruct vr; done.
Qed.

Lemma Pre_onFirstFrameTimeout pid w :
  Inv vr w -> Pre vr (onFirstFrameTimeout vr pid w).
Proof.
  intros HI. unfold onFirstFrameTimeout.
  destruct (stage <$> probes w !! pid) as [[]|] eqn:E;
    try by apply Inv_Pre.
  by apply Pre_finishVideo.
Qed.

Lemma Pre_onProbeThrow pid w :
  Inv vr w -> Pre vr (onProbeThrow vr pid w).
Proof.
  intros HI. unfold onProbeThrow.
  destruct (stage <$> probes w !! pid) as [[]|] eqn:E;
    try (by apply Inv_Pre); by apply Pre_finishVideo.
Qed.

(** *** Staging *)

Lemma scheduleNext_Some c n inc :
  scheduleNext c n = Some inc ->
  ready inc = false /\ safeLen (c_view c) <> 0 /\ c_incoming c = None.
Proof.
  unfold scheduleNext.
  destruct (safeLen (c_view c) =? 0) eqn:E; [done|].
  destruct (c_incoming c); [done|].
  destruct (itemAt _ _); [|done]. intros [= <-]. simpl.
  split_and!; [done | by apply Z.eqb_neq | done].
Qed.

Lemma goNext_Some c inc :
  goNext c = Some inc ->
  ready inc = false /\ safeLen (c_view c) <> 0 /\ c_incoming c = None.
Proof.
  unfold goNext. destruct (safeLen (c_view c) =? 0); [done|].
  apply scheduleNext_Some.
Qed.

Lemma handleVideoEnded_Some c inc :
  handleVideoEnded c = Some inc ->
  ready inc = false /\ safeLen (c_view c) <> 0 /\ c_incoming c = None.
Proof.
  unfold handleVideoEnded. destruct (negb (playing (c_props c))); [done|].
  destruct (c_incoming c) eqn:E; [done|]. intros H.
  apply goNext_Some in H. by rewrite E in H.
Qed.

Lemma render_sameMedia p q i : sameMedia p q -> render p i = render q i.
Proof.
  intros (Hi & Hs & Hd). unfold render, orderOf. by rewrite Hi, Hs, Hd.
Qed.

Lemma tickDeps_eqb_key d1 d2 :
  tickDeps_eqb d1 d2 = true -> d1.2 = d2.2.
Proof.
  destruct d1 as [[[[[p1 i1] q1] l1] s1] k1].
  destruct d2 as [[[[[p2 i2] q2] l2] s2] k2]. simpl.
  rewrite !andb_true_iff. intros (_ & H). by apply bool_decide_eq_true in H.
Qed.

Lemma stage_Pre w inc :
  Inv vr w -> st_incoming (state w) = None -> ready inc = false ->
  safeLen (viewOf w) <> 0 ->
  Pre vr (stageW (Some inc) w).
Proof.
  intros [HB (cl2 & S2 & L2) (cl3 & S3 & L3) (d4 & reg4 & S4 & E4 & L4)
            (cl5 & S5 & L5) [Hstr HH] HM] Einc Er Hlen.
  rewrite Einc in HH, L2, L3. subst cl2 cl3.
  unfold stageW. set (w' := set_history _ _ _).
  assert (state w' = mkEngineState (st_idx (state w)) (Some inc)) as Hstate
    by done.
  assert (viewOf w' = viewOf w) as Hview by done.
  constructor.
  - by apply (Base_ext w).
  - split; [done|]. rewrite Hstate. simpl.
    eexists _, _. split; [done|]. simpl. rewrite Er.
    split_and!; (done || lia).
  - unfold Media. by rewrite Hview.
  - assert (staleProbe w' = true) as ->.
    { unfold staleProbe, probeDeps. rewrite Hstate. simpl.
      change (effects w') with (effects w). rewrite S2.
      unfold probeDeps. rewrite Einc. simpl.
      first [ done | unfold decEqb; by rewrite bool_decide_eq_false_2 ]. }
    intros inc0. rewrite Hstate. simpl. intros [= <-].
    split; [done|]. by eexists _, _.
  - assert (staleCommit vr w' = true) as ->.
    { unfold staleCommit, commitDeps. rewrite Hview, Hstate. simpl.
      change (effects w') with (effects w). rewrite S3.
      unfold commitDeps. rewrite Einc. simpl.
      first [ done
            | unfold decEqb; rewrite bool_decide_eq_false_2;
              [done | intros [=]] ]. }
    intros inc0. rewrite Hstate. simpl. intros [= <-]. congruence.
  - intros E. exfalso. revert E. unfold staleTick.
    change (effects w') with (effects w). rewrite S4. simpl.
    intros E. apply negb_false_iff in E.
    apply tickDeps_eqb_key in E. apply tickDeps_eqb_key in E4.
    rewrite E4 in E. unfold tickDeps in E. simpl in E.
    rewrite ?Hstate, ?Einc in E. done.
  - intros E. apply (VideoSettled_of_stale _ E).
    intros _. rewrite Hstate. simpl. congruence.
Qed.

Lemma stageW_Pre req w :
  Inv vr w ->
  (forall inc, req = Some inc ->
     st_incoming (state w) = None /\ ready inc = false
     /\ safeLen (viewOf w) <> 0) ->
  Pre vr (stageW req w).
Proof.
  intros HI H. destruct req as [inc|]; [|by apply Inv_Pre].
  destruct (H inc eq_refl) as (? & ? & ?). by apply stage_Pre.
Qed.

Lemma Pre_videoEnded w :
  Inv vr w ->
  Pre vr (stageW (handleVideoEnded (closureOf (props w) (state w))) w).
Proof.
  intros HI. apply stageW_Pre; [done|]. intros inc H.
  apply handleVideoEnded_Some in H as (? & ? & ?). done.
Qed.

(** *** Commit *)

(** What a pending commit timer says about the state. *)
Lemma commit_timer w tid tm i :
  Inv vr w -> timers w !! tid = Some tm -> callback tm = CbCommit i ->
  exists inc c r t1,
    st_incoming (state w) = Some inc /\ ready inc = true /\ idx inc = i
    /\ cycles w = c :: r /\ readyAt c = [t1] /\ due tm = t1 + holdMs
    /\ commitHandle w = Some tid.
Proof.
  intros HI Htm Hcb.
  destruct (base_timers _ (inv_base _ _ HI) _ _ Htm) as (_ & _ & Hown).
  rewrite Hcb in Hown.
  destruct (inv_commit _ _ HI) as (cl & Hs & Hinc).
  unfold commitHandle in Hown. rewrite Hs in Hown. simpl in Hown. subst cl.
  destruct (st_incoming (state w)) as [inc|]; [|done].
  destruct (ready inc) eqn:Er; [|done].
  destruct Hinc as (h & t1 & c & r & [= <-] & Hcyc & Hr & Htm').
  rewrite Htm in Htm'. injection Htm' as ->. simpl in Hcb.
  injection Hcb as <-.
  exists inc, c, r, t1. split_and!; try done.
  unfold commitHandle. by rewrite Hs.
Qed.

Lemma commit_Pre w tid tm i :
  Inv vr w -> timers w !! tid = Some tm -> callback tm = CbCommit i ->
  due tm = now w ->
  Pre vr (commitW i (clearTimeout tid w)).
Proof.
  intros HI Htm Hcb Hdue.
  destruct (commit_timer w tid tm i HI Htm Hcb)
    as (inc & c & r & t1 & Einc & Er & Hi & Hcyc & Hr & Hd & Hh).
  destruct HI as [HB (cl2 & S2 & L2) (cl3 & S3 & L3)
                    (d4 & reg4 & S4 & E4 & L4) (cl5 & S5 & L5) [Hstr HH] HM].
  rewrite Einc in HH, L2.
  destruct HH as (c' & r' & Hcyc' & Hcomp & Hcom & Hidx & Hitem & Hst & Hrd).
  rewrite Hcyc in Hcyc'. injection Hcyc' as <- <-.
  rewrite Er in Hrd. destruct Hrd as (t1' & Hr' & Hle & Hbnd).
  rewrite Hr in Hr'. injection Hr' as <-.
  destruct L2 as (pid & pr & -> & Hpr & Hcanc & _).
  unfold commitW, noteCommit. simpl. rewrite Hcyc.
  set (w' := set_history _ _ _).
  assert (state w' = mkEngineState i None) as Hstate by done.
  constructor.
  - apply (Base_ext (clearTimeout tid w)); try done.
    by apply Base_clearTimeout.
  - split; [done|]. rewrite Hstate. simpl.
    constructor; [|done]. exists t1. simpl.
    rewrite Hcom, Hidx, Hi, Hitem. split_and!; try done; try lia.
    do 2 f_equal. lia.
  - unfold Media. by rewrite Hstate.
  - assert (staleProbe w' = true) as ->.
    { unfold staleProbe, probeDeps. rewrite Hstate. simpl.
      change (effects w') with (effects w). rewrite S2.
      unfold probeDeps. rewrite Einc. simpl.
      first [ done | unfold decEqb; by rewrite bool_decide_eq_false_2 ]. }
    intros inc0. by rewrite Hstate.
  - assert (staleCommit vr w' = true) as ->.
    { unfold staleCommit, commitDeps. rewrite Hstate. simpl.
      change (effects w') with (effects w). rewrite S3.
      unfold commitDeps. rewrite Einc. simpl.
      first [ done
            | unfold decEqb; rewrite bool_decide_eq_false_2;
              [done | intros [=]] ]. }
    intros inc0. by rewrite Hstate.
  - intros E. apply (TickSettled_of_stale _ E). by rewrite Hstate.
  - intros E. apply (VideoSettled_of_stale _ E). by rewrite Hstate.
Qed.

(** *** Settings *)

Lemma settings_Pre pl iv mode kb w :
  Inv vr w ->
  Pre vr (set_props
            (mkProps (items (props w)) iv (shuffle (props w)) kb pl
               (shuffleSeed (props w)) mode) w).
Proof.
  intros [HB (cl2 & S2 & L2) (cl3 & S3 & L3) (d4 & reg4 & S4 & E4 & L4)
            (cl5 & S5 & L5) HH HM].
  set (p' := mkProps _ _ _ _ _ _ _). set (w' := set_props p' w).
  assert (sameMedia (props w) p') as Hsame by done.
  assert (viewOf w' = viewOf w) as Hview.
  { unfold viewOf. simpl. symmetry. by apply render_sameMedia. }
  constructor.
  - destruct HB as [Ht Hp Hc Hr Hv]. by constructor.
  - done.
  - unfold Media. by rewrite Hview.
  - assert (staleProbe w' = false) as ->.
    { unfold staleProbe. change (effects w') with (effects w).
      change (probeDeps w') with (probeDeps w).
      rewrite S2. apply stale_settled. }
    by exists cl2.
  - assert (commitDeps vr (viewOf w') w' = commitDeps vr (viewOf w) w)
      as Hd by (unfold commitDeps; by rewrite Hview).
    assert (staleCommit vr w' = false) as ->.
    { unfold staleCommit. change (effects w') with (effects w).
      rewrite Hd, S3. apply stale_settled. }
    exists cl3. by rewrite Hd.
  - intros E. apply (TickSettled_of_stale _ E).
    unfold tickRegistered. change (effects w') with (effects w).
    rewrite S4. done.
  - intros E. apply (VideoSettled_of_stale _ E).
    unfold videoHandle. change (effects w') with (effects w).
    rewrite S5. done.
Qed.

(** *** Fired timers *)

Lemma fallback_Pre w tid tm pid :
  Inv vr w -> timers w !! tid = Some tm -> callback tm = CbFallback pid ->
  Pre vr (markReadyW vr pid (clearTimeout tid w)).
Proof.
  intros HI Htm Hcb.
  pose proof (inv_base _ _ HI) as HB.
  destruct (base_timers _ HB _ _ Htm) as (_ & _ & Hown).
  rewrite Hcb in Hown. destruct Hown as (pr & Hpr & Hfb & Hc).
  assert (typed KFallback tid w) as Hty.
  { rewrite <- Hfb. by eapply typed_fallback. }
  pose proof (Touches_clearTimeout _ _ _ Hty) as HT.
  assert (core (clearTimeout tid w) = core w) as Hcore by done.
  destruct HI as [_ H2 H3 H4 H5 HH HM].
  apply (markReadyW_live pid pr).
  - by apply Base_clearTimeout.
  - done.
  - done.
  - by apply ProbeSettled_live in H2.
  - by eapply CommitSettled_frame.
  - by eapply TickSettled_frame.
  - by eapply VideoSettled_frame.
  - done.
  - done.
  - intros inc c r Einc Er Hcyc.
    by eapply (fallback_bound w).
Qed.

Lemma Pre_set_dueRef d w : Pre vr w -> Pre vr (set_dueRef d w).
Proof.
  intros HP. eapply (Pre_pipe w); try done.
  - by apply Touches_same.
  - eapply Base_ext; try apply HP; done.
Qed.

Lemma NoTimers_tick_fired w tid tm c ms :
  Base w -> timers w !! tid = Some tm -> callback tm = CbTick c ms ->
  NoTimers KTick (clearTimeout tid w).
Proof.
  intros HB Htm Hcb tid' tm' H Hk. simpl in H.
  apply lookup_delete_Some in H as [Hne H].
  destruct (base_timers _ HB _ _ Htm) as (_ & _ & Hown).
  destruct (base_timers _ HB _ _ H) as (_ & _ & Hown').
  rewrite Hcb in Hown.
  destruct (callback tm'); try done.
  destruct Hown as (Hr & _), Hown' as (Hr' & _). congruence.
Qed.

Lemma safeLen_sameMedia p q i j :
  sameMedia p q -> safeLen (render p i) = safeLen (render q j).
Proof.
  intros (H1 & H2 & H3). unfold render, orderOf. simpl.
  by rewrite H1, H2, H3.
Qed.

(** Re-arming the tick timer. *)
Lemma arm_tick w c ms :
  Base w -> NoTimers KTick w -> tickRegistered w = true ->
  c_incoming c = None -> sameMedia (c_props c) (props w) ->
  let w' := set_timerRef (Some (nextId w)) (setTimeout (CbTick c ms) 16 w).2 in
  Touches KTick w w' /\ Base w'.
Proof.
  intros HB Hclean Hreg Hc Hsame w'.
  assert (HT : Touches KTick w w') by (subst w'; touches_solve HB).
  split; [done|].
  eapply (Base_touch KTick); try done.
  - intros tid tm Htm Hk.
    destruct (t_new _ _ _ HT _ _ Htm) as [Hold|[Hfresh _]];
      [by destruct (Hclean _ _ Hold)|].
    subst w'. simpl in Htm.
    apply lookup_insert_Some in Htm as [[<- <-]|[_ Htm]];
      [|pose proof (Base_lt _ _ _ HB Htm); lia].
    unfold timerOk. simpl. split_and!; (done || lia).
  - intros tid tm Htm Hfresh. subst w'. simpl in Htm.
    apply lookup_insert_Some in Htm as [[<- <-]|[_ Htm]];
      [|pose proof (Base_lt _ _ _ HB Htm); lia].
    simpl. split_and!; (done || lia).
  - intros _ h [= <-]. split; [simpl; lia|]. intros tm. simpl.
    rewrite lookup_insert_eq. by intros [= <-].
Qed.

Lemma tick_Pre w tid tm c ms :
  Inv vr w -> timers w !! tid = Some tm -> callback tm = CbTick c ms ->
  Pre vr (onTick c ms (clearTimeout tid w)).
Proof.
  intros HI Htm Hcb.
  pose proof (inv_base _ _ HI) as HB.
  destruct (base_timers _ HB _ _ Htm) as (_ & _ & Hown).
  rewrite Hcb in Hown. destruct Hown as (Href & Hreg & Hc & Hsame).
  assert (st_incoming (state w) = None) as Hidle.
  { destruct (inv_tick _ _ HI) as (d & reg & S4 & _ & L4).
    unfold tickRegistered in Hreg. rewrite S4 in Hreg. simpl in Hreg.
    subst reg. destruct (st_incoming (state w)); [|done].
    by discriminate L4. }
  pose proof (NoTimers_tick_fired _ _ _ _ _ HB Htm Hcb) as Hclean.
  assert (Inv vr (clearTimeout tid w)) as HI0.
  { eapply (Inv_clear_other KTick); try done.
    pose proof (typed_of_timer _ _ _ HB Htm) as Hty.
    by rewrite Hcb in Hty. }
  set (w0 := clearTimeout tid w) in *.
  unfold onTick.
  set (w1 := if _ && _ then _ else w0).
  assert (Pre vr w1 /\ nextId w1 = nextId w0 /\ timers w1 = timers w0
          /\ effects w1 = effects w0 /\ props w1 = props w0)
    as (HP1 & En & Et & Ee & Ep).
  { subst w1. destruct (_ && _).
    - split.
      + apply Pre_set_dueRef. apply stageW_Pre; [done|].
        intros inc Hgo. apply goNext_Some in Hgo as (Hr & Hlen & _).
        split_and!; try done.
        unfold viewOf. unfold c_view in Hlen.
        by rewrite <- (safeLen_sameMedia _ _ (c_idx c) _ Hsame).
      + unfold stageW. by destruct (goNext c).
    - split; [by apply Inv_Pre | done]. }
  clearbody w1. simpl.
  assert (nextId w1 = nextId w) as En' by (by rewrite En).
  destruct (arm_tick w1 c ms) as (HT & HB2); try done.
  - apply HP1.
  - unfold NoTimers. by rewrite Et.
  - unfold tickRegistered. by rewrite Ee.
  - by rewrite Ep.
  - eapply (Pre_touch KTick); try done.
    intros _ Hst. eapply (TickSettled_ext w1); try done.
    by apply (pre_tick _ _ HP1).
Qed.

Lemma play_Pre w tid tm :
  Inv vr w -> timers w !! tid = Some tm -> callback tm = CbPlay ->
  Pre vr (emit (OVideo ActiveVideo Play) (clearTimeout tid w)).
Proof.
  intros HI Htm Hcb. apply Inv_Pre, Inv_emit.
  eapply (Inv_clear_other KPlay); try done.
  pose proof (typed_of_timer _ _ _ (inv_base _ _ HI) Htm) as Hty.
  by rewrite Hcb in Hty.
Qed.

Lemma pipe_cleared w tid tm :
  Inv vr w -> timers w !! tid = Some tm -> kindOf (callback tm) = KPipe ->
  Inv vr (clearTimeout tid w).
Proof.
  intros HI Htm Hk. eapply (Inv_clear_other KPipe); try done.
  pose proof (typed_of_timer _ _ _ (inv_base _ _ HI) Htm) as Hty.
  by rewrite Hk in Hty.
Qed.

(** *** Every callback *)

Theorem handle_Pre w t e :
  Inv vr w -> admissible w t e -> Pre vr (handle vr e (set_now t w)).
Proof.
  intros HI (Hle & Hdue & He).
  pose proof (Inv_set_now t w HI Hle Hdue) as HI'.
  destruct e; simpl handle.
  - destruct (timers w !! tid) as [tm|] eqn:Htm; [|by apply Inv_Pre].
    simpl in He. injection He as He.
    change (timers (set_now t w)) with (timers w) in HI' |- *.
    rewrite ?Htm.
    destruct (callback tm) as [pid|i|c ms| |pid|pid] eqn:Hcb; simpl.
    + by eapply fallback_Pre.
    + by eapply commit_Pre.
    + by eapply tick_Pre.
    + by eapply play_Pre.
    + apply Inv_Pre, Inv_videoReady. eapply pipe_cleared; try done.
      by rewrite Hcb.
    + apply Pre_onFirstFrameTimeout. eapply pipe_cleared; try done.
      by rewrite Hcb.
  - by apply Inv_Pre, Inv_onImgLoad.
  - by apply Pre_onImgError.
  - by apply Pre_onAnimationFrame.
  - by apply Pre_onVideoSignal.
  - by apply Pre_onPlaySettled.
  - by apply Pre_onFirstFrame.
  - by apply Pre_onProbeThrow.
  - case_match; [by apply (Pre_videoEnded (set_now t w)) | by apply Inv_Pre].
  - by apply Inv_Pre, Inv_emit.
  - by apply (settings_Pre _ _ _ _ (set_now t w)).
Qed.

Theorem step_Inv w t e :
  Inv vr w -> admissible w t e -> Inv vr (step vr t e w).
Proof.
  intros HI Ha. unfold step. by apply reconcile_Inv, handle_Pre.
Qed.

End Callbacks.

(** * The invariant holds in every reachable state *)

Section Reachable.
Variable vr : EngineVariant.

Lemma mount_Pre p t :
  Pre vr (mkWorld t p initialState 1 ∅ ∅ None 0%Q
            (mkEffects None None None None) [] [] []).
Proof.
  constructor.
  - by constructor.
  - split; [done|]. simpl. constructor.
  - by intros H.
  - by intros inc.
  - by intros inc.
  - done.
  - done.
Qed.

Theorem mount_Inv p t : Inv vr (mount vr p t).
Proof. apply reconcile_Inv, mount_Pre. Qed.

Theorem reachable_Inv w : reachable vr w -> Inv vr w.
Proof.
  induction 1 as [p t|w t e _ IH Ha].
  - apply mount_Inv.
  - by apply step_Inv.
Qed.

(** A render and its effects leave time, properties, state and history
    alone. *)
Lemma when_core r f w :
  (forall w0, core (f w0) = core w0) -> core (when r f w) = core w.
Proof. intros H. destruct r; simpl; [apply H | done]. Qed.

Lemma probeCleanup_core cl w : core (probeCleanup cl w) = core w.
Proof. unfold probeCleanup. by repeat case_match. Qed.

Lemma timerCleanup_core cl w : core (timerCleanup cl w) = core w.
Proof. by destruct cl. Qed.

Lemma tickCleanup_core reg w : core (tickCleanup reg w) = core w.
Proof. unfold tickCleanup, timerCleanup. by repeat case_match. Qed.

Lemma probeRun_core v d w : core (probeRun vr v d w) = core w.
Proof.
  unfold probeRun, probeBody.
  destruct (st_incoming (state w)) as [inc|]; [|done].
  destruct (type (item inc)); [done|].
  destruct (shownItem v); [|done]. by destruct vr.
Qed.

Lemma commitRun_core v d w : core (commitRun vr v d w) = core w.
Proof.
  unfold commitRun, commitBody.
  destruct (st_incoming (state w)) as [inc|]; [|done].
  destruct (ready inc); [|done].
  destruct vr; [|done]. by destruct (shownIsVideo v).
Qed.

Lemma tickRun_core v d w : core (tickRun v d w) = core w.
Proof.
  unfold tickRun, tickBody.
  destruct (negb (playing (props w)) || negb (shownIsImage v)); [done|].
  destruct ((safeLen v =? 0) || (safeLen v <=? 1)); [done|].
  by destruct (st_incoming (state w)).
Qed.

Lemma videoRun_core v d w : core (videoRun vr v d w) = core w.
Proof.
  unfold videoRun, videoBody.
  destruct (negb (shownIsVideo v)); [done|].
  destruct vr.
  - by destruct (negb (playing (props w)) || isReady (st_incoming (state w))).
  - by destruct (negb (playing (props w))).
Qed.

Theorem reconcile_core w : core (reconcile vr w) = core w.
Proof.
  unfold reconcile.
  repeat (etrans;
          [apply when_core; intros;
           first [ apply probeCleanup_core | apply timerCleanup_core
                 | apply tickCleanup_core | apply probeRun_core
                 | apply commitRun_core | apply tickRun_core
                 | apply videoRun_core ]|]).
  done.
Qed.

Lemma mount_state p t : state (mount vr p t) = initialState.
Proof. exact (core_state _ _ (reconcile_core _)). Qed.

Lemma mount_props p t : props (mount vr p t) = p.
Proof. exact (core_props _ _ (reconcile_core _)). Qed.

Lemma reachable_run tr w :
  reachable vr w -> admissibleRun vr tr w -> reachable vr (run vr tr w).
Proof.
  revert w. induction tr as [|[t e] tr IH]; intros w Hw Ha; [done|].
  destruct Ha as [Ha Hr]. simpl. apply IH; [|done].
  by apply reachable_step.
Qed.

End Reachable.

(** * What a callback does to the staging history, the effect slots and
      the shown video *)

Lemma Quiet_eq w w' : outputs w' = outputs w -> Quiet w w'.
Proof. intros H. exists []. split; [done | apply not_elem_of_nil]. Qed.

Lemma Quiet_trans w1 w2 w3 : Quiet w1 w2 -> Quiet w2 w3 -> Quiet w1 w3.
Proof.
  intros (n1 & E1 & H1) (n2 & E2 & H2). exists (n2 ++ n1). split.
  - unfold emitted in *. by rewrite E2, E1, app_assoc.
  - rewrite elem_of_app. tauto.
Qed.

Lemma Calm_eq w w' :
  cycles w' = cycles w -> effects w' = effects w -> outputs w' = outputs w ->
  Calm w w'.
Proof.
  intros H1 H2 H3. split_and!; [|done|by apply Quiet_eq].
  unfold stagings. by rewrite H1.
Qed.

Lemma Calm_refl w : Calm w w.
Proof. by apply Calm_eq. Qed.

Lemma Calm_trans w1 w2 w3 : Calm w1 w2 -> Calm w2 w3 -> Calm w1 w3.
Proof.
  intros (A1 & B1 & C1) (A2 & B2 & C2). split_and!.
  - by rewrite A2.
  - by rewrite B2.
  - by eapply Quiet_trans.
Qed.

Lemma Calm_noteReady t w : Calm w (noteReady t w).
Proof.
  unfold noteReady. destruct (cycles w) eqn:E.
  - split_and!; [|done|by apply Quiet_eq]. unfold stagings. simpl. by rewrite E.
  - split_and!; [|done|by apply Quiet_eq]. unfold stagings. simpl. by rewrite E.
Qed.

Lemma Calm_noteCommit t i w : Calm w (noteCommit t i w).
Proof.
  unfold noteCommit. destruct (cycles w) eqn:E.
  - split_and!; [|done|by apply Quiet_eq]. unfold stagings. simpl. by rewrite E.
  - split_and!; [|done|by apply Quiet_eq]. unfold stagings. simpl. by rewrite E.
Qed.

Lemma Calm_setStage pid s w : Calm w (setStage pid s w).
Proof.
  unfold setStage. destruct (probes w !! pid); [by apply Calm_eq|].
  apply Calm_refl.
Qed.

Lemma Calm_emit o w : o <> OVideo ActiveVideo Play -> Calm w (emit o w).
Proof.
  intros Ho. split_and!; [done|done|]. exists [o]. split; [done|].
  rewrite list_elem_of_singleton. congruence.
Qed.

Lemma Calm_emitAll os w :
  OVideo ActiveVideo Play ∉ os -> Calm w (emitAll os w).
Proof.
  revert w. induction os as [|o os IH]; intros w Hos; [apply Calm_refl|].
  apply not_elem_of_cons in Hos as [Ho Hos]. simpl.
  apply (Calm_trans _ (emit o w)); [apply Calm_emit; by intros -> | by apply IH].
Qed.

Lemma Calm_clearTimeout h w : Calm w (clearTimeout h w).
Proof. by apply Calm_eq. Qed.

Lemma Calm_setTimeout cb d w : Calm w (setTimeout cb d w).2.
Proof. by apply Calm_eq. Qed.

Section CalmFacts.
Variable vr : EngineVariant.

Lemma Calm_markReadyW pid w : Calm w (markReadyW vr pid w).
Proof.
  unfold markReadyW. destruct (probes w !! pid) as [pr|]; [|apply Calm_refl].
  destruct (cancelled pr); [apply Calm_refl|].
  set (w1 := match vr with Plain => _ | Defensive => _ end).
  assert (Calm w w1) as H1.
  { subst w1. destruct vr; [apply Calm_refl | apply Calm_clearTimeout]. }
  clearbody w1. cbv zeta.
  set (w2 := if flips (state w1) then _ else _).
  assert (Calm w1 w2) as H2.
  { subst w2. destruct (flips (state w1));
      [apply Calm_noteReady | apply Calm_refl]. }
  clearbody w2.
  eapply Calm_trans; [exact H1|]. eapply Calm_trans; [exact H2|].
  by apply Calm_eq.
Qed.

Lemma Calm_finishVideo pid cmds w :
  OVideo ActiveVideo Play ∉ cmds -> Calm w (finishVideo vr pid cmds w).
Proof.
  intros Hc. unfold finishVideo.
  destruct (probes w !! pid) as [pr|]; [|apply Calm_refl].
  assert (Calm w (markReadyW vr pid
                    (emitAll cmds (setStage pid ProbeDone w)))) as H.
  { eapply Calm_trans; [apply Calm_setStage|].
    eapply Calm_trans; [by apply Calm_emitAll|]. apply Calm_markReadyW. }
  destruct vr; [|done].
  eapply Calm_trans; [exact H | apply Calm_clearTimeout].
Qed.

Lemma Calm_videoReady pid w : Calm w (videoReady vr pid w).
Proof.
  unfold videoReady.
  destruct (stage <$> probes w !! pid) as [[]|]; try apply Calm_refl.
  eapply Calm_trans; [|apply Calm_setStage].
  apply Calm_emitAll.
  destruct vr; rewrite !not_elem_of_cons; split_and!; try done;
    apply not_elem_of_nil.
Qed.

Lemma lastCmds_quiet : OVideo ActiveVideo Play ∉ lastCmds.
Proof.
  unfold lastCmds. rewrite !not_elem_of_cons. split_and!; try done.
  apply not_elem_of_nil.
Qed.

Lemma Calm_onPlaySettled pid ok w : Calm w (onPlaySettled vr pid ok w).
Proof.
  unfold onPlaySettled.
  destruct (stage <$> probes w !! pid) as [[]|]; try apply Calm_refl.
  destruct (match vr with Defensive => true | Plain => ok end).
  - simpl. eapply Calm_trans; [|apply Calm_setStage].
    apply (Calm_setTimeout (CbFirstFrame pid) (firstFrameMs vr) w).
  - apply Calm_finishVideo, not_elem_of_nil.
Qed.

Lemma Calm_onFirstFrame pid w : Calm w (onFirstFrame vr pid w).
Proof.
  unfold onFirstFrame.
  destruct (stage <$> probes w !! pid) as [[]|]; try apply Calm_refl.
  eapply Calm_trans; [|apply Calm_finishVideo, lastCmds_quiet].
  case_match; [apply Calm_clearTimeout | apply Calm_refl].
Qed.

Lemma Calm_onFirstFrameTimeout pid w :
  Calm w (onFirstFrameTimeout vr pid w).
Proof.
  unfold onFirstFrameTimeout.
  destruct (stage <$> probes w !! pid) as [[]|]; try apply Calm_refl.
  apply Calm_finishVideo, lastCmds_quiet.
Qed.

Lemma Calm_onVideoSignal pid s w : Calm w (onVideoSignal vr pid s w).
Proof.
  pose proof (Calm_videoReady pid w) as Hv.
  pose proof (Calm_finishVideo pid [] w (not_elem_of_nil _)) as Hf.
  unfold onVideoSignal. destruct vr, s; try done; try apply Calm_refl.
  destruct (stage <$> probes w !! pid) as [[]|]; try done;
    apply Calm_refl.
Qed.

(** The callbacks of the probe, the double click and a change of
    settings neither stage nor touch the shown video. *)
Lemma Calm_probe_events e w :
  match e with
  | EvTimer _ | EvVideoEnded | EvSettings _ _ _ _ => False
  | _ => True
  end ->
  Calm w (handle vr e w).
Proof.
  destruct e; simpl; try done; intros _.
  - unfold onImgLoad. destruct (stage <$> probes w !! pid) as [[]|];
      try apply Calm_refl. apply Calm_setStage.
  - unfold onImgError. destruct (stage <$> probes w !! pid) as [[]|];
      try apply Calm_refl.
    eapply Calm_trans; [apply Calm_setStage | apply Calm_markReadyW].
  - unfold onAnimationFrame.
    destruct (stage <$> probes w !! pid) as [[]|]; try apply Calm_refl.
    + apply Calm_setStage.
    + eapply Calm_trans; [apply Calm_setStage | apply Calm_markReadyW].
  - apply Calm_onVideoSignal.
  - apply Calm_onPlaySettled.
  - apply Calm_onFirstFrame.
  - unfold onProbeThrow.
    destruct (stage <$> probes w !! pid) as [[]|]; try apply Calm_refl;
      apply Calm_finishVideo, not_elem_of_nil.
  - by apply Calm_emit.
Qed.

Lemma Calm_callback cb w :
  kindOf cb <> KTick -> cb <> CbPlay -> Calm w (runCallback vr cb w).
Proof.
  intros Hk Hp. destruct cb; simpl; try done.
  - apply Calm_markReadyW.
  - unfold commitW. eapply Calm_trans; [|apply Calm_noteCommit].
    by apply Calm_eq.
  - apply Calm_videoReady.
  - apply Calm_onFirstFrameTimeout.
Qed.

Lemma stageW_frame req w :
  effects (stageW req w) = effects w /\ outputs (stageW req w) = outputs w.
Proof. by destruct req. Qed.

Lemma onTick_frame c ms w :
  effects (onTick c ms w) = effects w /\ outputs (onTick c ms w) = outputs w.
Proof.
  unfold onTick.
  destruct (bool_decide (c_incoming c = None) && _); simpl; [|done].
  apply stageW_frame.
Qed.

Theorem effects_handle e w : effects (handle vr e w) = effects w.
Proof.
  destruct e; try (by apply Calm_probe_events).
  - simpl. destruct (timers w !! tid) as [tm|]; [|done].
    destruct (callback tm) as [pid|i|c ms| |pid|pid] eqn:Hcb;
      try (by apply (Calm_callback _ (clearTimeout tid w))).
    + apply (onTick_frame c ms (clearTimeout tid w)).
    + done.
  - cbn [handle].
    destruct (shownIsVideo (render (props w) (st_idx (state w))));
      [apply stageW_frame | done].
  - done.
Qed.

Theorem Quiet_handle e w :
  (forall tid tm, e = EvTimer tid -> timers w !! tid = Some tm ->
                  callback tm <> CbPlay) ->
  Quiet w (handle vr e w).
Proof.
  intros Hp. destruct e; try (by apply Calm_probe_events).
  - simpl. destruct (timers w !! tid) as [tm|] eqn:Htm;
      [|by apply Quiet_eq].
    specialize (Hp tid tm eq_refl Htm).
    destruct (callback tm) as [pid|i|c ms| |pid|pid] eqn:Hcb;
      try (by apply (Calm_callback _ (clearTimeout tid w))).
    apply Quiet_eq. apply (onTick_frame c ms (clearTimeout tid w)).
  - cbn [handle]. apply Quiet_eq.
    destruct (shownIsVideo (render (props w) (st_idx (state w))));
      [apply stageW_frame | done].
  - by apply Quiet_eq.
Qed.

Lemma no_tick_while_pending w :
  Inv vr w -> st_incoming (state w) <> None -> NoTimers KTick w.
Proof.
  intros HI Hinc tid tm Htm Hk.
  destruct (base_timers _ (inv_base _ _ HI) _ _ Htm) as (_ & _ & Hown).
  destruct (callback tm); try done.
  destruct Hown as (_ & Hreg & _).
  destruct (inv_tick _ _ HI) as (d & reg & S4 & _ & L4).
  unfold tickRegistered in Hreg. rewrite S4 in Hreg. simpl in Hreg.
  rewrite (L4 Hinc) in Hreg. done.
Qed.

Lemma stagings_handle_pending e w :
  Inv vr w -> st_incoming (state w) <> None ->
  stagings (handle vr e w) = stagings w.
Proof.
  intros HI Hinc.
  destruct e; try (by apply Calm_probe_events).
  - simpl. destruct (timers w !! tid) as [tm|] eqn:Htm; [|done].
    pose proof (no_tick_while_pending w HI Hinc _ _ Htm) as Hk.
    destruct (callback tm) as [pid|i|c ms| |pid|pid] eqn:Hcb;
      try (by apply (Calm_callback _ (clearTimeout tid w))); done.
  - cbn [handle].
    destruct (shownIsVideo (render (props w) (st_idx (state w)))); [|done].
    destruct (st_incoming (state w)) as [inc|] eqn:Einc; [|done].
    unfold handleVideoEnded. simpl. rewrite Einc.
    by destruct (negb (playing (props w))).
  - done.
Qed.

Lemma stagings_core w w' : core w' = core w -> stagings w' = stagings w.
Proof. intros H. unfold stagings. by rewrite (core_cycles _ _ H). Qed.

Theorem stagings_step_pending t e w :
  Inv vr w -> admissible w t e -> st_incoming (state w) <> None ->
  stagings (step vr t e w) = stagings w.
Proof.
  intros HI (Hle & Hdue & _) Hinc. unfold step.
  rewrite (stagings_core _ _ (reconcile_core vr _)).
  rewrite stagings_handle_pending; try done.
  by apply Inv_set_now.
Qed.

End CalmFacts.

(** * What a render does to the shown video *)

Lemma Quiet_when r f w :
  (forall w0, Quiet w0 (f w0)) -> Quiet w (when r f w).
Proof. intros H. destruct r; simpl; [apply H | by apply Quiet_eq]. Qed.

Lemma Quiet_emit o w : o <> OVideo ActiveVideo Play -> Quiet w (emit o w).
Proof. intros H. by apply Calm_emit. Qed.

Lemma Quiet_probeCleanup cl w : Quiet w (probeCleanup cl w).
Proof.
  apply Quiet_eq. unfold probeCleanup. destruct cl as [pid|]; [|done].
  by destruct (probes w !! pid).
Qed.

Lemma Quiet_timerCleanup cl w : Quiet w (timerCleanup cl w).
Proof. apply Quiet_eq. by destruct cl. Qed.

Lemma Quiet_tickCleanup reg w : Quiet w (tickCleanup reg w).
Proof.
  apply Quiet_eq. unfold tickCleanup. destruct reg; [|done].
  simpl. by destruct (timerRef w).
Qed.

Lemma Quiet_probeRun vr v d w : Quiet w (probeRun vr v d w).
Proof.
  unfold probeRun, probeBody.
  destruct (st_incoming (state w)) as [inc|]; [|by apply Quiet_eq].
  destruct (type (item inc)); [by apply Quiet_eq|].
  destruct (shownItem v); [|by apply Quiet_eq].
  destruct vr; simpl; exists [OVideo IncomingVideo Load];
    (split; [done|]); rewrite list_elem_of_singleton; congruence.
Qed.

Lemma Quiet_commitRun vr v d w : Quiet w (commitRun vr v d w).
Proof.
  unfold commitRun, commitBody.
  destruct (st_incoming (state w)) as [inc|]; [|by apply Quiet_eq].
  destruct (ready inc); [|by apply Quiet_eq].
  destruct vr; [|by apply Quiet_eq].
  destruct (shownIsVideo v); [|by apply Quiet_eq].
  simpl. exists [OVideo ActiveVideo Pause]. split; [done|].
  rewrite list_elem_of_singleton. congruence.
Qed.

Lemma Quiet_tickRun v d w : Quiet w (tickRun v d w).
Proof.
  apply Quiet_eq. unfold tickRun, tickBody.
  destruct (negb (playing (props w)) || negb (shownIsImage v)); [done|].
  destruct ((safeLen v =? 0) || (safeLen v <=? 1)); [done|].
  by destruct (st_incoming (state w)).
Qed.

(** The [Defensive] version never calls [play()] on the shown video from
    an effect: it defers the call to a timer. *)
Lemma Quiet_videoRun v d w : Quiet w (videoRun Defensive v d w).
Proof.
  unfold videoRun, videoBody.
  destruct (negb (shownIsVideo v)); [by apply Quiet_eq|].
  destruct (negb (playing (props w)) || isReady (st_incoming (state w)));
    [|by apply Quiet_eq].
  simpl. exists [OVideo ActiveVideo Pause]. split; [done|].
  rewrite list_elem_of_singleton. congruence.
Qed.

Lemma Paused_l w w1 w2 : Quiet w w1 -> Paused w1 w2 -> Paused w w2.
Proof.
  intros (n1 & E1 & _) (n2 & E2 & H2). exists (n2 ++ n1). split.
  - unfold emitted in *. by rewrite E2, E1, app_assoc.
  - rewrite elem_of_app. by left.
Qed.

Lemma Paused_r w w1 w2 : Paused w w1 -> Quiet w1 w2 -> Paused w w2.
Proof.
  intros (n1 & E1 & H1) (n2 & E2 & _). exists (n2 ++ n1). split.
  - unfold emitted in *. by rewrite E2, E1, app_assoc.
  - rewrite elem_of_app. by right.
Qed.

Lemma Paused_commitRun v d w inc :
  st_incoming (state w) = Some inc -> ready inc = true ->
  shownIsVideo v = true -> Paused w (commitRun Defensive v d w).
Proof.
  intros Einc Er Hv. unfold commitRun, commitBody.
  rewrite Einc, Er, Hv. simpl. exists [OVideo ActiveVideo Pause].
  split; [done|]. by apply list_elem_of_singleton.
Qed.

Lemma Quiet_cleanups r2 r3 r4 r5 c2 c3 c4 c5 w :
  let w' :=
    when r5 (timerCleanup c5)
      (when r4 (tickCleanup c4)
         (when r3 (timerCleanup c3) (when r2 (probeCleanup c2) w))) in
  Quiet w w' /\ core w' = core w.
Proof.
  split.
  - eapply Quiet_trans;
      [apply Quiet_when; intros; apply Quiet_probeCleanup|].
    eapply Quiet_trans;
      [apply Quiet_when; intros; apply Quiet_timerCleanup|].
    eapply Quiet_trans;
      [apply Quiet_when; intros; apply Quiet_tickCleanup|].
    apply Quiet_when; intros; apply Quiet_timerCleanup.
  - repeat (etrans;
            [apply when_core; intros;
             first [ apply probeCleanup_core | apply timerCleanup_core
                   | apply tickCleanup_core ]|]).
    done.
Qed.

Theorem Quiet_reconcile w : Quiet w (reconcile Defensive w).
Proof.
  unfold reconcile.
  eapply Quiet_trans; [apply Quiet_cleanups|].
  eapply Quiet_trans; [apply Quiet_when; intros; apply Quiet_probeRun|].
  eapply Quiet_trans; [apply Quiet_when; intros; apply Quiet_commitRun|].
  eapply Quiet_trans; [apply Quiet_when; intros; apply Quiet_tickRun|].
  apply Quiet_when; intros; apply Quiet_videoRun.
Qed.

Theorem Paused_reconcile w inc :
  staleCommit Defensive w = true ->
  st_incoming (state w) = Some inc -> ready inc = true ->
  shownIsVideo (viewOf w) = true ->
  Paused w (reconcile Defensive w).
Proof.
  intros Hst Einc Er Hv. unfold reconcile.
  fold (viewOf w). fold (staleCommit Defensive w). rewrite Hst.
  set (r2 := stale decEqb (probeEffect (effects w)) (probeDeps w)).
  set (r4 := stale tickDeps_eqb _ _). set (r5 := stale decEqb (videoEffect _) _).
  match goal with
  | |- context [when r2 ?f ?x] => set (wa := when r2 f x)
  end.
  assert (Quiet w wa /\ core wa = core w) as [Hq Hc].
  { subst wa. split.
    - eapply Quiet_trans; [apply Quiet_cleanups|].
      apply Quiet_when; intros; apply Quiet_probeRun.
    - etrans; [apply when_core; intros; apply probeRun_core|].
      apply Quiet_cleanups. }
  clearbody wa. simpl when at 3.
  eapply Paused_l; [exact Hq|].
  eapply Paused_r.
  - eapply Paused_commitRun; [|exact Er|exact Hv].
    by rewrite (core_state _ _ Hc).
  - eapply Quiet_trans; [apply Quiet_when; intros; apply Quiet_tickRun|].
    apply Quiet_when; intros; apply Quiet_videoRun.
Qed.

Lemma emitted_both w w' :
  Quiet w w' -> Paused w w' ->
  exists new, emitted w w' new /\ OVideo ActiveVideo Pause ∈ new
              /\ OVideo ActiveVideo Play ∉ new.
Proof.
  intros (n1 & E1 & H1) (n2 & E2 & H2). exists n1. split_and!; try done.
  unfold emitted in *. rewrite E1 in E2. apply app_inv_tail in E2.
  by subst.
Qed.

(** * Statements about the running component *)

Section Claims.
Variable vr : EngineVariant.

Lemma step_state t e w :
  state (step vr t e w) = state (handle vr e (set_now t w)).
Proof. exact (core_state _ _ (reconcile_core vr _)). Qed.

Lemma History_cycle w c :
  Inv vr w -> c ∈ cycles w ->
  complete vr c \/
  exists inc r,
    st_incoming (state w) = Some inc /\ cycles w = c :: r
    /\ commits c = [] /\ idx (stagedAs c) = idx inc
    /\ item (stagedAs c) = item inc /\ staged c <= now w
    /\ if ready inc then
         exists t1, readyAt c = [t1] /\ t1 <= now w
                    /\ staged c <= t1 <= deadline vr c
       else readyAt c = [].
Proof.
  intros HI Hc. destruct (inv_history _ _ HI) as [_ HH].
  destruct (st_incoming (state w)) as [inc|].
  - destruct HH as (c0 & r & Hcyc & Hr & Hcom & Hidx & Hitem & Hst & Hrd).
    rewrite Hcyc in Hc. apply elem_of_cons in Hc as [->|Hc].
    + right. exists inc, r. split_and!; try done.
      unfold deadline. rewrite Hitem. done.
    + left. rewrite Forall_forall in Hr. by apply Hr.
  - left. rewrite Forall_forall in HH. by apply HH.
Qed.

Lemma fallback_fires w t tid pid pr inc d :
  timers w !! tid = Some (mkTimer d (CbFallback pid)) ->
  probes w !! pid = Some pr -> cancelled pr = false ->
  st_incoming (state w) = Some inc ->
  isReady (st_incoming (state (step vr t (EvTimer tid) w))) = true.
Proof.
  intros Htm Hpr Hc Einc. rewrite step_state. cbn [handle].
  change (timers (set_now t w)) with (timers w). rewrite Htm. simpl.
  by eapply markReadyW_ready.
Qed.

Lemma finishVideo_ready pid pr cmds w inc :
  probes w !! pid = Some pr -> cancelled pr = false ->
  st_incoming (state w) = Some inc ->
  isReady (st_incoming (state (finishVideo vr pid cmds w))) = true.
Proof.
  intros Hpr Hc Einc. unfold finishVideo. rewrite Hpr.
  assert (isReady (st_incoming (state
            (markReadyW vr pid (emitAll cmds (setStage pid ProbeDone w)))))
          = true) as H.
  { destruct (emitAll_fields cmds (setStage pid ProbeDone w)) as [Ep Es].
    eapply markReadyW_ready.
    - rewrite Ep. by apply setStage_lookup.
    - done.
    - rewrite Es. unfold setStage. rewrite Hpr. exact Einc. }
  by destruct vr.
Qed.

Lemma failure_ready w t e pid pr inc :
  probes w !! pid = Some pr -> cancelled pr = false ->
  st_incoming (state w) = Some inc ->
  failureSignal pid (stage pr) e ->
  isReady (st_incoming (state (step vr t e w))) = true.
Proof.
  intros Hpr Hc Einc Hf. rewrite step_state.
  assert (probes (set_now t w) !! pid = Some pr) as Hpr' by done.
  assert (st_incoming (state (set_now t w)) = Some inc) as Einc' by done.
  inversion Hf as [Hs|Hs|Hs|t0 Hs]; subst e; cbn [handle].
  - unfold onImgError. rewrite Hpr'. simpl. rewrite <- Hs.
    eapply markReadyW_ready.
    + by apply setStage_lookup.
    + done.
    + unfold setStage. by rewrite Hpr'.
  - unfold onProbeThrow. rewrite Hpr'. simpl. rewrite <- Hs.
    by eapply finishVideo_ready.
  - unfold onProbeThrow. rewrite Hpr'. simpl. rewrite <- Hs.
    by eapply finishVideo_ready.
  - unfold onProbeThrow. rewrite Hpr'. simpl. rewrite <- Hs.
    by eapply finishVideo_ready.
Qed.

Lemma commit_fires w t h d i :
  timers w !! h = Some (mkTimer d (CbCommit i)) ->
  state (step vr t (EvTimer h) w) = mkEngineState i None.
Proof.
  intros Htm. rewrite step_state. cbn [handle].
  change (timers (set_now t w)) with (timers w). rewrite Htm. simpl.
  unfold commitW, noteCommit. simpl. by destruct (cycles w).
Qed.

Lemma admissible_due w t e tid tm :
  admissible w t e -> timers w !! tid = Some tm -> t <= due tm.
Proof. intros (_ & Hall & _) Htm. exact (Hall _ _ Htm). Qed.

End Claims.

(** ** Readiness *)

(** C2: every staged incoming is marked ready within the timeout of its
    kind.  In a reachable state, every readiness on record happened
    between staging and the deadline; while an incoming is not ready, the
    deadline has not passed and cannot pass (the fallback timer of the
    current probe is pending, due exactly at the deadline), the firing of
    that timer marks the incoming ready, and so does a load error of the
    image or an exception in the video pipeline.  The timeouts are within
    2000ms for an image and 4500ms (+350ms) for a video. *)
Theorem readiness_within_timeout (vr : EngineVariant) (w : World) :
  reachable vr w ->
  (forall k, timeoutMs vr k
             <= match k with image => 2000 | video => 4500 + 350 end)
  /\ (forall c t1, c ∈ cycles w -> t1 ∈ readyAt c ->
                   staged c <= t1 <= deadline vr c)
  /\ (forall inc,
        st_incoming (state w) = Some inc -> ready inc = false ->
        exists c r pid pr,
          cycles w = c :: r /\ item (stagedAs c) = item inc
          /\ now w <= deadline vr c
          /\ (forall t e, admissible w t e -> t <= deadline vr c)
          /\ currentProbe w = Some pid /\ probes w !! pid = Some pr
          /\ timers w !! fallback pr
             = Some (mkTimer (deadline vr c) (CbFallback pid))
          /\ (forall t,
                isReady (st_incoming
                           (state (step vr t (EvTimer (fallback pr)) w)))
                = true)
          /\ (forall t e,
                failureSignal pid (stage pr) e ->
                isReady (st_incoming (state (step vr t e w))) = true)).
Proof.
  intros Hr. pose proof (reachable_Inv vr w Hr) as HI. split_and!.
  - intros []; destruct vr; simpl; lia.
  - intros c t1 Hc Ht.
    destruct (History_cycle vr w c HI Hc)
      as [(t & Hra & _ & Hb)|(inc & r & _ & _ & _ & _ & _ & _ & Hrd)].
    + rewrite Hra in Ht. apply list_elem_of_singleton in Ht as ->. exact Hb.
    + destruct (ready inc).
      * destruct Hrd as (t & Hra & _ & Hb). rewrite Hra in Ht.
        apply list_elem_of_singleton in Ht as ->. exact Hb.
      * rewrite Hrd in Ht. by apply not_elem_of_nil in Ht.
  - intros inc Einc Er.
    destruct (inv_probe _ _ HI) as (cl & S2 & L2). rewrite Einc in L2.
    destruct L2 as (pid & pr & -> & Hpr & Hc & Hfb).
    destruct (Hfb Er) as (c & r & Hcyc & Htm).
    destruct (inv_history _ _ HI) as [_ HH]. rewrite Einc in HH.
    destruct HH as (c0 & r0 & Hcyc0 & _ & _ & _ & Hitem & _).
    rewrite Hcyc in Hcyc0. injection Hcyc0 as <- <-.
    assert (deadline vr c = staged c + timeoutMs vr (type (item inc))) as Hd.
    { unfold deadline. by rewrite Hitem. }
    rewrite <- Hd in Htm.
    exists c, r, pid, pr. split_and!; try done.
    + destruct (base_timers _ (inv_base _ _ HI) _ _ Htm) as (_ & Hnow & _).
      exact Hnow.
    + intros t e Ha. exact (admissible_due w t e _ _ Ha Htm).
    + unfold currentProbe. by rewrite S2.
    + intros t. by eapply fallback_fires.
    + intros t e Hf. by eapply failure_ready.
Qed.

Lemma demoStaged_reachable : reachable Defensive demoStaged.
Proof.
  apply reachable_run; [apply reachable_mount|].
  apply (bool_decide_unpack _). vm_compute. exact I.
Qed.

Lemma demoLoading_reachable : reachable Defensive demoLoading.
Proof.
  apply reachable_run; [apply demoStaged_reachable|].
  apply (bool_decide_unpack _). vm_compute. exact I.
Qed.

Lemma demoReady_reachable : reachable Defensive demoReady.
Proof.
  apply reachable_step; [apply demoLoading_reachable|].
  apply (bool_decide_unpack _). vm_compute. exact I.
Qed.

Lemma readiness_within_timeout_witness :
  exists c r pid pr,
    cycles demoStaged = c :: r /\ item (stagedAs c) = item (demoIncoming false)
    /\ now demoStaged <= deadline Defensive c
    /\ (forall t e, admissible demoStaged t e -> t <= deadline Defensive c)
    /\ currentProbe demoStaged = Some pid
    /\ probes demoStaged !! pid = Some pr
    /\ timers demoStaged !! fallback pr
       = Some (mkTimer (deadline Defensive c) (CbFallback pid))
    /\ (forall t,
          isReady (st_incoming
                     (state (step Defensive t (EvTimer (fallback pr))
                               demoStaged)))
          = true)
    /\ (forall t e,
          failureSignal pid (stage pr) e ->
          isReady (st_incoming (state (step Defensive t e demoStaged)))
          = true).
Proof.
  destruct (readiness_within_timeout Defensive demoStaged
              demoStaged_reachable) as (_ & _ & H).
  apply (H (demoIncoming false)).
  - vm_compute. reflexivity.
  - reflexivity.
Defined.

(** ** Commit *)

(** C3: one commit per ready incoming, 560ms after readiness.  In a
    reachable state no commit or readiness is on record outside a staged
    incoming, and a staged incoming on record with readiness time [t1] has
    either been committed exactly once, at [t1 + 560] and to its staged
    position, or it is the current incoming, not committed yet: then its
    commit timer is pending, due at [t1 + 560], that time has not passed
    and cannot pass, and the firing of the timer sets the shown position
    to the incoming position and clears the incoming.  Nothing is
    committed that was not ready. *)
Theorem one_commit_after_hold (vr : EngineVariant) (w : World) :
  reachable vr w ->
  strays w = []
  /\ (forall c t1,
        c ∈ cycles w -> t1 ∈ readyAt c ->
        commits c = [(t1 + 560, idx (stagedAs c))]
        \/ (commits c = [] /\
            exists inc r h,
              cycles w = c :: r /\ st_incoming (state w) = Some inc
              /\ ready inc = true /\ idx (stagedAs c) = idx inc
              /\ timers w !! h
                 = Some (mkTimer (t1 + 560) (CbCommit (idx inc)))
              /\ now w <= t1 + 560
              /\ (forall t e, admissible w t e -> t <= t1 + 560)
              /\ (forall t,
                    state (step vr t (EvTimer h) w)
                    = mkEngineState (idx inc) None)))
  /\ (forall c, c ∈ cycles w -> commits c <> [] ->
                exists t1, readyAt c = [t1]).
Proof.
  intros Hr. pose proof (reachable_Inv vr w Hr) as HI. split_and!.
  - apply (inv_history _ _ HI).
  - intros c t1 Hc Ht.
    destruct (History_cycle vr w c HI Hc)
      as [(t & Hra & Hcom & _)
         |(inc & r & Einc & Hcyc & Hcom & Hidx & _ & _ & Hrd)].
    + rewrite Hra in Ht. apply list_elem_of_singleton in Ht as ->.
      left. exact Hcom.
    + right. split; [done|].
      destruct (ready inc) eqn:Er;
        [|rewrite Hrd in Ht; by apply not_elem_of_nil in Ht].
      destruct Hrd as (t & Hra & _ & _). rewrite Hra in Ht.
      apply list_elem_of_singleton in Ht as ->.
      destruct (inv_commit _ _ HI) as (cl & S3 & L3).
      rewrite Einc, Er in L3.
      destruct L3 as (h & t1 & c' & r' & -> & Hcyc' & Hra' & Htm).
      rewrite Hcyc in Hcyc'. injection Hcyc' as <- <-.
      rewrite Hra in Hra'. injection Hra' as <-.
      exists inc, r, h. split_and!; try done.
      * destruct (base_timers _ (inv_base _ _ HI) _ _ Htm) as (_ & Hnow & _).
        exact Hnow.
      * intros t' e Ha. exact (admissible_due w t' e _ _ Ha Htm).
      * intros t'. by eapply commit_fires.
  - intros c Hc Hne.
    destruct (History_cycle vr w c HI Hc)
      as [(t & Hra & _ & _)|(inc & r & _ & _ & Hcom & _)].
    + by exists t.
    + by rewrite Hcom in Hne.
Qed.

Lemma one_commit_after_hold_witness :
  exists inc r h,
    cycles demoReady
    = mkCycle 7000 (demoIncoming false) [7030] [] :: r
    /\ st_incoming (state demoReady) = Some inc
    /\ ready inc = true /\ 1 = idx inc
    /\ timers demoReady !! h
       = Some (mkTimer (7030 + 560) (CbCommit (idx inc)))
    /\ now demoReady <= 7030 + 560
    /\ (forall t e, admissible demoReady t e -> t <= 7030 + 560)
    /\ (forall t,
          state (step Defensive t (EvTimer h) demoReady)
          = mkEngineState (idx inc) None).
Proof.
  destruct (one_commit_after_hold Defensive demoReady demoReady_reachable)
    as (_ & H & _).
  destruct (H (mkCycle 7000 (demoIncoming false) [7030] []) 7030)
    as [Hc|[_ Hc]].
  - vm_compute. constructor.
  - constructor.
  - discriminate Hc.
  - exact Hc.
Defined.

(** ** One incoming at a time *)

(** C1: a stage request while an incoming is pending is dropped.  The
    three stage functions return without calling [setIncoming] when the
    incoming they close over is not null.  In a reachable state with an
    incoming, the closure of the video-ended handler holds that incoming,
    no advance timer is pending, and no event stages: the staging history
    is the same after the event, and an incoming present after the event
    is the one present before it. *)
Theorem stage_request_dropped_while_pending (vr : EngineVariant) (w : World)
  (t : Z) (e : Event) :
  reachable vr w -> st_incoming (state w) <> None -> admissible w t e ->
  (forall c n,
     c_incoming c <> None ->
     scheduleNext c n = None /\ goNext c = None /\ handleVideoEnded c = None
     /\ forall st, applyStage (scheduleNext c n) st = st)
  /\ handleVideoEnded (closureOf (props w) (state w)) = None
  /\ (forall tid tm, timers w !! tid = Some tm ->
                     kindOf (callback tm) <> KTick)
  /\ stagings (step vr t e w) = stagings w
  /\ (forall inc',
        st_incoming (state (step vr t e w)) = Some inc' ->
        exists inc, st_incoming (state w) = Some inc
                    /\ idx inc' = idx inc /\ item inc' = item inc).
Proof.
  intros Hr Hinc Ha. pose proof (reachable_Inv vr w Hr) as HI.
  pose proof (stagings_step_pending vr t e w HI Ha Hinc) as Hs.
  split_and!.
  - intros c n Hc. split_and!.
    + by apply scheduleNext_pending.
    + by apply goNext_pending.
    + by apply handleVideoEnded_pending.
    + intros st. by rewrite scheduleNext_pending.
  - by apply handleVideoEnded_pending.
  - by apply (no_tick_while_pending vr).
  - exact Hs.
  - intros inc' Einc'.
    pose proof (step_Inv vr w t e HI Ha) as HI'.
    destruct (inv_history _ _ HI') as [_ HH']. rewrite Einc' in HH'.
    destruct HH' as (c' & r' & Hcyc' & _ & _ & Hidx' & Hitem' & _).
    destruct (inv_history _ _ HI) as [_ HH].
    destruct (st_incoming (state w)) as [inc|]; [|done].
    destruct HH as (c & r & Hcyc & _ & _ & Hidx & Hitem & _).
    unfold stagings in Hs. rewrite Hcyc, Hcyc' in Hs. simpl in Hs.
    injection Hs as _ Hst _.
    exists inc. split_and!; [done|congruence|congruence].
Qed.

Lemma stage_request_dropped_while_pending_witness :
  handleVideoEnded (closureOf (props demoStaged) (state demoStaged)) = None
  /\ stagings (step Defensive 7000 EvVideoEnded demoStaged)
     = stagings demoStaged.
Proof.
  destruct (stage_request_dropped_while_pending Defensive demoStaged 7000
              EvVideoEnded demoStaged_reachable)
    as (_ & H1 & _ & H2 & _).
  - vm_compute. discriminate.
  - apply (bool_decide_unpack _). vm_compute. exact I.
  - split; [exact H1 | exact H2].
Defined.

(** ** The readiness flag *)

(** C9: the readiness flag goes from false to true at most once.
    [markReady] changes the state only where an incoming exists that is
    not ready, and there it sets the flag and nothing else; whatever the
    state, a second call changes nothing; a call from a cancelled probe
    changes nothing.  In a reachable state every probe but the current
    one is cancelled, a ready signal that finds the incoming ready leaves
    the engine state and the history alone, and no staged incoming on
    record was marked ready more than once. *)
Theorem readiness_flag_monotone (vr : EngineVariant) (w : World) :
  reachable vr w ->
  (forall cancelled st,
     st_incoming st = None -> markReady cancelled st = st)
  /\ (forall cancelled st,
        isReady (st_incoming st) = true -> markReady cancelled st = st)
  /\ (forall st, markReady true st = st)
  /\ (forall st inc,
        st_incoming st = Some inc -> ready inc = false ->
        markReady false st
        = mkEngineState (st_idx st)
            (Some (mkIncoming (idx inc) (item inc) (key inc) true)))
  /\ (forall cancelled st,
        markReady cancelled (markReady false st) = markReady false st)
  /\ (forall pid pr,
        probes w !! pid = Some pr -> cancelled pr = true ->
        markReadyW vr pid w = w)
  /\ (forall pid pr,
        probes w !! pid = Some pr -> currentProbe w <> Some pid ->
        cancelled pr = true)
  /\ (forall pid,
        isReady (st_incoming (state w)) = true ->
        state (markReadyW vr pid w) = state w
        /\ cycles (markReadyW vr pid w) = cycles w)
  /\ (forall c, c ∈ cycles w -> (length (readyAt c) <= 1)%nat).
Proof.
  intros Hr. pose proof (reachable_Inv vr w Hr) as HI.
  assert (forall cancelled st,
            isReady (st_incoming st) = true -> markReady cancelled st = st)
    as Hready.
  { intros [] st H; [done|]. by apply markReady_ready. }
  split_and!.
  - intros [] st H; [done|]. unfold markReady. rewrite H. simpl.
    rewrite <- H. apply markReady_state_eta.
  - exact Hready.
  - done.
  - intros st inc Einc Er. unfold markReady. by rewrite Einc; simpl; rewrite Er.
  - intros cancelled st.
    destruct (st_incoming st) as [inc|] eqn:Einc.
    + apply Hready. unfold markReady. rewrite Einc. simpl.
      by destruct (ready inc) eqn:Er.
    + destruct cancelled; [done|]. unfold markReady. simpl.
      by rewrite Einc.
  - intros pid pr Hpr Hc. unfold markReadyW. by rewrite Hpr, Hc.
  - intros pid pr Hpr Hcur.
    destruct (base_probes _ (inv_base _ _ HI) _ _ Hpr)
      as (_ & _ & _ & _ & _ & Hlive).
    destruct (cancelled pr); [done|]. by destruct Hcur; apply Hlive.
  - intros pid Hrd. unfold markReadyW.
    destruct (probes w !! pid) as [pr|]; [|done].
    destruct (cancelled pr); [done|].
    assert (forall w1, state w1 = state w -> cycles w1 = cycles w ->
              let w2 := if flips (state w1) then noteReady (now w1) w1
                        else w1 in
              state (set_state (markReady false (state w2)) w2) = state w
              /\ cycles (set_state (markReady false (state w2)) w2)
                 = cycles w) as H.
    { intros w1 Hs Hc. unfold flips. rewrite Hs.
      destruct (st_incoming (state w)) as [inc|] eqn:Einc; [|done].
      simpl in Hrd. rewrite Hrd. simpl. rewrite Hs.
      split; [|done]. apply markReady_ready. by rewrite Einc. }
    destruct vr; by apply H.
  - intros c Hc.
    destruct (History_cycle vr w c HI Hc)
      as [(t & Hra & _)|(inc & r & _ & _ & _ & _ & _ & _ & Hrd)].
    + by rewrite Hra.
    + destruct (ready inc).
      * destruct Hrd as (t & Hra & _). by rewrite Hra.
      * rewrite Hrd. simpl. lia.
Qed.

Lemma readiness_flag_monotone_witness :
  state (markReadyW Defensive 2 demoReady) = state demoReady
  /\ cycles (markReadyW Defensive 2 demoReady) = cycles demoReady.
Proof.
  destruct (readiness_flag_monotone Defensive demoReady demoReady_reachable)
    as (_ & _ & _ & _ & _ & _ & _ & H & _).
  apply (H 2%nat). vm_compute. reflexivity.
Defined.

(** ** The shown video during the hold *)

Lemma commit_stale_on_flip w w0 :
  CommitSettled Defensive w -> effects w0 = effects w ->
  isReady (st_incoming (state w)) = false ->
  isReady (st_incoming (state w0)) = true ->
  staleCommit Defensive w0 = true.
Proof.
  intros (cl & S3 & _) He H0 H1. unfold staleCommit. rewrite He, S3. simpl.
  unfold decEqb. rewrite bool_decide_eq_false_2; [done|].
  unfold commitDeps. intros [= Hrd _ _].
  destruct (st_incoming (state w)) as [i|], (st_incoming (state w0)) as [i0|];
    simpl in *; congruence.
Qed.

Lemma no_play_while_ready w :
  Inv Defensive w -> isReady (st_incoming (state w)) = true ->
  forall tid tm, timers w !! tid = Some tm -> callback tm <> CbPlay.
Proof.
  intros HI Hrd tid tm Htm Hcb.
  destruct (base_timers _ (inv_base _ _ HI) _ _ Htm) as (_ & _ & Hown).
  rewrite Hcb in Hown.
  destruct (inv_video _ _ HI) as (cl & S5 & L5).
  unfold videoHandle in Hown. rewrite S5 in Hown. simpl in Hown.
  by rewrite (L5 eq_refl Hrd) in Hown.
Qed.

Lemma Quiet_set_now t w w' : Quiet (set_now t w) w' -> Quiet w w'.
Proof. intros (n & E & H). by exists n. Qed.

(** C8, for the [Defensive] version: the event that makes the incoming
    ready while a video is shown makes the component call [pause()] on
    the shown video, on the spot, with the incoming still in place; and
    from the event that makes the incoming ready on, as long as it is
    ready, no deferred [play()] is pending and no event makes the
    component call [play()] on the shown video. *)
Theorem shown_video_paused_on_readiness (w : World) (t : Z) (e : Event) :
  reachable Defensive w -> admissible w t e ->
  let w' := step Defensive t e w in
  (isReady (st_incoming (state w)) = false ->
   isReady (st_incoming (state w')) = true ->
   shownIsVideo (viewOf w') = true ->
   exists new,
     emitted w w' new /\ OVideo ActiveVideo Pause ∈ new
     /\ OVideo ActiveVideo Play ∉ new)
  /\ (isReady (st_incoming (state w)) = true ->
      (forall tid tm, timers w !! tid = Some tm -> callback tm <> CbPlay)
      /\ exists new, emitted w w' new /\ OVideo ActiveVideo Play ∉ new).
Proof.
  intros Hr Ha w'. pose proof (reachable_Inv _ w Hr) as HI.
  destruct Ha as (Hle & Hdue & He).
  pose proof (Inv_set_now Defensive t w HI Hle Hdue) as HI0.
  set (w0 := handle Defensive e (set_now t w)).
  assert (w' = reconcile Defensive w0) as Hw' by done.
  pose proof (reconcile_core Defensive w0) as Hcore. rewrite <- Hw' in Hcore.
  pose proof (Quiet_reconcile w0) as Hq1. rewrite <- Hw' in Hq1.
  split.
  - intros H0 H1 Hv.
    rewrite (core_state _ _ Hcore) in H1.
    rewrite (core_view _ _ Hcore) in Hv.
    assert (Quiet w w0) as Hq0.
    { apply (Quiet_set_now t), Quiet_handle.
      intros tid tm -> Htm Hcb. subst w0. cbn [handle] in H1.
      rewrite Htm, Hcb in H1. simpl in H1. congruence. }
    assert (staleCommit Defensive w0 = true) as Hst.
    { apply (commit_stale_on_flip w); try done.
      - apply (inv_commit _ _ HI).
      - subst w0. by rewrite effects_handle. }
    destruct (st_incoming (state w0)) as [inc|] eqn:Einc; [|done].
    apply emitted_both.
    + by eapply Quiet_trans.
    + eapply Paused_l; [exact Hq0|]. rewrite Hw'.
      by eapply Paused_reconcile.
  - intros Hrd.
    pose proof (no_play_while_ready w HI Hrd) as Hnp.
    split; [exact Hnp|].
    assert (Quiet w w0) as Hq0.
    { apply (Quiet_set_now t), Quiet_handle.
      intros tid tm -> Htm. by apply (Hnp tid). }
    by eapply Quiet_trans.
Qed.

Lemma shown_video_paused_on_readiness_witness :
  exists new,
    emitted demoLoading demoReady new /\ OVideo ActiveVideo Pause ∈ new
    /\ OVideo ActiveVideo Play ∉ new.
Proof.
  destruct (shown_video_paused_on_readiness demoLoading 7030
              (EvAnimationFrame 2%nat) demoLoading_reachable) as [H _].
  - apply (bool_decide_unpack _). vm_compute. exact I.
  - apply H; vm_compute; reflexivity.
Defined.

(** ** Reset *)

(** C7: when the media list is replaced, the engine starts afresh.
    [App] replaces the list together with the key of its [Slideshow]
    child, so the child is unmounted and a new one is mounted with the
    new list: shown position 0, no incoming, whatever the old instance
    was doing.  The same holds when the interval is edited. *)
Theorem media_list_change_resets_engine (vr : EngineVariant) (t : Z)
  (list : list MediaItem) (x : App) :
  mountedKey x = a_engineKey (app x) ->
  let x' := appStep vr t (AppMediaLoaded list) x in
  engine x' = mount vr (slideshowProps (app x')) t
  /\ state (engine x') = initialState
  /\ st_idx (state (engine x')) = 0
  /\ st_incoming (state (engine x')) = None
  /\ items (props (engine x')) = list
  /\ mountedKey x' = a_engineKey (app x')
  /\ forall v,
       state (engine (appStep vr t (AppSetInterval v) x)) = initialState.
Proof.
  intros Hk x'.
  assert (engine x' = mount vr (slideshowProps (app x')) t) as He.
  { subst x'. unfold appStep, renderChild. simpl.
    rewrite decide_False; [done|]. rewrite Hk. lia. }
  split_and!; try done.
  - rewrite He. apply mount_state.
  - rewrite He. by rewrite mount_state.
  - rewrite He. by rewrite mount_state.
  - rewrite He. by rewrite mount_props.
  - intros v. unfold appStep, renderChild. simpl.
    rewrite decide_False; [apply mount_state|]. rewrite Hk. lia.
Qed.

Lemma media_list_change_resets_engine_witness :
  st_incoming (state (engine demoApp)) = Some (demoIncoming false)
  /\ state (engine (appStep Defensive 7005 (AppMediaLoaded demoItems)
                      demoApp))
     = initialState.
Proof.
  split.
  - vm_compute. reflexivity.
  - apply (media_list_change_resets_engine Defensive 7005 demoItems demoApp).
    reflexivity.
Defined.

(** * Further properties of the pure parts *)

(** ** Keys *)

(** [keyOf] tells items apart by type and source, and by nothing else:
    two items get the same key exactly when they have the same type and
    the same source; [muted] does not enter. *)
Theorem keyOf_same_key (a b : MediaItem) :
  keyOf a = keyOf b <-> type a = type b /\ src a = src b.
Proof.
  unfold keyOf. split.
  - destruct (type a), (type b); simpl; intros H;
      first [ discriminate H | by injection H ].
  - by intros [-> ->].
Qed.

(** ** What is shown *)

Lemma orderOf_length_ge (p : Props) :
  Z.of_nat (length (items p)) <= js_length (orderOf p).
Proof. apply computeOrder_length_ge. Qed.

Lemma orderOf_empty (p : Props) :
  items p = [] -> js_length (orderOf p) = 0.
Proof.
  intros H. unfold orderOf. rewrite H. simpl.
  by rewrite computeOrder_empty.
Qed.

Lemma itemAt_elem (l : list MediaItem) (k : Z) (it : MediaItem) :
  itemAt l k = Some it -> it ∈ l.
Proof.
  unfold itemAt. destruct (decide (0 <= k)); [|done].
  apply list_elem_of_lookup_2.
Qed.

Lemma renderLayers_empty (p : Props) (st : EngineState) :
  items p = [] -> renderLayers p st = None.
Proof.
  intros H. unfold renderLayers, render. by rewrite (orderOf_empty p H).
Qed.

(** Whatever the position (negative, past the end) and whatever the order
    holds (also one broken by a negative seed), a render shows an item of
    the list, at a position inside the order, as soon as the list is not
    empty; it shows nothing, and [Slideshow] returns [null], exactly when
    the list is empty. *)
Theorem render_shows_an_item (p : Props) (i : Z) :
  (shownItem (render p i) = None <-> items p = [])
  /\ (forall st, renderLayers p st = None <-> items p = [])
  /\ (items p = [] ->
      safeLen (render p i) = 0 /\ shownIdx (render p i) = 0)
  /\ (items p <> [] ->
      0 <= shownIdx (render p i) < safeLen (render p i)
      /\ exists it, shownItem (render p i) = Some it /\ it ∈ items p).
Proof.
  assert (forall j, items p = [] -> shownItem (render p j) = None) as Hnone.
  { intros j H. unfold render. by rewrite (orderOf_empty p H). }
  assert (forall j, items p <> [] ->
            0 <= shownIdx (render p j) < safeLen (render p j)
            /\ exists it, shownItem (render p j) = Some it /\ it ∈ items p)
    as Hsome.
  { intros j H.
    assert (0 < js_length (orderOf p)) as HL.
    { pose proof (orderOf_length_ge p). destruct (items p); [done|].
      simpl in *. lia. }
    split.
    - unfold render. simpl.
      destruct (js_length (orderOf p) =? 0) eqn:E; [lia|].
      rewrite wrapIndex_mod by done. by apply Z.mod_pos_bound.
    - destruct (shownItem_render p j) as (it & Hit).
      { rewrite safeLen_render. lia. }
      exists it. split; [done|]. revert Hit. unfold render. simpl.
      destruct (js_length (orderOf p) =? 0); [done|]. apply itemAt_elem. }
  assert (forall j, shownItem (render p j) = None <-> items p = []) as Hiff.
  { intros j. split; [|apply Hnone].
    intros H. destruct (items p) as [|x l] eqn:E; [done|].
    destruct (Hsome j) as (_ & it & Hit & _); [done|]. congruence. }
  split_and!.
  - apply Hiff.
  - intros st. rewrite <- (Hiff (st_idx st)). unfold renderLayers.
    by destruct (shownItem (render p (st_idx st))).
  - intros H. unfold render. by rewrite (orderOf_empty p H).
  - apply Hsome.
Qed.

Lemma js_get_identityOrder_at (n : nat) (k : Z) :
  0 <= k < Z.of_nat n -> js_get (identityOrder n) k = Some k.
Proof.
  intros Hk. unfold js_get, identityOrder. simpl.
  rewrite decide_True by lia.
  rewrite list_lookup_fmap, lookup_seq_lt by lia. simpl.
  f_equal. lia.
Qed.

Lemma unshuffled_order (p : Props) (i : Z) :
  shuffle p = false -> items p <> [] ->
  let n := Z.of_nat (length (items p)) in
  0 < n /\ orderOf p = identityOrder (length (items p))
  /\ safeLen (render p i) = n
  /\ (forall k, 0 <= k < n -> js_get (order (render p i)) k = Some k).
Proof.
  intros Hsh Hne n.
  assert (orderOf p = identityOrder (length (items p))) as Ho.
  { unfold orderOf. rewrite Hsh. apply computeOrder_identity. }
  assert (0 < n) as Hn.
  { subst n. destruct (items p); [done|]. simpl. lia. }
  split_and!; [done | done | |].
  - rewrite safeLen_render, Ho. apply js_length_identityOrder.
  - intros k Hk. unfold render. simpl. rewrite Ho.
    by apply js_get_identityOrder_at.
Qed.

(** With shuffle disabled the order is the list order: position [i] shows
    item [i mod n] of the list, for every integer [i]. *)
Theorem unshuffled_shows_list_order (p : Props) (i : Z) :
  shuffle p = false -> items p <> [] ->
  let n := Z.of_nat (length (items p)) in
  safeLen (render p i) = n
  /\ (forall k, 0 <= k < n -> js_get (order (render p i)) k = Some k)
  /\ shownIdx (render p i) = i mod n
  /\ shownItem (render p i) = items p !! Z.to_nat (i mod n).
Proof.
  intros Hsh Hne n.
  destruct (unshuffled_order p i Hsh Hne) as (Hn & Ho & HL & Hord).
  fold n in Hn, HL, Hord.
  split_and!.
  - exact HL.
  - exact Hord.
  - unfold render in *. simpl in *. rewrite HL.
    destruct (n =? 0) eqn:E; [lia|]. by apply wrapIndex_mod.
  - unfold render in *. simpl in *. rewrite HL.
    destruct (n =? 0) eqn:E; [lia|]. rewrite wrapIndex_mod by done.
    pose proof (Z.mod_pos_bound i n Hn) as Hb.
    rewrite Ho, js_get_identityOrder_at by done. simpl.
    unfold itemAt. by rewrite decide_True by lia.
Qed.

Lemma unshuffled_shows_list_order_witness :
  shownIdx (render demoProps (-1)) = 1
  /\ shownItem (render demoProps (-1))
     = Some (mkMediaItem image "a.png" None).
Proof.
  destruct (unshuffled_shows_list_order demoProps (-1))
    as (_ & _ & H1 & H2).
  - reflexivity.
  - discriminate.
  - split; [exact H1 | exact H2].
Defined.

(** ** Prefetch *)

Lemma nextIndex_shown (p : Props) (i : Z) :
  safeLen (render p i) <> 0 ->
  nextIndex (shownIdx (render p i)) (safeLen (render p i))
  = (i + 1) mod safeLen (render p i).
Proof.
  rewrite safeLen_render. intros HL.
  assert (0 < js_length (orderOf p)) as Hpos.
  { unfold js_length in *. lia. }
  unfold render, nextIndex. simpl.
  destruct (js_length (orderOf p) =? 0) eqn:E; [lia|].
  destruct (js_length (orderOf p) <=? 0) eqn:E'; [lia|].
  rewrite wrapIndex_mod by done.
  pose proof (Z.mod_pos_bound i _ Hpos).
  rewrite Z.rem_mod_nonneg by lia.
  by rewrite Z.add_mod_idemp_l by lia.
Qed.

(** Whatever the prefetch effect fetches is what the next advance stages:
    if the effect of a render starts a prefetch, then an advance from that
    render stages an item, and the prefetch was for that item (an [Image]
    for an image, a [HEAD] request for a video, with the item's source).
    With shuffle disabled and a list that is not empty the effect always
    starts one. *)
Theorem prefetch_is_next_staged (p : Props) (i : Z) :
  (forall a,
     prefetchEffect p (render p i) = Some a ->
     exists inc,
       goNext (mkClosure p i None) = Some inc
       /\ a = prefetchMedia (item inc))
  /\ (shuffle p = false -> items p <> [] ->
      exists inc,
        goNext (mkClosure p i None) = Some inc
        /\ prefetchEffect p (render p i) = Some (prefetchMedia (item inc))).
Proof.
  assert (forall k,
            safeLen (render p i) <> 0 ->
            js_get (orderOf p) ((i + 1) mod safeLen (render p i)) = Some k ->
            exists inc,
              goNext (mkClosure p i None) = Some inc
              /\ itemAt (items p) k = Some (item inc)) as Hgo.
  { intros k HL Hk. rewrite safeLen_render in *.
    destruct (goNext_idle p i) as (it & Hit & ->).
    { unfold js_length in *. lia. }
    rewrite Hk in Hit. simpl in Hit. by eexists. }
  split.
  - intros a. unfold prefetchEffect.
    destruct (safeLen (render p i) =? 0) eqn:E; [done|].
    apply Z.eqb_neq in E. rewrite nextIndex_shown by done.
    destruct (js_get (order (render p i)) _) as [k|] eqn:Hk; [|done].
    destruct (Hgo k E Hk) as (inc & Hinc & Hit).
    rewrite Hit. simpl. intros [= <-]. by exists inc.
  - intros Hsh Hne.
    destruct (unshuffled_order p i Hsh Hne) as (Hn & _ & HL & Hord).
    set (n := Z.of_nat (length (items p))) in *.
    pose proof (Z.mod_pos_bound (i + 1) n Hn) as Hb.
    destruct (Hgo ((i + 1) mod n)) as (inc & Hinc & Hit).
    { lia. }
    { rewrite HL. by apply Hord. }
    exists inc. split; [done|]. unfold prefetchEffect.
    rewrite nextIndex_shown by lia. rewrite HL.
    destruct (n =? 0) eqn:E; [lia|].
    rewrite (Hord _ Hb), Hit. done.
Qed.

(** ** The layers *)




(** * Further properties of the running component *)

(** ** Timers have one owner each *)



(** ** When the advance timer runs *)

Lemma tickBody_guard (v : View) (w : World) :
  (tickBody v w).2 = tickGuard (tickDeps v w).
Proof.
  unfold tickBody, tickGuard, tickDeps.
  destruct (playing (props w)), (shownIsImage v); simpl; try done.
  destruct ((safeLen v =? 0) || (safeLen v <=? 1)); simpl; [done|].
  by destruct (st_incoming (state w)).
Qed.

Lemma tickDeps_eqb_guard (d1 d2 : TickDeps) :
  tickDeps_eqb d1 d2 = true -> tickGuard d1 = tickGuard d2.
Proof.
  destruct d1 as [[[[[p1 i1] q1] l1] s1] k1].
  destruct d2 as [[[[[p2 i2] q2] l2] s2] k2].
  unfold tickDeps_eqb. rewrite !andb_true_iff, !bool_decide_eq_true.
  intros [[[[[-> ->] _] ->] _] ->]. done.
Qed.

Lemma tick_slot_when (r : bool) (f : World -> World) (w : World) :
  (forall w0, tickEffect (effects (f w0)) = tickEffect (effects w0)) ->
  tickEffect (effects (when r f w)) = tickEffect (effects w).
Proof. intros H. destruct r; simpl; [apply H | done]. Qed.

Lemma effects_probeCleanup cl w : effects (probeCleanup cl w) = effects w.
Proof.
  unfold probeCleanup. destruct cl as [pid|]; [|done].
  by destruct (probes w !! pid).
Qed.

Lemma effects_timerCleanup cl w : effects (timerCleanup cl w) = effects w.
Proof. by destruct cl. Qed.

Lemma effects_tickCleanup reg w : effects (tickCleanup reg w) = effects w.
Proof.
  unfold tickCleanup. destruct reg; [|done]. simpl. by destruct (timerRef w).
Qed.

Section TickSlot.
Variable vr : EngineVariant.

Lemma tick_slot_probeRun v d w :
  tickEffect (effects (probeRun vr v d w)) = tickEffect (effects w).
Proof.
  unfold probeRun, probeBody.
  destruct (st_incoming (state w)) as [inc|]; [|done].
  destruct (type (item inc)); [done|].
  destruct (shownItem v); [|done]. by destruct vr.
Qed.

Lemma tick_slot_commitRun v d w :
  tickEffect (effects (commitRun vr v d w)) = tickEffect (effects w).
Proof.
  unfold commitRun, commitBody.
  destruct (st_incoming (state w)) as [inc|]; [|done].
  destruct (ready inc); [|done].
  destruct vr; [|done]. by destruct (shownIsVideo v).
Qed.

Lemma tick_slot_videoRun v d w :
  tickEffect (effects (videoRun vr v d w)) = tickEffect (effects w).
Proof.
  unfold videoRun, videoBody.
  destruct (negb (shownIsVideo v)); [done|].
  destruct vr.
  - by destruct (negb (playing (props w)) || isReady (st_incoming (state w))).
  - by destruct (negb (playing (props w))).
Qed.

Lemma tick_slot_tickRun v d w :
  tickEffect (effects (tickRun v d w)) = Some (d, (tickBody v w).2).
Proof. unfold tickRun. by destruct (tickBody v w). Qed.

Lemma tickBody_core v w w' :
  core w' = core w -> (tickBody v w').2 = (tickBody v w).2.
Proof.
  intros H. rewrite !tickBody_guard. unfold tickDeps.
  by rewrite (core_props _ _ H), (core_state _ _ H).
Qed.

(** After a render the slot of the tick effect holds the dependencies of
    its last run and whether that run armed the timer. *)
Lemma reconcile_tick_slot w :
  tickEffect (effects (reconcile vr w))
  = if staleTick w
    then Some (tickDeps (viewOf w) w, tickGuard (tickDeps (viewOf w) w))
    else tickEffect (effects w).
Proof.
  unfold reconcile. fold (viewOf w). fold (staleTick w).
  set (r2 := stale decEqb (probeEffect (effects w)) (probeDeps w)).
  set (r3 := stale decEqb (commitEffect _) _).
  set (r5 := stale decEqb (videoEffect _) _).
  rewrite tick_slot_when by apply tick_slot_videoRun.
  match goal with
  | |- context [when r3 ?f ?x] => set (wb := when r3 f x)
  end.
  assert (core wb = core w /\ tickEffect (effects wb) = tickEffect (effects w))
    as [Hc He].
  { subst wb. split.
    - etrans; [apply when_core; intros; apply commitRun_core|].
      etrans; [apply when_core; intros; apply probeRun_core|].
      apply Quiet_cleanups.
    - rewrite tick_slot_when by apply tick_slot_commitRun.
      rewrite tick_slot_when by apply tick_slot_probeRun.
      rewrite tick_slot_when
        by (intros; by rewrite effects_timerCleanup).
      rewrite tick_slot_when
        by (intros; by rewrite effects_tickCleanup).
      rewrite tick_slot_when
        by (intros; by rewrite effects_timerCleanup).
      rewrite tick_slot_when
        by (intros; by rewrite effects_probeCleanup).
      done. }
  clearbody wb. destruct (staleTick w); simpl; [|done].
  rewrite tick_slot_tickRun, (tickBody_core _ _ _ Hc), tickBody_guard.
  done.
Qed.

Lemma reachable_tick_slot w :
  reachable vr w -> exists d, tickEffect (effects w) = Some (d, tickGuard d).
Proof.
  induction 1 as [p t|w t e _ IH Ha].
  - unfold mount. rewrite reconcile_tick_slot. by eexists.
  - unfold step. rewrite reconcile_tick_slot.
    destruct (staleTick _); [by eexists|].
    by rewrite effects_handle.
Qed.

Lemma tickRegistered_guard w :
  reachable vr w ->
  tickRegistered w = tickGuard (tickDeps (viewOf w) w).
Proof.
  intros Hr. destruct (reachable_tick_slot w Hr) as (d & Hd).
  destruct (inv_tick _ _ (reachable_Inv vr w Hr)) as (d' & reg & S4 & E4 & _).
  rewrite Hd in S4. injection S4 as <- <-.
  unfold tickRegistered. rewrite Hd. cbn [slotCleanup].
  by apply tickDeps_eqb_guard.
Qed.

Lemma tickGuard_now w :
  tickGuard (tickDeps (viewOf w) w) = true <->
  playing (props w) = true /\ shownIsImage (viewOf w) = true
  /\ 1 < safeLen (viewOf w) /\ st_incoming (state w) = None.
Proof.
  unfold tickGuard, tickDeps.
  rewrite !andb_true_iff, negb_true_iff, orb_false_iff, bool_decide_eq_true.
  rewrite Z.eqb_neq, Z.leb_gt.
  destruct (st_incoming (state w)); simpl; split; intros H;
    destruct_and?; split_and?; try done; lia.
Qed.

End TickSlot.

Lemma tick_pending_guard (vr : EngineVariant) (w : World) :
  reachable vr w ->
  forall tid tm,
    timers w !! tid = Some tm -> kindOf (callback tm) = KTick ->
    playing (props w) = true /\ shownIsImage (viewOf w) = true
    /\ 1 < safeLen (viewOf w) /\ st_incoming (state w) = None.
Proof.
  intros Hr tid tm Htm Hk. apply tickGuard_now.
  rewrite <- (tickRegistered_guard vr w Hr).
  pose proof (inv_base _ _ (reachable_Inv vr w Hr)) as HB.
  destruct (base_timers _ HB _ _ Htm) as (_ & _ & Hown).
  destruct (callback tm); try done. by destruct Hown as (_ & ? & _).
Qed.



(** ** What stages *)

Lemma stagings_stageW req w :
  stagings (stageW req w)
  = match req with
    | Some inc => (now w, inc) :: stagings w
    | None => stagings w
    end.
Proof. by destruct req. Qed.

Lemma stagings_onTick c ms w :
  stagings (onTick c ms w) = stagings w
  \/ exists inc, goNext c = Some inc
                 /\ stagings (onTick c ms w) = (now w, inc) :: stagings w.
Proof.
  unfold onTick.
  destruct (bool_decide (c_incoming c = None) && _); [|by left].
  destruct (goNext c) as [inc|] eqn:E; [right|by left].
  by exists inc.
Qed.

(** Only two things stage, and only while playing with no incoming: the
    end of the shown video, and a tick of the advance timer under a shown
    image with more than one position.  Every other event leaves the
    staging history alone, and so does every event of a paused show.  An
    event stages at most one item, not ready, stamped with the event's
    time. *)
Theorem staging_only_by_tick_or_video_end (vr : EngineVariant) (w : World)
  (t : Z) (e : Event) :
  reachable vr w -> admissible w t e ->
  stagings (step vr t e w) = stagings w
  \/ exists inc,
       stagings (step vr t e w) = (t, inc) :: stagings w
       /\ ready inc = false /\ playing (props w) = true
       /\ st_incoming (state w) = None
       /\ ((e = EvVideoEnded /\ shownIsVideo (viewOf w) = true)
           \/ (shownIsImage (viewOf w) = true /\ 1 < safeLen (viewOf w)
               /\ exists tid tm,
                    e = EvTimer tid /\ timers w !! tid = Some tm
                    /\ kindOf (callback tm) = KTick)).
Proof.
  intros Hr Ha. pose proof (reachable_Inv vr w Hr) as HI.
  unfold step. rewrite (stagings_core _ _ (reconcile_core vr _)).
  assert (stagings (set_now t w) = stagings w) as Hs by done.
  destruct e; try (left; rewrite <- Hs; by apply Calm_probe_events).
  - cbn [handle]. change (timers (set_now t w)) with (timers w).
    destruct (timers w !! tid) as [tm|] eqn:Htm; [|by left].
    destruct (callback tm) as [pid|i|c ms| |pid|pid] eqn:Hcb;
      try (left; rewrite <- Hs;
           by apply (Calm_callback _ _ (clearTimeout tid (set_now t w)))).
    + destruct (stagings_onTick c ms (clearTimeout tid (set_now t w)))
        as [H|(inc & Hgo & H)]; [by left|].
      right. exists inc.
      destruct (tick_pending_guard vr w Hr tid tm Htm)
        as (Hpl & Himg & Hlen & Hinc); [by rewrite Hcb|].
      apply goNext_Some in Hgo as (Hrd & _).
      split_and!; try done. right. split_and!; try done.
      exists tid, tm. by rewrite Hcb.
    + by left.
  - cbn [handle]. change (props (set_now t w)) with (props w).
    change (state (set_now t w)) with (state w).
    fold (viewOf w).
    destruct (shownIsVideo (viewOf w)) eqn:Hv; [|by left].
    rewrite stagings_stageW.
    destruct (handleVideoEnded _) as [inc|] eqn:Hve; [right|by left].
    exists inc.
    assert (playing (props w) = true) as Hpl.
    { unfold handleVideoEnded in Hve. simpl in Hve.
      by destruct (playing (props w)). }
    apply handleVideoEnded_Some in Hve as (Hrd & _ & Hinc).
    split_and!; try done. by left.
  - by left.
Qed.

Lemma staging_only_by_tick_or_video_end_witness :
  exists inc,
    stagings (step Defensive 7000 EvVideoEnded
                (step Defensive 0 (EvTimer 1%nat)
                   (mount Defensive demoProps 0)))
    = [(7000, inc)]
    /\ ready inc = false.
Proof.
  destruct (staging_only_by_tick_or_video_end Defensive
              (step Defensive 0 (EvTimer 1%nat) (mount Defensive demoProps 0))
              7000 EvVideoEnded) as [H|(inc & H & Hr & _)].
  - apply reachable_step; [apply reachable_mount|].
    apply (bool_decide_unpack _). vm_compute. exact I.
  - apply (bool_decide_unpack _). vm_compute. exact I.
  - vm_compute in H. discriminate H.
  - exists inc. split; [exact H | exact Hr].
Defined.

(** ** The shown position *)

Lemma SamePlace_eq w w' :
  state w' = state w -> props w' = props w -> SamePlace w w'.
Proof. intros H1 H2. split; [by rewrite H1 | done]. Qed.

Lemma SamePlace_refl w : SamePlace w w.
Proof. by split. Qed.

Lemma SamePlace_trans w1 w2 w3 :
  SamePlace w1 w2 -> SamePlace w2 w3 -> SamePlace w1 w3.
Proof. intros [A1 B1] [A2 B2]. split; congruence. Qed.

Lemma SamePlace_setStage pid s w : SamePlace w (setStage pid s w).
Proof. unfold setStage. by destruct (probes w !! pid). Qed.

Lemma SamePlace_emitAll os w : SamePlace w (emitAll os w).
Proof.
  revert w. induction os as [|o os IH]; intros w; [done|].
  simpl. eapply SamePlace_trans; [|apply IH]. done.
Qed.

Lemma SamePlace_noteReady t w : SamePlace w (noteReady t w).
Proof. unfold noteReady. by destruct (cycles w). Qed.

Lemma SamePlace_stageW req w : SamePlace w (stageW req w).
Proof. by destruct req. Qed.

Section Place.
Variable vr : EngineVariant.

Lemma SamePlace_markReadyW pid w : SamePlace w (markReadyW vr pid w).
Proof.
  unfold markReadyW. destruct (probes w !! pid) as [pr|]; [|done].
  destruct (cancelled pr); [done|].
  set (w1 := match vr with Plain => _ | Defensive => _ end).
  assert (SamePlace w w1) as H1 by (subst w1; by destruct vr).
  clearbody w1. cbv zeta.
  set (w2 := if flips (state w1) then _ else _).
  assert (SamePlace w1 w2) as H2.
  { subst w2. destruct (flips (state w1));
      [apply SamePlace_noteReady | done]. }
  clearbody w2.
  eapply SamePlace_trans; [exact H1|]. eapply SamePlace_trans; [exact H2|].
  split; [|done]. simpl. unfold markReady. done.
Qed.

Lemma SamePlace_finishVideo pid cmds w :
  SamePlace w (finishVideo vr pid cmds w).
Proof.
  unfold finishVideo. destruct (probes w !! pid) as [pr|]; [|done].
  assert (SamePlace w (markReadyW vr pid
                         (emitAll cmds (setStage pid ProbeDone w)))) as H.
  { eapply SamePlace_trans; [apply SamePlace_setStage|].
    eapply SamePlace_trans; [apply SamePlace_emitAll|].
    apply SamePlace_markReadyW. }
  by destruct vr.
Qed.

Lemma SamePlace_videoReady pid w : SamePlace w (videoReady vr pid w).
Proof.
  unfold videoReady.
  destruct (stage <$> probes w !! pid) as [[]|]; try done.
  eapply SamePlace_trans; [apply SamePlace_emitAll | apply SamePlace_setStage].
Qed.

Lemma SamePlace_onFirstFrameTimeout pid w :
  SamePlace w (onFirstFrameTimeout vr pid w).
Proof.
  unfold onFirstFrameTimeout.
  destruct (stage <$> probes w !! pid) as [[]|]; try done.
  apply SamePlace_finishVideo.
Qed.

Lemma SamePlace_onTick c ms w : SamePlace w (onTick c ms w).
Proof.
  unfold onTick.
  destruct (bool_decide (c_incoming c = None) && _); simpl; [|done].
  apply (SamePlace_stageW (goNext c) w).
Qed.

(** Every callback but the commit leaves the shown position and the
    properties alone; a change of settings leaves the position and the
    media alone. *)
Lemma SamePlace_handle e w :
  (forall tid tm i, e = EvTimer tid -> timers w !! tid = Some tm ->
                    callback tm <> CbCommit i) ->
  st_idx (state (handle vr e w)) = st_idx (state w)
  /\ sameMedia (props w) (props (handle vr e w)).
Proof.
  intros Hc.
  assert (forall w', SamePlace w w' ->
            st_idx (state w') = st_idx (state w)
            /\ sameMedia (props w) (props w')) as Hsp.
  { intros w' [H1 H2]. split; [done|]. by rewrite H2. }
  destruct e; cbn [handle].
  - destruct (timers w !! tid) as [tm|] eqn:Htm; [|by apply Hsp].
    specialize (Hc tid tm).
    destruct (callback tm) as [pid|i|c ms| |pid|pid]; simpl.
    + apply Hsp. apply (SamePlace_markReadyW pid (clearTimeout tid w)).
    + by destruct (Hc i).
    + apply Hsp. apply (SamePlace_onTick c ms (clearTimeout tid w)).
    + by apply Hsp.
    + apply Hsp. apply (SamePlace_videoReady pid (clearTimeout tid w)).
    + apply Hsp.
      apply (SamePlace_onFirstFrameTimeout pid (clearTimeout tid w)).
  - apply Hsp. unfold onImgLoad.
    destruct (stage <$> probes w !! pid) as [[]|]; try done.
    apply SamePlace_setStage.
  - apply Hsp. unfold onImgError.
    destruct (stage <$> probes w !! pid) as [[]|]; try done.
    eapply SamePlace_trans; [apply SamePlace_setStage|].
    apply SamePlace_markReadyW.
  - apply Hsp. unfold onAnimationFrame.
    destruct (stage <$> probes w !! pid) as [[]|]; try done.
    + apply SamePlace_setStage.
    + eapply SamePlace_trans; [apply SamePlace_setStage|].
      apply SamePlace_markReadyW.
  - apply Hsp.
    pose proof (SamePlace_videoReady pid w) as Hv.
    pose proof (SamePlace_finishVideo pid [] w) as Hf.
    unfold onVideoSignal. destruct vr, s; try done.
    by destruct (stage <$> probes w !! pid) as [[]|].
  - apply Hsp. unfold onPlaySettled.
    destruct (stage <$> probes w !! pid) as [[]|]; try done.
    destruct (match vr with Defensive => true | Plain => ok end).
    + simpl. eapply SamePlace_trans; [|apply SamePlace_setStage]. done.
    + apply SamePlace_finishVideo.
  - apply Hsp. unfold onFirstFrame.
    destruct (stage <$> probes w !! pid) as [[]|]; try done.
    eapply SamePlace_trans; [|apply SamePlace_finishVideo].
    by case_match.
  - apply Hsp. unfold onProbeThrow.
    destruct (stage <$> probes w !! pid) as [[]|]; try done;
      apply SamePlace_finishVideo.
  - apply Hsp. case_match; [apply SamePlace_stageW | done].
  - by apply Hsp.
  - done.
Qed.

End Place.

Lemma orderOf_sameMedia p q : sameMedia p q -> orderOf p = orderOf q.
Proof. intros (H1 & H2 & H3). unfold orderOf. by rewrite H1, H2, H3. Qed.

Lemma placed_sameMedia p q inc : sameMedia p q -> placed p inc -> placed q inc.
Proof.
  intros H. unfold placed. rewrite (orderOf_sameMedia p q H).
  destruct H as (-> & _). done.
Qed.

Lemma wrapIndex_range a n : 0 < n -> 0 <= wrapIndex a n < n.
Proof. intros H. rewrite wrapIndex_mod by done. by apply Z.mod_pos_bound. Qed.

Lemma goNext_placed c inc :
  goNext c = Some inc ->
  placed (c_props c) inc /\ key inc = keyOf (item inc) /\ ready inc = false.
Proof.
  unfold goNext, scheduleNext.
  destruct (safeLen (c_view c) =? 0) eqn:E; [done|].
  apply Z.eqb_neq in E.
  destruct (c_incoming c); [done|].
  assert (0 < safeLen (c_view c)) as Hpos.
  { unfold c_view in *. rewrite safeLen_render in *.
    unfold js_length in *. lia. }
  destruct (itemAt _ _) as [it|] eqn:Hit; [|done].
  intros [= <-]. unfold placed. simpl. split_and!; try done.
  - by apply wrapIndex_range.
  - by apply wrapIndex_range.
Qed.

Lemma commit_or_not (e : Event) (w : World) :
  (exists tid tm i,
     e = EvTimer tid /\ timers w !! tid = Some tm
     /\ callback tm = CbCommit i)
  \/ (forall tid tm i,
        e = EvTimer tid -> timers w !! tid = Some tm ->
        callback tm <> CbCommit i).
Proof.
  destruct e as [tid| | | | | | | | | |]; try (right; intros; discriminate).
  destruct (timers w !! tid) as [tm|] eqn:Htm;
    [|right; intros ? ? ? [= <-]; congruence].
  destruct (callback tm) as [pid|i|c ms| |pid|pid] eqn:Hcb;
    try (right; intros ? ? ? [= <-]; congruence).
  left. by exists tid, tm, i.
Qed.

Section Places.
Variable vr : EngineVariant.

Lemma stagings_handle_cases w t e :
  Inv vr w ->
  stagings (handle vr e (set_now t w)) = stagings w
  \/ exists c inc,
       goNext c = Some inc /\ sameMedia (c_props c) (props w)
       /\ stagings (handle vr e (set_now t w)) = (t, inc) :: stagings w.
Proof.
  intros HI.
  assert (stagings (set_now t w) = stagings w) as Hs by done.
  destruct e; try (left; rewrite <- Hs; by apply Calm_probe_events).
  - cbn [handle]. change (timers (set_now t w)) with (timers w).
    destruct (timers w !! tid) as [tm|] eqn:Htm; [|by left].
    destruct (callback tm) as [pid|i|c ms| |pid|pid] eqn:Hcb;
      try (left; rewrite <- Hs;
           by apply (Calm_callback _ _ (clearTimeout tid (set_now t w)))).
    + destruct (stagings_onTick c ms (clearTimeout tid (set_now t w)))
        as [H|(inc & Hgo & H)]; [by left|].
      right. exists c, inc. split_and!; try done.
      destruct (base_timers _ (inv_base _ _ HI) _ _ Htm) as (_ & _ & Hown).
      rewrite Hcb in Hown. by destruct Hown as (_ & _ & _ & ?).
    + by left.
  - cbn [handle]. change (props (set_now t w)) with (props w).
    change (state (set_now t w)) with (state w).
    destruct (shownIsVideo _); [|by left].
    rewrite stagings_stageW.
    destruct (handleVideoEnded _) as [inc|] eqn:Hve; [right|by left].
    exists (closureOf (props w) (state w)), inc. split_and!; try done.
    unfold handleVideoEnded in Hve.
    destruct (negb _); [done|]. by destruct (c_incoming _).
  - by left.
Qed.

Lemma handle_commit w t tid tm i :
  timers w !! tid = Some tm -> callback tm = CbCommit i ->
  state (handle vr (EvTimer tid) (set_now t w)) = mkEngineState i None
  /\ props (handle vr (EvTimer tid) (set_now t w)) = props w.
Proof.
  intros Htm Hcb. cbn [handle].
  change (timers (set_now t w)) with (timers w). rewrite Htm, Hcb. simpl.
  unfold commitW, noteCommit. simpl. by destruct (cycles w).
Qed.

Lemma staged_head w inc :
  Inv vr w -> st_incoming (state w) = Some inc ->
  exists x, x ∈ stagings w /\ idx x.2 = idx inc /\ item x.2 = item inc.
Proof.
  intros HI Einc. destruct (inv_history _ _ HI) as [_ HH].
  rewrite Einc in HH.
  destruct HH as (c & r & Hcyc & _ & _ & Hidx & Hitem & _).
  exists (staged c, stagedAs c). split; [|done].
  unfold stagings. rewrite Hcyc. simpl. apply elem_of_cons. by left.
Qed.

(** The stored position is a position of the order, and every staged
    incoming was placed. *)
Lemma reachable_placed w :
  reachable vr w ->
  (st_idx (state w) = 0
   \/ 0 <= st_idx (state w) < js_length (orderOf (props w)))
  /\ Forall (fun x => placed (props w) x.2) (stagings w).
Proof.
  induction 1 as [p t|w t e Hr [IHi IHs] Ha].
  - rewrite (mount_state vr p t).
    split; [by left|]. unfold mount.
    rewrite (stagings_core _ _ (reconcile_core vr _)). constructor.
  - pose proof (reachable_Inv vr w Hr) as HI.
    unfold step.
    rewrite (stagings_core _ _ (reconcile_core vr _)).
    rewrite (core_state _ _ (reconcile_core vr _)).
    rewrite (core_props _ _ (reconcile_core vr _)).
    set (w0 := handle vr e (set_now t w)).
    assert (sameMedia (props w) (props w0)
            /\ (st_idx (state w0) = 0
                \/ 0 <= st_idx (state w0) < js_length (orderOf (props w))))
      as [Hm Hi].
    { destruct (commit_or_not e w)
        as [(tid & tm & i & -> & Htm & Hcb)|Hno].
      - destruct (handle_commit w t tid tm i Htm Hcb) as [Hst Hp].
        subst w0. rewrite Hst, Hp. split; [done|]. simpl. right.
        destruct (commit_timer vr w tid tm i HI Htm Hcb)
          as (inc & _ & _ & _ & Einc & _ & <- & _).
        destruct (staged_head w inc HI Einc) as (x & Hx & <- & _).
        rewrite Forall_forall in IHs. apply (IHs x Hx).
      - destruct (SamePlace_handle vr e (set_now t w)) as [H1 H2].
        { intros tid tm i -> Htm. exact (Hno tid tm i eq_refl Htm). }
        subst w0. rewrite H1. done. }
    split.
    + by rewrite <- (orderOf_sameMedia _ _ Hm).
    + assert (Forall (fun x => placed (props w0) x.2) (stagings w)) as Hold.
      { eapply Forall_impl; [exact IHs|].
        intros x. by apply placed_sameMedia. }
      destruct (stagings_handle_cases w t e HI)
        as [H|(c & inc & Hgo & Hc & H)]; fold w0 in H; rewrite H; [done|].
      constructor; [|done]. simpl.
      apply goNext_placed in Hgo as (Hpl & _).
      apply (placed_sameMedia (c_props c)); [|done].
      destruct Hc as (? & ? & ?), Hm as (? & ? & ?).
      split_and!; congruence.
Qed.

End Places.

(** The stored position is always a position of the order, so the wrap in
    [shownIdx] never comes into play, and an incoming is always placed:
    its position is one of the order and its item is the one the order
    selects there, which is the item shown once it is committed.  What is
    probed and preloaded is what gets shown. *)
Theorem incoming_is_what_gets_shown (vr : EngineVariant) (w : World) :
  reachable vr w ->
  (st_idx (state w) = 0 \/ 0 <= st_idx (state w) < safeLen (viewOf w))
  /\ shownIdx (viewOf w) = st_idx (state w)
  /\ forall inc,
       st_incoming (state w) = Some inc ->
       0 <= idx inc < safeLen (viewOf w)
       /\ shownIdx (render (props w) (idx inc)) = idx inc
       /\ shownItem (render (props w) (idx inc)) = Some (item inc).
Proof.
  intros Hr. destruct (reachable_placed vr w Hr) as [Hi Hs].
  pose proof (reachable_Inv vr w Hr) as HI.
  assert (forall i, 0 <= i < js_length (orderOf (props w)) ->
            shownIdx (render (props w) i) = i) as Hwrap.
  { intros i Hi'. unfold render. simpl.
    destruct (js_length (orderOf (props w)) =? 0) eqn:E; [lia|].
    rewrite wrapIndex_mod by lia. by apply Z.mod_small. }
  split_and!.
  - exact Hi.
  - destruct Hi as [H0|Hi]; [|by apply Hwrap].
    unfold viewOf. rewrite H0. unfold render. simpl.
    destruct (js_length (orderOf (props w)) =? 0) eqn:E; [done|].
    apply Z.eqb_neq in E. unfold js_length in *.
    rewrite wrapIndex_mod by lia. apply Z.mod_0_l. lia.
  - intros inc Einc.
    destruct (staged_head vr w inc HI Einc) as (x & Hx & Hidx & Hitem).
    rewrite Forall_forall in Hs. destruct (Hs x Hx) as [Hr' Hit].
    rewrite Hidx in Hr', Hit. rewrite Hitem in Hit.
    split_and!; [apply Hr' | apply Hr' | by apply Hwrap |].
    pose proof (Hwrap _ Hr') as Hw.
    unfold render in *. simpl in *.
    destruct (js_length (orderOf (props w)) =? 0) eqn:E; [lia|].
    by rewrite Hw.
Qed.

Lemma incoming_is_what_gets_shown_witness :
  shownItem (render (props demoStaged) 1)
  = Some (mkMediaItem image "a.png" None).
Proof.
  destruct (incoming_is_what_gets_shown Defensive demoStaged
              demoStaged_reachable) as (_ & _ & H).
  destruct (H (demoIncoming false)) as (_ & _ & Hit).
  - vm_compute. reflexivity.
  - exact Hit.
Defined.

(** The shown position moves only by a commit: an event either leaves it
    where it is, or it is the firing of the commit timer of a ready
    incoming, which moves the position to that incoming's and clears the
    incoming.  No readiness signal, tick, staging or change of settings
    moves it. *)
Theorem shown_position_moves_only_by_commit (vr : EngineVariant) (w : World)
  (t : Z) (e : Event) :
  reachable vr w -> admissible w t e ->
  st_idx (state (step vr t e w)) = st_idx (state w)
  \/ exists inc tid tm,
       e = EvTimer tid /\ timers w !! tid = Some tm
       /\ callback tm = CbCommit (idx inc)
       /\ st_incoming (state w) = Some inc /\ ready inc = true
       /\ state (step vr t e w) = mkEngineState (idx inc) None.
Proof.
  intros Hr Ha. pose proof (reachable_Inv vr w Hr) as HI.
  rewrite (step_state vr t e w).
  destruct (commit_or_not e w) as [(tid & tm & i & -> & Htm & Hcb)|Hno].
  - right.
    destruct (commit_timer vr w tid tm i HI Htm Hcb)
      as (inc & _ & _ & _ & Einc & Er & <- & _).
    exists inc, tid, tm. split_and!; try done.
    by destruct (handle_commit vr w t tid tm (idx inc) Htm Hcb).
  - left. by destruct (SamePlace_handle vr e (set_now t w) Hno).
Qed.

Lemma shown_position_moves_only_by_commit_witness :
  state (step Defensive 7590 (EvTimer 5%nat) demoReady)
  = mkEngineState 1 None.
Proof.
  destruct (shown_position_moves_only_by_commit Defensive demoReady 7590
              (EvTimer 5%nat) demoReady_reachable)
    as [H|(inc & tid & tm & _ & _ & _ & Einc & _ & H)].
  - apply (bool_decide_unpack _). vm_compute. exact I.
  - vm_compute in H. discriminate H.
  - vm_compute in Einc. injection Einc as <-. exact H.
Defined.

(** ** An empty list *)

Lemma Idle_eq w w' :
  props w' = props w -> state w' = state w -> timers w' = timers w ->
  probes w' = probes w -> cycles w' = cycles w -> Idle w -> Idle w'.
Proof. unfold Idle. by intros -> -> -> -> ->. Qed.

Lemma Idle_view w :
  Idle w -> shownItem (viewOf w) = None.
Proof.
  intros (Hi & _). unfold viewOf, render.
  by rewrite (orderOf_empty _ Hi).
Qed.

Lemma Idle_probe w pid : Idle w -> stage <$> probes w !! pid = None.
Proof. intros (_ & _ & _ & -> & _). by rewrite lookup_empty. Qed.

Section IdleFacts.
Variable vr : EngineVariant.

Lemma Idle_handle e w : Idle w -> Idle (handle vr e w).
Proof.
  intros HI. pose proof (fun pid => Idle_probe w pid HI) as Hp.
  destruct e; cbn [handle].
  - pose proof HI as (_ & _ & Ht & _). by rewrite Ht, lookup_empty.
  - unfold onImgLoad. by rewrite Hp.
  - unfold onImgError. by rewrite Hp.
  - unfold onAnimationFrame. by rewrite Hp.
  - unfold onVideoSignal, videoReady. rewrite Hp. by destruct vr, s.
  - unfold onPlaySettled. by rewrite Hp.
  - unfold onFirstFrame. by rewrite Hp.
  - unfold onProbeThrow. by rewrite Hp.
  - fold (viewOf w).
    assert (shownIsVideo (viewOf w) = false) as ->; [|done].
    assert (shownIsVideo (viewOf w)
            = bool_decide (type <$> shownItem (viewOf w) = Some video))
      as -> by done.
    by rewrite (Idle_view w HI).
  - by eapply Idle_eq.
  - destruct HI as (Hi & Hrest). by split.
Qed.

Lemma Idle_when r f w :
  (forall w0, Idle w0 -> Idle (f w0)) -> Idle w -> Idle (when r f w).
Proof. intros H. destruct r; simpl; [apply H | done]. Qed.

Lemma Idle_probeCleanup cl w : Idle w -> Idle (probeCleanup cl w).
Proof.
  intros HI. unfold probeCleanup. destruct cl as [pid|]; [|done].
  pose proof HI as (_ & _ & _ & Hp & _). by rewrite Hp, lookup_empty.
Qed.

Lemma Idle_timerCleanup cl w : Idle w -> Idle (timerCleanup cl w).
Proof.
  intros HI. destruct cl as [h|]; [|done].
  destruct HI as (? & ? & Ht & ? & ?). unfold Idle. split_and!; try done.
  simpl. rewrite Ht. apply delete_empty.
Qed.

Lemma Idle_tickCleanup reg w : Idle w -> Idle (tickCleanup reg w).
Proof.
  intros HI. unfold tickCleanup. destruct reg; [|done].
  eapply Idle_eq; [..|exact (Idle_timerCleanup (timerRef w) w HI)]; done.
Qed.

Lemma Idle_probeRun v d w : Idle w -> Idle (probeRun vr v d w).
Proof.
  intros HI. unfold probeRun, probeBody.
  pose proof HI as (_ & Hs & _). rewrite Hs. simpl. by eapply Idle_eq.
Qed.

Lemma Idle_commitRun v d w : Idle w -> Idle (commitRun vr v d w).
Proof.
  intros HI. unfold commitRun, commitBody.
  pose proof HI as (_ & Hs & _). rewrite Hs. simpl. by eapply Idle_eq.
Qed.

Lemma Idle_tickRun v d w :
  shownItem v = None -> shownIsImage v = false ->
  Idle w -> Idle (tickRun v d w).
Proof.
  intros _ Hv HI. unfold tickRun, tickBody. rewrite Hv.
  rewrite orb_true_r. by eapply Idle_eq.
Qed.

Lemma Idle_videoRun v d w :
  shownIsVideo v = false -> Idle w -> Idle (videoRun vr v d w).
Proof.
  intros Hv HI. unfold videoRun, videoBody. rewrite Hv. by eapply Idle_eq.
Qed.

Lemma Idle_reconcile w : Idle w -> Idle (reconcile vr w).
Proof.
  intros HI. pose proof (Idle_view w HI) as Hv.
  assert (shownIsImage (viewOf w) = false /\ shownIsVideo (viewOf w) = false)
    as [Himg Hvid].
  { assert (shownIsImage (viewOf w)
            = bool_decide (type <$> shownItem (viewOf w) = Some image))
      as -> by done.
    assert (shownIsVideo (viewOf w)
            = bool_decide (type <$> shownItem (viewOf w) = Some video))
      as -> by done.
    by rewrite Hv. }
  unfold reconcile. fold (viewOf w).
  apply Idle_when; [intros; by apply Idle_videoRun|].
  apply Idle_when; [intros; by apply Idle_tickRun|].
  apply Idle_when; [intros; by apply Idle_commitRun|].
  apply Idle_when; [intros; by apply Idle_probeRun|].
  apply Idle_when; [intros; by apply Idle_timerCleanup|].
  apply Idle_when; [intros; by apply Idle_tickCleanup|].
  apply Idle_when; [intros; by apply Idle_timerCleanup|].
  apply Idle_when; [intros; by apply Idle_probeCleanup|].
  done.
Qed.

Lemma Idle_run tr w : Idle w -> Idle (run vr tr w).
Proof.
  revert w. induction tr as [|[t e] tr IH]; intros w HI; [done|].
  simpl. apply IH. unfold step. apply Idle_reconcile, Idle_handle.
  by eapply Idle_eq.
Qed.

End IdleFacts.

(** With an empty media list the component renders nothing and stays
    idle whatever happens to it: after any sequence of events (timers,
    media events, clicks, changes of settings) the position is 0, there is
    no incoming, no timer is pending, no probe has run and nothing was
    ever staged. *)
Theorem empty_list_stays_idle (vr : EngineVariant) (p : Props) (t0 : Z)
  (tr : list (Z * Event)) :
  items p = [] ->
  let w := run vr tr (mount vr p t0) in
  state w = initialState /\ timers w = ∅ /\ probes w = ∅
  /\ stagings w = [] /\ renderLayers (props w) (state w) = None.
Proof.
  intros Hp w.
  assert (Idle w) as HI.
  { subst w. apply Idle_run. unfold mount. apply Idle_reconcile.
    by split_and!. }
  destruct HI as (Hi & Hs & Ht & Hpr & Hc). split_and!; try done.
  - unfold stagings. by rewrite Hc.
  - by apply renderLayers_empty.
Qed.

Lemma empty_list_stays_idle_witness :
  timers (run Defensive [(5, EvVideoEnded); (9, EvDoubleClick)]
            (engine (appStart Defensive 0))) = ∅.
Proof.
  apply (empty_list_stays_idle Defensive
           (slideshowProps (mkAppState [] true 3%Q crossfade false 0)) 0
           [(5, EvVideoEnded); (9, EvDoubleClick)]).
  reflexivity.
Defined.

(** ** [App] and its [Slideshow] *)

Lemma appHandle_key (e : AppEvent) (a : AppState) :
  a_engineKey (appHandle e a)
  = if remounts e then S (a_engineKey a) else a_engineKey a.
Proof. by destruct e. Qed.

Lemma appHandle_items (e : AppEvent) (a : AppState) :
  remounts e = false -> a_items (appHandle e a) = a_items a.
Proof. by destruct e. Qed.

(** [App] remounts its [Slideshow] exactly on the two handlers that bump
    the key.  Every other handler (play/pause, transition mode, opening
    and closing the sheet) reaches the mounted component as a change of
    its live settings: the engine after it is the engine's own step on
    that change, so the shown position, the incoming and the staging
    history are the ones before it, and a transition in flight goes on. *)
Theorem app_event_is_settings_step (vr : EngineVariant) (t : Z)
  (e : AppEvent) (x : App) :
  mountedKey x = a_engineKey (app x) ->
  props (engine x) = slideshowProps (app x) ->
  let a' := appHandle e (app x) in
  let x' := appStep vr t e x in
  mountedKey x' = a_engineKey (app x')
  /\ props (engine x') = slideshowProps (app x')
  /\ (remounts e = true -> engine x' = mount vr (slideshowProps a') t)
  /\ (remounts e = false ->
      engine x'
      = step vr t
          (EvSettings (a_playing a') (a_intervalSec a')
             (a_transitionMode a') true)
          (engine x)
      /\ state (engine x') = state (engine x)
      /\ stagings (engine x') = stagings (engine x)).
Proof.
  intros Hk Hp a' x'.
  assert (engine x' = renderChild vr t a' (mountedKey x) (engine x))
    as Hx by reflexivity.
  assert (app x' = a') as Ha by reflexivity.
  pose proof (appHandle_key e (app x)) as Hkey. fold a' in Hkey.
  assert (remounts e = true -> engine x' = mount vr (slideshowProps a') t)
    as Hre.
  { intros He. rewrite Hx. unfold renderChild.
    rewrite decide_False; [done|]. rewrite Hkey, He, Hk. lia. }
  assert (remounts e = false ->
          engine x'
          = step vr t
              (EvSettings (a_playing a') (a_intervalSec a')
                 (a_transitionMode a') true)
              (engine x)) as Hst.
  { intros He. rewrite Hx. unfold renderChild.
    rewrite decide_True by (by rewrite Hkey, He, Hk).
    unfold step. f_equal. cbn [handle].
    change (props (set_now t (engine x))) with (props (engine x)).
    rewrite Hp. unfold slideshowProps. cbn [items shuffle shuffleSeed].
    rewrite <- (appHandle_items e (app x) He). done. }
  split_and!.
  - done.
  - rewrite Ha. destruct (remounts e) eqn:He.
    + rewrite (Hre eq_refl). apply mount_props.
    + rewrite (Hst eq_refl). unfold step.
      rewrite (core_props _ _ (reconcile_core vr _)). cbn [handle].
      change (props (set_now t (engine x))) with (props (engine x)).
      rewrite Hp. unfold slideshowProps. cbn [items shuffle shuffleSeed props set_props].
      rewrite <- (appHandle_items e (app x) He). done.
  - exact Hre.
  - intros He. split_and!; [by apply Hst|..]; rewrite (Hst He).
    + by rewrite step_state.
    + unfold step. by rewrite (stagings_core _ _ (reconcile_core vr _)).
Qed.

Lemma app_event_is_settings_step_witness :
  st_incoming (state (engine demoApp)) = Some (demoIncoming false)
  /\ state (engine (appStep Defensive 7005 (AppSetPlaying false) demoApp))
     = state (engine demoApp).
Proof.
  split.
  - vm_compute. reflexivity.
  - assert (props (engine demoApp) = slideshowProps (app demoApp)) as Hp
      by (vm_compute; reflexivity).
    apply (app_event_is_settings_step Defensive 7005 (AppSetPlaying false)
             demoApp eq_refl Hp).
    reflexivity.
Defined.
